(** * yarn-plugin-pin-deps: the pinning command, embedded and verified

    A shallow embedding of [packages/plugin-pin-deps/sources/index.ts].
    The command object's fields become an explicit state record, the host
    package manager (semver, structUtils, the resolved project) becomes
    section variables, and code that can raise runs in a small
    state-and-exception monad. *)

From Stdlib Require Import String Ascii List ZArith Lia Bool Arith.
From Stdlib Require Import Permutation Sorted DecimalString.
Import ListNotations.
Open Scope string_scope.

Set Implicit Arguments.

(* ================================================================== *)
(** ** JavaScript values and collections *)
(* ================================================================== *)

(** A value of TypeScript type [string | null]. *)
Definition jsstr := option string.

(** [===] on [string | null]. *)
Definition jsstr_eqb (a b : jsstr) : bool :=
  match a, b with
  | Some x, Some y => String.eqb x y
  | None, None => true
  | _, _ => false
  end.

(** Conversion performed by a template literal. *)
Definition str_of (v : jsstr) : string :=
  match v with
  | Some s => s
  | None => "null"
  end.

(** [String(n)] for a non-negative integer. *)
Definition str_of_nat (n : nat) : string :=
  NilEmpty.string_of_uint (Nat.to_uint n).

(** [Array.prototype.includes] on an array of strings. *)
Definition includes (l : list string) (x : string) : bool :=
  existsb (String.eqb x) l.

(** [Array.prototype.join]. *)
Fixpoint join (sep : string) (l : list string) : string :=
  match l with
  | [] => EmptyString
  | [x] => x
  | x :: rest => x ++ sep ++ join sep rest
  end.

(** A JavaScript [Map] with string keys keeps its entries in insertion
    order, and that order is observable here (it fixes the order of the
    candidates and of the plan), so a map is an association list. *)
Module JsMap.

Definition t (V : Type) := list (string * V).

Definition empty {V : Type} : t V := [].

Fixpoint get {V : Type} (k : string) (m : t V) : option V :=
  match m with
  | [] => None
  | (k', v) :: rest => if String.eqb k k' then Some v else get k rest
  end.

(** [set] overwrites an existing key where it stands and appends a new
    one at the end. *)
Fixpoint set {V : Type} (k : string) (v : V) (m : t V) : t V :=
  match m with
  | [] => [(k, v)]
  | (k', v') :: rest =>
      if String.eqb k k' then (k, v) :: rest else (k', v') :: set k v rest
  end.

End JsMap.

(** A JavaScript [Set] of strings, in insertion order. *)
Module JsSet.

Definition t := list string.

Definition has (x : string) (s : t) : bool := includes s x.

Definition add (x : string) (s : t) : t :=
  if has x s then s else (s ++ [x])%list.

Definition size (s : t) : nat := length s.

End JsSet.

(* ================================================================== *)
(** ** Completions and the state-and-exception monad *)
(* ================================================================== *)

(** How a call ends: with a value, or by throwing. *)
Inductive completion (A : Type) : Type :=
| Normal (a : A)
| Throw (e : string).

Arguments Normal {A} a.
Arguments Throw {A} e.

(** A computation over a mutable state [S]; what was written before a
    throw stays written. *)
Definition M (S A : Type) : Type := S -> S * completion A.

Definition ret {S A : Type} (a : A) : M S A := fun s => (s, Normal a).

Definition throw {S A : Type} (e : string) : M S A := fun s => (s, Throw e).

Definition bind {S A B : Type} (m : M S A) (k : A -> M S B) : M S B :=
  fun s =>
    match m s with
    | (s', Normal a) => k a s'
    | (s', Throw e) => (s', Throw e)
    end.

Definition lift {S A : Type} (c : completion A) : M S A := fun s => (s, c).

Definition modify {S : Type} (f : S -> S) : M S unit := fun s => (f s, Normal tt).

Definition gets {S A : Type} (f : S -> A) : M S A := fun s => (s, Normal (f s)).

(** A [for ... of] loop whose body can throw. *)
Fixpoint forEach {S A : Type} (l : list A) (body : A -> M S unit) : M S unit :=
  match l with
  | [] => ret tt
  | x :: rest => bind (body x) (fun _ => forEach rest body)
  end.

(** The pure completion monad, for callbacks that only compute or throw. *)
Definition cbind {A B : Type} (c : completion A) (k : A -> completion B)
  : completion B :=
  match c with
  | Normal a => k a
  | Throw e => Throw e
  end.

(** [Array.prototype.map] with a callback that can throw: the first throw
    ends the traversal. *)
Fixpoint mapC {A B : Type} (f : A -> completion B) (l : list A)
  : completion (list B) :=
  match l with
  | [] => Normal []
  | x :: rest =>
      cbind (f x) (fun y => cbind (mapC f rest) (fun ys => Normal (y :: ys)))
  end.

(* ================================================================== *)
(** ** Data model: descriptors, packages, manifests, the project *)
(* ================================================================== *)

Definition IdentHash := string.
Definition LocatorHash := string.
Definition DescriptorHash := string.

(** [Descriptor]: the fields the command reads.  [range] is a string in
    every manifest that was loaded; it is [null] only after a pin to a
    package without a version was written into it. *)
Record Descriptor : Type := mkDescriptor {
  identHash : IdentHash;
  scope : jsstr;
  name : string;
  range : jsstr
}.

(** [Package]: a locator with its resolved version. *)
Record Package : Type := mkPackage {
  locatorHash : LocatorHash;
  reference : string;
  version : jsstr
}.

(** [Manifest]: [manifest_name] is [manifest.name.name], absent when the
    manifest has no name. *)
Record Manifest : Type := mkManifest {
  manifest_name : option string;
  dependencies : JsMap.t Descriptor;
  devDependencies : JsMap.t Descriptor
}.

Record Workspace : Type := mkWorkspace {
  cwd : string;
  relativeCwd : string;
  manifest : Manifest
}.

(** The resolved project: what [project.resolveEverything] leaves. *)
Record Project : Type := mkProject {
  storedResolutions : JsMap.t LocatorHash;
  storedDescriptors : JsMap.t Descriptor;
  storedPackages : JsMap.t Package;
  project_workspaces : list Workspace
}.

(** The command-line options of [PinDepsCommand].  An array option that
    was not given is [undefined]. *)
Record Options : Type := mkOptions {
  dryRun : bool;
  onlyDevDependencies : bool;
  ignoreDevDependencies : bool;
  verbose : bool;
  onlyPackages : option (list string);
  alsoIncludePackages : option (list string);
  onlyWorkspaces : option (list string)
}.

(* ================================================================== *)
(** ** Rendering *)
(* ================================================================== *)

Definition esc : string := String (ascii_of_nat 27) EmptyString.

Definition green (text : string) : string := esc ++ "[32m" ++ text ++ esc ++ "[0m".
Definition yellow (text : string) : string := esc ++ "[33m" ++ text ++ esc ++ "[0m".

(** The [highlight] option of [pRef]: one function per descriptor field. *)
Record Highlight : Type := mkHighlight {
  hi_scope : string -> string;
  hi_name : string -> string;
  hi_range : string -> string
}.

Definition identity (x : string) : string := x.

Definition noHighlight : Highlight := mkHighlight identity identity identity.

(** JavaScript truthiness of a [string | null | undefined]. *)
Definition truthy (v : jsstr) : bool :=
  match v with
  | Some s => negb (String.eqb s EmptyString)
  | None => false
  end.

(** [pRef]: [@scope/name:range], the scope part only for a truthy scope. *)
Definition pRef (hi : Highlight) (scope : jsstr) (name : string) (range : jsstr)
  : string :=
  (if truthy scope then "@" ++ hi_scope hi (str_of scope) ++ "/" else EmptyString)
  ++ hi_name hi name ++ ":" ++ hi_range hi (str_of range).

(* ================================================================== *)
(** ** The descriptor matcher *)
(* ================================================================== *)

(** [PinDepsCommand.referencesPackage]. *)
Definition referencesPackage (refPkg : string)
  (scope : jsstr) (name : string) (range : jsstr) : bool :=
  let candidatePkg := pRef noHighlight scope name range in
  let exactMatch := String.eqb refPkg candidatePkg in
  let rangeMatch := includes [":" ++ str_of range; "*:" ++ str_of range] refPkg in
  exactMatch || rangeMatch.

(** [isDependencyExplicitlyIncluded]. *)
Definition isDependencyExplicitlyIncluded (o : Options)
  (scope : jsstr) (name : string) (range : jsstr) : bool :=
  let included :=
    existsb (fun includeRef => referencesPackage includeRef scope name range)
      (match alsoIncludePackages o with Some l => l | None => [] end) in
  let selected :=
    existsb (fun selectRef => referencesPackage selectRef scope name range)
      (match onlyPackages o with Some l => l | None => [] end) in
  included || selected.

(** The call in [processDependency] passes [{ name, range }] only, so the
    callee destructures an [undefined] scope. *)
Definition explicitlyIncluded (o : Options) (dependency : Descriptor) : bool :=
  isDependencyExplicitlyIncluded o None (name dependency) (range dependency).

(* ================================================================== *)
(** ** [Array.prototype.sort] as the engine performs it *)
(* ================================================================== *)

(** Both comparators of [processDependency] are inconsistent in the sense
    of the language standard (neither returns 0 on equal arguments), so
    the order they leave is the engine's.  The plugin runs on Node, whose
    engine sorts an array of fewer than 64 elements by taking the longest
    initial run (reversed when strictly descending) and inserting the
    remaining elements one by one with a binary search.  Longer arrays are
    cut into such runs that are then merged stably: for a constant
    negative comparator the first run is the whole array, and for a
    comparator that tests a strict weak order a stable sort has one
    result, so the same function describes them as well.  The engine only
    ever tests [order < 0]. *)
Section ArraySort.

Variable A : Type.
Variable comparefn : A -> A -> completion Z.

(** The loop of [CountAndMakeRun]: the run goes on while the order of
    each element against the previous one keeps the direction. *)
Fixpoint extendRun (isDescending : bool) (previousElement : A) (rest : list A)
  : completion (list A * list A) :=
  match rest with
  | [] => Normal ([], [])
  | currentElement :: rest' =>
      cbind (comparefn currentElement previousElement) (fun order =>
        if Bool.eqb isDescending (order <? 0)%Z
        then cbind (extendRun isDescending currentElement rest')
               (fun rr => Normal (currentElement :: fst rr, snd rr))
        else Normal ([], rest))
  end.

(** [CountAndMakeRun]: the initial run, put in ascending order, and the
    elements after it. *)
Definition CountAndMakeRun (l : list A) : completion (list A * list A) :=
  match l with
  | [] => Normal ([], [])
  | [x] => Normal ([x], [])
  | elementHigh :: elementLow :: rest =>
      cbind (comparefn elementLow elementHigh) (fun order =>
        let isDescending := (order <? 0)%Z in
        cbind (extendRun isDescending elementLow rest) (fun rr =>
          let run := elementHigh :: elementLow :: fst rr in
          Normal (if isDescending then rev run else run, snd rr)))
  end.

(** The binary search of [BinaryInsertionSort]; [right - left] shrinks
    at every turn, so [fuel >= right - left] lets the loop finish. *)
Fixpoint binarySearch (fuel : nat) (sorted : list A) (pivot : A)
  (left right : nat) : completion nat :=
  match fuel with
  | O => Normal left
  | S fuel' =>
      if (left <? right)%nat then
        let mid := (left + Nat.div2 (right - left))%nat in
        match nth_error sorted mid with
        | None => Normal left
        | Some element =>
            cbind (comparefn pivot element) (fun order =>
              if (order <? 0)%Z
              then binarySearch fuel' sorted pivot left mid
              else binarySearch fuel' sorted pivot (mid + 1)%nat right)
        end
      else Normal left
  end.

Definition insertAt (i : nat) (x : A) (l : list A) : list A :=
  (firstn i l ++ x :: skipn i l)%list.

Fixpoint BinaryInsertionSort (sorted rest : list A) : completion (list A) :=
  match rest with
  | [] => Normal sorted
  | pivot :: rest' =>
      cbind (binarySearch (length sorted) sorted pivot 0 (length sorted))
        (fun left => BinaryInsertionSort (insertAt left pivot sorted) rest')
  end.

Definition Array_sort (l : list A) : completion (list A) :=
  match l with
  | [] => Normal l
  | [_] => Normal l
  | _ =>
      cbind (CountAndMakeRun l) (fun rr => BinaryInsertionSort (fst rr) (snd rr))
  end.

End ArraySort.

(* ================================================================== *)
(** ** The report *)
(* ================================================================== *)

(** What the command sends to the [StreamReport]. *)
Inductive LogEntry : Type :=
| Info (text : string)
| Warning (text : string)
| Json (data : JsMap.t (JsMap.t jsstr)).

(** The report: the lines sent so far, oldest first, and the keys that
    [reportWarningOnce] has already seen. *)
Record Report : Type := mkReport {
  entries : list LogEntry;
  reportedWarnings : JsSet.t
}.

Definition emit (e : LogEntry) (r : Report) : Report :=
  mkReport (entries r ++ [e])%list (reportedWarnings r).

Definition reportInfo (text : string) (r : Report) : Report := emit (Info text) r.

Definition reportWarning (text : string) (r : Report) : Report :=
  emit (Warning text) r.

Definition reportJson (data : JsMap.t (JsMap.t jsstr)) (r : Report) : Report :=
  emit (Json data) r.

(** [reportWarningOnce]: the text is its own key. *)
Definition reportWarningOnce (text : string) (r : Report) : Report :=
  if JsSet.has text (reportedWarnings r) then r
  else reportWarning text (mkReport (entries r) (JsSet.add text (reportedWarnings r))).

Definition logVerboseWarning (o : Options) (prefix msg : string) (r : Report)
  : Report :=
  if negb (verbose o) then r else reportWarning (prefix ++ " " ++ msg) r.

Definition logVerboseInfo (o : Options) (prefix msg : string) (r : Report)
  : Report :=
  if negb (verbose o) then r else reportInfo (prefix ++ " " ++ msg) r.

(** The two non-ASCII glyphs of the messages, as UTF-8. *)
Definition utf8 (bytes : list nat) : string :=
  fold_right (fun b s => String (ascii_of_nat b) s) EmptyString bytes.

Definition checkMark : string := utf8 [226; 156; 147].
Definition rightArrow : string := utf8 [226; 134; 146].

(* ================================================================== *)
(** ** The command *)
(* ================================================================== *)

(** What one call of [processDependency] can write: the report and the two
    per-workspace maps it is handed. *)
Record DepState : Type := mkDepState {
  ds_log : Report;
  pinnableInWorkspace : JsMap.t Package;
  reportablePinsInWorkspace : JsMap.t jsstr
}.

(** The fields of the command object, and the manifest files on disk. *)
Record Command : Type := mkCommand {
  log : Report;
  locatorsByIdent : JsMap.t JsSet.t;
  workspaces : list Workspace;
  pinnableByWorkspaceCwd : JsMap.t (JsMap.t Package);
  reportablePinsByWorkspaceCwd : JsMap.t (JsMap.t jsstr);
  disk : JsMap.t Manifest
}.

(** What the loop of [pinDependencies] over one workspace can write. *)
Record PinState : Type := mkPinState {
  ps_log : Report;
  ps_manifest : Manifest;
  ps_disk : JsMap.t Manifest
}.

Definition typeError (what : string) : string := "TypeError: " ++ what.

(** [range.match] against the pattern "any characters from start to end":
    the dot stops at a line terminator, so the match is [null] exactly for
    a range that holds one; otherwise group 1 is the whole range. *)
Fixpoint hasLineTerminator (s : string) : bool :=
  match s with
  | EmptyString => false
  | String c rest =>
      if (nat_of_ascii c =? 10)%nat || (nat_of_ascii c =? 13)%nat then true
      else
        match rest with
        | String c2 (String c3 _) =>
            if (nat_of_ascii c =? 226)%nat && (nat_of_ascii c2 =? 128)%nat
               && ((nat_of_ascii c3 =? 168)%nat || (nat_of_ascii c3 =? 169)%nat)
            then true
            else hasLineTerminator rest
        | _ => hasLineTerminator rest
        end
  end.

Definition semverMatch (range : string) : option string :=
  if hasLineTerminator range then None else Some range.

(** [structUtils.areLocatorsEqual]. *)
Definition areLocatorsEqual (a b : Package) : bool :=
  String.eqb (locatorHash a) (locatorHash b).

(** [candidates.map((v, i) => candidates.slice(i + 1).map((w) => [v, w])).flat()]. *)
Fixpoint candidatePairs (l : list Package) : list (Package * Package) :=
  match l with
  | [] => []
  | v :: rest => (map (fun w => (v, w)) rest ++ candidatePairs rest)%list
  end.

Definition numDupes (l : list Package) : nat :=
  length (filter (fun ab => negb (areLocatorsEqual (fst ab) (snd ab)))
            (candidatePairs l)).

(** [ppath.join(workspaceCwd, Manifest.fileName)] for a normalized
    absolute directory. *)
Definition manifestPath (workspaceCwd : string) : string :=
  if String.eqb workspaceCwd "/" then "/package.json"
  else workspaceCwd ++ "/package.json".

(** [createLocatorsByIdentMap], as a function of the project. *)
Fixpoint indexResolutions (storedDescriptors : JsMap.t Descriptor)
  (resolutions : list (DescriptorHash * LocatorHash))
  (locatorsByIdent : JsMap.t JsSet.t) : completion (JsMap.t JsSet.t) :=
  match resolutions with
  | [] => Normal locatorsByIdent
  | (descriptorHash, value) :: rest =>
      match JsMap.get descriptorHash storedDescriptors with
      | None => Throw (typeError "descriptor is undefined")
      | Some descriptor =>
          let key := identHash descriptor in
          indexResolutions storedDescriptors rest
            (match JsMap.get key locatorsByIdent with
             | None => JsMap.set key [value] locatorsByIdent
             | Some locators => JsMap.set key (JsSet.add value locators) locatorsByIdent
             end)
      end
  end.

Definition createLocatorsByIdentMap (proj : Project) : M Command unit :=
  fun c =>
    match indexResolutions (storedDescriptors proj) (storedResolutions proj) JsMap.empty with
    | Throw e => (c, Throw e)
    | Normal m =>
        (mkCommand (log c) m (workspaces c) (pinnableByWorkspaceCwd c)
           (reportablePinsByWorkspaceCwd c) (disk c), Normal tt)
    end.

(** [Array.prototype.filter] with a callback that reports and can throw. *)
Fixpoint filterM {S A : Type} (f : A -> M S bool) (l : list A) : M S (list A) :=
  match l with
  | [] => ret []
  | x :: rest =>
      bind (f x) (fun keep =>
        bind (filterM f rest) (fun kept => ret (if keep then x :: kept else kept)))
  end.

(** A loop that carries a local counter. *)
Fixpoint foldM {S A B : Type} (body : B -> A -> M S B) (acc : B) (l : list A)
  : M S B :=
  match l with
  | [] => ret acc
  | x :: rest => bind (body acc x) (fun acc' => foldM body acc' rest)
  end.

Definition setLog (r : Report) (c : Command) : Command :=
  mkCommand r (locatorsByIdent c) (workspaces c) (pinnableByWorkspaceCwd c)
    (reportablePinsByWorkspaceCwd c) (disk c).

Definition setWorkspaces (ws : list Workspace) (c : Command) : Command :=
  mkCommand (log c) (locatorsByIdent c) ws (pinnableByWorkspaceCwd c)
    (reportablePinsByWorkspaceCwd c) (disk c).

(** [gatherWorkspaces]. *)
Definition gatherWorkspaces (o : Options) (proj : Project) : M Command unit :=
  let shouldCheckAllWorkspaces :=
    match onlyWorkspaces o with
    | None => true
    | Some l => (length l =? 0)%nat
    end in
  if shouldCheckAllWorkspaces then modify (setWorkspaces (project_workspaces proj))
  else
    bind
      (filterM (fun workspace =>
         let possibleWorkspaceRefs :=
           filter (fun pwr => negb (String.eqb pwr EmptyString))
             ([cwd workspace; relativeCwd workspace]
              ++ match manifest_name (manifest workspace) with
                 | Some n => [n]
                 | None => []
                 end)%list in
         let include :=
           existsb (fun givenWorkspaceRef => includes possibleWorkspaceRefs givenWorkspaceRef)
             (match onlyWorkspaces o with Some l => l | None => [] end) in
         match manifest_name (manifest workspace) with
         | None => throw (typeError "workspace.manifest.name is null")
         | Some n =>
             bind
               (modify (fun c =>
                  setLog
                    (if include
                     then reportWarning
                            (green checkMark ++ " Including workspace " ++ n
                             ++ " at " ++ cwd workspace) (log c)
                     else logVerboseWarning o "gatherWorkspaces"
                            (yellow "x" ++ " Excluding workspace " ++ n
                             ++ ", no match for "
                             ++ join " or "
                                  (map (fun r => "'" ++ r ++ "'") possibleWorkspaceRefs))
                            (log c)) c))
               (fun _ => ret include)
         end)
         (project_workspaces proj))
      (fun ws => modify (setWorkspaces ws)).

(** The line that closes the work on a workspace in [pinDependencies]. *)
Definition pinnedSummary (dry : bool) (numPinned : nat) (manifestPath : string)
  : string :=
  green checkMark ++ " Pinned " ++ str_of_nat numPinned ++ " and "
  ++ (if dry then "saved[DRY RUN]" else "saved") ++ " to " ++ manifestPath.

Section Host.

(** The host's library functions: [semverUtils.validRange] (truthiness
    of its result), [satisfies] and [gt] of the semver package ([gt]
    throws on a version it cannot parse: [None]), and
    [structUtils.isVirtualLocator] and [devirtualizeLocator] (the hash
    of the locator it returns). *)
Variable validRange : string -> bool.
Variable semverSatisfies : string -> string -> bool.
Variable semverGt : string -> string -> option bool.
Variable isVirtualLocator : Package -> bool.
Variable devirtualizeLocator : Package -> LocatorHash.

(** What [workspace.persistManifest] leaves in the file, as the manifest
    that is read back from it: the host exports the manifest in memory
    ([Manifest.exportTo], which orders the dependencies by name) and
    writes the result.  The write itself is taken to succeed. *)
Variable exportManifest : Manifest -> Manifest.

Variable o : Options.
Variable proj : Project.

(** [PinDepsCommand.needsPin]. *)
Definition needsPin (range : string) : bool :=
  if negb (validRange range) then false else true.

(** The callback of [.map] in [processDependency]: the stored package of
    a locator, replaced by the stored package of its source locator when
    it is virtual ([undefined] when that one is not stored). *)
Definition sourcePackage (locatorHash : LocatorHash) : completion (option Package) :=
  match JsMap.get locatorHash (storedPackages proj) with
  | None =>
      Throw (typeError ("Can't find package for locator hash '" ++ locatorHash ++ "'"))
  | Some pkg =>
      if isVirtualLocator pkg
      then Normal (JsMap.get (devirtualizeLocator pkg) (storedPackages proj))
      else Normal (Some pkg)
  end.

(** The callback of [.filter]. *)
Definition keepCandidate (explicitlyIncluded : bool) (range : string)
  (sourcePackage : option Package) : bool :=
  match sourcePackage with
  | None => false
  | Some p =>
      match version p with
      | None => false
      | Some v =>
          if explicitlyIncluded then true
          else
            match semverMatch range with
            | None => false
            | Some r => semverSatisfies v r
            end
      end
  end.

(** The callback of [.sort]. *)
Definition compareCandidates (explicitlyIncluded : bool) (a b : Package)
  : completion Z :=
  if explicitlyIncluded then Normal (-1)%Z
  else
    match version a, version b with
    | Some va, Some vb =>
        match semverGt va vb with
        | Some true => Normal (-1)%Z
        | Some false => Normal 1%Z
        | None => Throw (typeError "Invalid Version")
        end
    | _, _ => Throw (typeError "Invalid Version")
    end.

(** The packages that pass the filter; the filter drops every
    [undefined], so what is left is a list of packages. *)
Definition survivors (explicitlyIncluded : bool) (range : string)
  (sourcePackages : list (option Package)) : list Package :=
  flat_map (fun sp => match sp with Some p => [p] | None => [] end)
    (filter (keepCandidate explicitlyIncluded range) sourcePackages).

(** The constant [candidates]: map, filter, sort. *)
Definition candidates (explicitlyIncluded : bool) (range : string)
  (locatorHashes : JsSet.t) : completion (list Package) :=
  cbind (mapC sourcePackage locatorHashes) (fun sourcePackages =>
    Array_sort (compareCandidates explicitlyIncluded)
      (survivors explicitlyIncluded range sourcePackages)).

Definition setDsLog (f : Report -> Report) (s : DepState) : DepState :=
  mkDepState (f (ds_log s)) (pinnableInWorkspace s) (reportablePinsInWorkspace s).

(** The statement that assigns [pinTo]; the result is [undefined] when
    no branch assigned a stored package. *)
Definition pinTo (locatorsByIdent : JsMap.t JsSet.t)
  (explicitlyIncluded : bool) (identHash : IdentHash)
  (range depPkgRef workspaceCwd : string) : M DepState (option Package) :=
  let locatorHashes := JsMap.get identHash locatorsByIdent in
  match locatorHashes with
  | Some hashes =>
      if (1 <? JsSet.size hashes)%nat then
        bind (lift (candidates explicitlyIncluded range hashes)) (fun cs =>
          bind
            (if (1 <? length cs)%nat then
               if (0 <? numDupes cs)%nat then
                 modify (setDsLog (reportWarningOnce
                   ("Possible duplicate: " ++ depPkgRef ++ " has "
                    ++ str_of_nat (length cs) ++ " candidates ("
                    ++ str_of_nat (numDupes cs)
                    ++ " conflicting pairs) in workspace " ++ workspaceCwd)))
               else ret tt
             else ret tt)
            (fun _ =>
               match cs with
               | [] => throw (typeError "candidates[0] is undefined")
               | c :: _ => ret (JsMap.get (locatorHash c) (storedPackages proj))
               end))
      else if (JsSet.size hashes =? 1)%nat then
        ret (match hashes with
             | h :: _ => JsMap.get h (storedPackages proj)
             | [] => None
             end)
      else
        bind (modify (setDsLog (reportWarning
                ("Missing locator: " ++ depPkgRef ++ ", in workspace " ++ workspaceCwd))))
          (fun _ => ret None)
  | None =>
      bind (modify (setDsLog (reportWarning
              ("Missing locator: " ++ depPkgRef ++ ", in workspace " ++ workspaceCwd))))
        (fun _ => ret None)
  end.

(** The last statement of [processDependency]: an entry whose range is
    already the target's version is only reported, any other is written
    into the plan.  Reading [pinTo.version] throws when [pinTo] was left
    unassigned. *)
Definition planPin (explicitlyIncluded : bool) (identHash : IdentHash)
  (range depPkgRef workspaceCwd : string) (target : option Package)
  : M DepState unit :=
  match target with
  | None => throw (typeError "pinTo is undefined")
  | Some p =>
      if jsstr_eqb (version p) (Some range) then
        if explicitlyIncluded
        then modify (setDsLog (reportInfo
               (yellow "-" ++ " Already pinned: " ++ depPkgRef)))
        else modify (setDsLog (logVerboseWarning o workspaceCwd
               ("already pinned " ++ depPkgRef ++ " to " ++ str_of (version p))))
      else
        modify (fun s =>
          mkDepState
            (logVerboseInfo o workspaceCwd
               ("will pin " ++ depPkgRef ++ " to " ++ str_of (version p)
                ++ " in " ++ workspaceCwd) (ds_log s))
            (JsMap.set identHash p (pinnableInWorkspace s))
            (JsMap.set depPkgRef (version p) (reportablePinsInWorkspace s)))
  end.

(** The "only" filter: [this.onlyPackages && !this.onlyPackages.includes(depPkgRef)]. *)
Definition omitted (depPkgRef : string) : bool :=
  match onlyPackages o with
  | Some l => negb (includes l depPkgRef)
  | None => false
  end.

(** [processDependency].  A [null] range fails in [needsPin], where
    [validRange] reads a property of it. *)
Definition processDependency (locatorsByIdent : JsMap.t JsSet.t)
  (identHash : IdentHash) (dependency : Descriptor) (workspaceCwd : string)
  : M DepState unit :=
  match range dependency with
  | None => throw (typeError "range is null")
  | Some r =>
      let depPkgRef :=
        pRef noHighlight (scope dependency) (name dependency) (range dependency) in
      let explicitlyIncluded := explicitlyIncluded o dependency in
      bind
        (if negb (needsPin r) then
           if explicitlyIncluded
           then modify (setDsLog (logVerboseInfo o workspaceCwd ("Include: " ++ depPkgRef)))
           else modify (setDsLog (logVerboseWarning o workspaceCwd ("Skip: " ++ depPkgRef)))
         else ret tt)
        (fun _ =>
           if negb (needsPin r) && negb explicitlyIncluded then ret tt
           else if omitted depPkgRef
           then modify (setDsLog (logVerboseWarning o workspaceCwd ("Omit: " ++ depPkgRef)))
           else
             bind (pinTo locatorsByIdent explicitlyIncluded identHash r depPkgRef
                     workspaceCwd)
               (planPin explicitlyIncluded identHash r depPkgRef workspaceCwd))
  end.

(** The body of the loop of [findPinnableDependencies] for one
    workspace.  The two fresh maps are stored under the workspace's
    directory before the entries are processed and are the very objects
    [processDependency] fills, so what it wrote is in the outer maps
    whether the loop ends or throws. *)
Definition findPinnableInWorkspace (workspace : Workspace) : M Command unit :=
  fun c =>
    let workspaceCwd := cwd workspace in
    let body : M DepState unit :=
      bind
        (if negb (onlyDevDependencies o) then
           forEach (dependencies (manifest workspace)) (fun e =>
             processDependency (locatorsByIdent c) (fst e) (snd e) workspaceCwd)
         else ret tt)
        (fun _ =>
           if onlyDevDependencies o || negb (ignoreDevDependencies o) then
             forEach (devDependencies (manifest workspace)) (fun e =>
               processDependency (locatorsByIdent c) (fst e) (snd e) workspaceCwd)
           else ret tt) in
    let res := body (mkDepState (log c) JsMap.empty JsMap.empty) in
    (mkCommand (ds_log (fst res)) (locatorsByIdent c) (workspaces c)
       (JsMap.set workspaceCwd (pinnableInWorkspace (fst res))
          (pinnableByWorkspaceCwd c))
       (JsMap.set workspaceCwd (reportablePinsInWorkspace (fst res))
          (reportablePinsByWorkspaceCwd c))
       (disk c),
     snd res).

(** [findPinnableDependencies]. *)
Definition findPinnableDependencies : M Command unit :=
  bind
    (modify (fun c =>
       mkCommand (log c) (locatorsByIdent c) (workspaces c) JsMap.empty JsMap.empty
         (disk c)))
    (fun _ => bind (gets workspaces) (fun ws => forEach ws findPinnableInWorkspace)).

Definition setRange (d : Descriptor) (r : jsstr) : Descriptor :=
  mkDescriptor (identHash d) (scope d) (name d) r.

(** The body of the inner loop of [pinDependencies]: one planned pin.
    The counter [numPinned] is the loop's accumulator. *)
Definition pinEntry (manifestPath : string) (numPinned : nat)
  (entry : IdentHash * Package) : M PinState nat :=
  fun s =>
    let identHash := fst entry in
    let version := version (snd entry) in
    let m := ps_manifest s in
    let curDependency := JsMap.get identHash (dependencies m) in
    let curDevDependency := JsMap.get identHash (devDependencies m) in
    let curValue :=
      match curDependency with
      | Some d => Some d
      | None => curDevDependency
      end in
    let log1 :=
      match curDependency, curDevDependency with
      | Some d, Some _ =>
          reportWarning
            ("Possible package.json conflict between devDependencies and dependencies in "
             ++ name d ++ " at " ++ manifestPath) (ps_log s)
      | _, _ => ps_log s
      end in
    match curValue with
    | None =>
        (mkPinState log1 m (ps_disk s),
         Throw (typeError "Cannot convert undefined or null to object"))
    | Some oldValue =>
        if jsstr_eqb (range oldValue) version
        then (mkPinState log1 m (ps_disk s), Normal numPinned)
        else
          let newDependency := setRange oldValue version in
          let m' :=
            match curDependency with
            | Some _ =>
                mkManifest (manifest_name m)
                  (JsMap.set identHash newDependency (dependencies m))
                  (devDependencies m)
            | None =>
                mkManifest (manifest_name m) (dependencies m)
                  (JsMap.set identHash newDependency (devDependencies m))
            end in
          (mkPinState
             (reportInfo
                (green rightArrow ++ " Pin "
                 ++ pRef (mkHighlight identity identity yellow)
                      (scope oldValue) (name oldValue) (range oldValue)
                 ++ " " ++ rightArrow ++ " "
                 ++ pRef (mkHighlight identity identity green)
                      (scope newDependency) (name newDependency) (range newDependency)
                 ++ " (" ++ manifestPath ++ ")") log1)
             m' (ps_disk s),
           Normal (numPinned + 1)%nat)
    end.

(** [workspace.persistManifest()]: the export of the manifest in memory
    replaces the file; the manifest in memory stays as it is. *)
Definition persistManifest (manifestPath : string) (s : PinState) : PinState :=
  mkPinState (ps_log s) (ps_manifest s)
    (JsMap.set manifestPath (exportManifest (ps_manifest s)) (ps_disk s)).

(** The body of the outer loop of [pinDependencies]: one workspace. *)
Definition pinWorkspace (workspaceCwd : string)
  (needsPinning : option (JsMap.t Package)) : M PinState unit :=
  let manifestPath := manifestPath workspaceCwd in
  match needsPinning with
  | None => throw (typeError "needsPinning is not iterable")
  | Some plan =>
      bind (foldM (pinEntry manifestPath) 0%nat plan) (fun numPinned =>
        let needsPersist := (0 <? numPinned)%nat in
        if needsPersist then
          bind (if negb (dryRun o) then modify (persistManifest manifestPath) else ret tt)
            (fun _ =>
               modify (fun s =>
                 mkPinState
                   (reportInfo (pinnedSummary (dryRun o) numPinned manifestPath)
                      (ps_log s))
                   (ps_manifest s) (ps_disk s)))
        else ret tt)
  end.

(** The outer loop of [pinDependencies].  A workspace is an object of
    the array [this.workspaces]: its manifest is rewritten where it
    stands, also when the loop throws. *)
Fixpoint pinWorkspaces (done todo : list Workspace) : M Command unit :=
  match todo with
  | [] => ret tt
  | workspace :: rest =>
      fun c =>
        let res :=
          pinWorkspace (cwd workspace)
            (JsMap.get (cwd workspace) (pinnableByWorkspaceCwd c))
            (mkPinState (log c) (manifest workspace) (disk c)) in
        let workspace' :=
          mkWorkspace (cwd workspace) (relativeCwd workspace) (ps_manifest (fst res)) in
        let c' :=
          mkCommand (ps_log (fst res)) (locatorsByIdent c)
            (done ++ workspace' :: rest)%list
            (pinnableByWorkspaceCwd c) (reportablePinsByWorkspaceCwd c)
            (ps_disk (fst res)) in
        match snd res with
        | Normal _ => pinWorkspaces (done ++ [workspace'])%list rest c'
        | Throw e => (c', Throw e)
        end
  end.

(** [pinDependencies]. *)
Definition pinDependencies : M Command unit :=
  bind
    (modify (fun c => setLog (reportJson (reportablePinsByWorkspaceCwd c) (log c)) c))
    (fun _ => bind (gets workspaces) (fun ws => pinWorkspaces [] ws)).

(** The callback that [execute] hands to [StreamReport.start], run on
    the resolved project. *)
Definition execute : M Command unit :=
  bind (gatherWorkspaces o proj) (fun _ =>
  bind (createLocatorsByIdentMap proj) (fun _ =>
  bind findPinnableDependencies (fun _ =>
  pinDependencies))).

End Host.

(** The command object before [execute], over the manifest files on disk. *)
Definition newCommand (disk : JsMap.t Manifest) : Command :=
  mkCommand (mkReport [] []) JsMap.empty [] JsMap.empty JsMap.empty disk.

(* ================================================================== *)
(** ** A small host, to run the command on examples *)
(* ================================================================== *)

(** The host functions on the plainest inputs: versions
    [MAJOR.MINOR.PATCH], ranges that are such a version or a caret before
    one, and virtual references [virtual:<context>#<source>].  On these
    inputs they answer as semver and structUtils do; every other input is
    rejected. *)
Module Mini.

Definition digit (c : ascii) : option N :=
  let n := N_of_ascii c in
  if ((48 <=? n) && (n <=? 57))%N then Some (n - 48)%N else None.

Fixpoint digits (s : string) (acc : N) : option N :=
  match s with
  | EmptyString => Some acc
  | String c rest =>
      match digit c with
      | Some d => digits rest (10 * acc + d)%N
      | None => None
      end
  end.

(** A numeric identifier: [0], or digits that do not start with [0]. *)
Definition numeric (s : string) : option N :=
  match s with
  | EmptyString => None
  | String c rest =>
      if Ascii.eqb c "0" && negb (String.eqb rest EmptyString) then None
      else digits s 0%N
  end.

Fixpoint splitOn (sep : ascii) (s : string) : list string :=
  match s with
  | EmptyString => [EmptyString]
  | String c rest =>
      if Ascii.eqb c sep then EmptyString :: splitOn sep rest
      else
        match splitOn sep rest with
        | [] => [String c EmptyString]
        | first :: others => String c first :: others
        end
  end.

Definition parse (v : string) : option (N * N * N) :=
  match splitOn "." v with
  | [a; b; c] =>
      match numeric a, numeric b, numeric c with
      | Some x, Some y, Some z => Some (x, y, z)
      | _, _, _ => None
      end
  | _ => None
  end.

Definition gtb (x y : N * N * N) : bool :=
  let '(a, b, c) := x in
  let '(a', b', c') := y in
  ((a' <? a) || ((a =? a') && ((b' <? b) || ((b =? b') && (c' <? c)))))%N.

Definition eqv (x y : N * N * N) : bool :=
  let '(a, b, c) := x in
  let '(a', b', c') := y in
  ((a =? a') && (b =? b') && (c =? c'))%N.

Definition semverGt (a b : string) : option bool :=
  match parse a, parse b with
  | Some x, Some y => Some (gtb x y)
  | _, _ => None
  end.

(** The versions a caret range admits: not below its version, and with
    the same leftmost non-zero component. *)
Definition caret (x y : N * N * N) : bool :=
  let '(a, b, c) := x in
  let '(a', b', c') := y in
  negb (gtb y x)
  && (if (0 <? a')%N then (a =? a')%N
      else if (0 <? b')%N then ((a =? 0) && (b =? b'))%N
      else ((a =? 0) && (b =? 0) && (c =? c'))%N).

Definition semverSatisfies (v r : string) : bool :=
  match parse v with
  | None => false
  | Some x =>
      match r with
      | String c rest =>
          if Ascii.eqb c "^" then
            match parse rest with
            | Some y => caret x y
            | None => false
            end
          else
            match parse r with
            | Some y => eqv x y
            | None => false
            end
      | EmptyString => false
      end
  end.

Definition isExactVersion (r : string) : bool :=
  match parse r with
  | Some _ => true
  | None => false
  end.

Definition validRange (r : string) : bool :=
  match r with
  | String c rest =>
      if Ascii.eqb c "^" then isExactVersion rest else isExactVersion r
  | EmptyString => false
  end.

(** A protocol or tag reference ([workspace:*], [npm:1.0.0], [latest],
    [canary]): here, a range that starts with a letter. *)
Definition isLetter (c : ascii) : bool :=
  let n := N_of_ascii c in
  (((65 <=? n) && (n <=? 90)) || ((97 <=? n) && (n <=? 122)))%N.

Definition isReference (r : string) : bool :=
  match r with
  | String c _ => isLetter c
  | EmptyString => false
  end.

Definition isVirtualLocator (p : Package) : bool :=
  String.prefix "virtual:" (reference p).

Fixpoint afterHash (s : string) : string :=
  match s with
  | EmptyString => EmptyString
  | String c rest => if Ascii.eqb c "#" then rest else afterHash rest
  end.

(** Locator hashes are opaque; here the hash of a virtual locator
    spells [virtual:<context>#<hash of the source>]. *)
Definition devirtualizeLocator (p : Package) : LocatorHash :=
  afterHash (locatorHash p).

(** The name under which the host writes an entry: [stringifyIdent]. *)
Definition identName (d : Descriptor) : string :=
  match scope d with
  | Some s => "@" ++ s ++ "/" ++ name d
  | None => name d
  end.

Fixpoint insertByName (e : IdentHash * Descriptor)
  (l : list (IdentHash * Descriptor)) : list (IdentHash * Descriptor) :=
  match l with
  | [] => [e]
  | e' :: rest =>
      if String.leb (identName (snd e)) (identName (snd e'))
      then e :: l
      else e' :: insertByName e rest
  end.

Definition sortByName (l : list (IdentHash * Descriptor))
  : list (IdentHash * Descriptor) :=
  fold_right insertByName [] l.

(** The export of a manifest: both maps with their entries in the order
    of their names. *)
Definition exportManifest (m : Manifest) : Manifest :=
  mkManifest (manifest_name m) (sortByName (dependencies m))
    (sortByName (devDependencies m)).

Definition processDependency :=
  processDependency validRange semverSatisfies semverGt isVirtualLocator
    devirtualizeLocator.

Definition execute :=
  execute validRange semverSatisfies semverGt isVirtualLocator devirtualizeLocator
    exportManifest.

End Mini.

(** ** Example inputs *)

Definition noOptions : Options :=
  mkOptions false false false false None None None.

Definition dep (ident : string) (sc : jsstr) (nm r : string) : Descriptor :=
  mkDescriptor ident sc nm (Some r).

Definition pkg (hash v : string) : Package :=
  mkPackage hash ("npm:" ++ v) (Some v).

(* ================================================================== *)
(** ** Vocabulary of the statements *)
(* ================================================================== *)

(** Each element stands in relation [R] to the next one. *)
Fixpoint chainR {A : Type} (R : A -> A -> Prop) (prev : A) (run : list A) : Prop :=
  match run with
  | [] => True
  | c :: run' => R prev c /\ chainR R c run'
  end.

(** [a]'s version is greater than [b]'s. *)
Definition versionGt (semverGt : string -> string -> option bool) (a b : Package)
  : bool :=
  match version a, version b with
  | Some va, Some vb =>
      match semverGt va vb with
      | Some true => true
      | _ => false
      end
  | _, _ => false
  end.

(** What the statements about the order of candidates use of semver: [gt]
    compares any two versions that satisfy a range, and on the versions it
    compares it is a strict weak order. *)
Record SemverOrder (semverSatisfies : string -> string -> bool)
  (semverGt : string -> string -> option bool) : Prop := mkSemverOrder {
  gt_defined : forall v w r r',
    semverSatisfies v r = true -> semverSatisfies w r' = true ->
    semverGt v w <> None;
  gt_irrefl : forall v, semverGt v v <> Some true;
  gt_trans : forall a b c,
    semverGt a b = Some true -> semverGt b c = Some true -> semverGt a c = Some true;
  gt_negtrans : forall a b c,
    semverGt a b = Some false -> semverGt b c = Some false -> semverGt a c = Some false
}.

(** What the statements about [needsPin] use of semver: a range is an
    exact version when [semver.valid] accepts it, and every exact version
    is a valid range; a protocol or tag reference is not a valid range. *)
Record SemverRanges (validRange isExactVersion isReference : string -> bool)
  : Prop := mkSemverRanges {
  exact_is_valid : forall r, isExactVersion r = true -> validRange r = true;
  reference_not_valid : forall r, isReference r = true -> validRange r = false
}.

(** The rendered reference of a dependency entry. *)
Definition depRef (dependency : Descriptor) : string :=
  pRef noHighlight (scope dependency) (name dependency) (range dependency).

(** Every package is stored under its own locator hash. *)
Definition storeKeyed (proj : Project) : Prop :=
  forall h p, JsMap.get h (storedPackages proj) = Some p -> locatorHash p = h.

Definition setDryRun (b : bool) (o : Options) : Options :=
  mkOptions b (onlyDevDependencies o) (ignoreDevDependencies o) (verbose o)
    (onlyPackages o) (alsoIncludePackages o) (onlyWorkspaces o).

(** The number of warnings in a report. *)
Definition countWarnings (r : Report) : nat :=
  length (filter (fun e => match e with Warning _ => true | _ => false end) (entries r)).

(* ================================================================== *)
(** ** Example projects *)
(* ================================================================== *)

Definition manifestOf (nm : string) (deps devDeps : JsMap.t Descriptor) : Manifest :=
  mkManifest (Some nm) deps devDeps.

(** [--also @acme/lib:canary], and the scoped dependency it names. *)
Definition alsoScoped : Options :=
  mkOptions false false false false None (Some ["@acme/lib:canary"]) None.

Definition alsoUnscoped : Options :=
  mkOptions false false false false None (Some ["lib:canary"]) None.

Definition scopedCanary : Descriptor := dep "acme-lib" (Some "acme") "lib" "canary".

(** A project whose only resolution of [lib] is 3.0.0, outside the
    declared range. *)
Definition singleProject : Project :=
  mkProject
    [("lib@^2.0.0", "L3")]
    [("lib@^2.0.0", dep "lib" None "lib" "^2.0.0")]
    [("L3", pkg "L3" "3.0.0")]
    [mkWorkspace "/A" "." (manifestOf "a" [("lib", dep "lib" None "lib" "^2.0.0")] [])].

Definition emptyDepState : DepState := mkDepState (mkReport [] []) [] [].

Definition lib20 : Descriptor := dep "lib" None "lib" "^2.0.0".

Definition canaryDep : Descriptor := dep "next" None "next" "canary".

(** A project in which [lib] resolves once to a virtual instance of the
    package [L1] and once to the package [L2]. *)
Definition virtualL1 : Package :=
  mkPackage "virtual:ctx#L1" "virtual:ctx#npm:1.0.0" (Some "1.0.0").

Definition virtualProject : Project :=
  mkProject
    [("lib@^1.0.0", "virtual:ctx#L1"); ("lib@^1.1.0", "L2")]
    [("lib@^1.0.0", dep "lib" None "lib" "^1.0.0");
     ("lib@^1.1.0", dep "lib" None "lib" "^1.1.0")]
    [("virtual:ctx#L1", virtualL1); ("L1", pkg "L1" "1.0.0"); ("L2", pkg "L2" "1.1.0")]
    [mkWorkspace "/A" "." (manifestOf "a" [("lib", dep "lib" None "lib" "^1.0.0")] [])].

Definition indexed (index : JsMap.t JsSet.t) : Command :=
  mkCommand (mkReport [] []) index [] JsMap.empty JsMap.empty [].

(** A computation that leaves the manifest files alone. *)
Definition keepsDisk {A : Type} (m : M Command A) : Prop :=
  forall c, disk (fst (m c)) = disk c.

Definition keepsPsDisk {A : Type} (m : M PinState A) : Prop :=
  forall s, ps_disk (fst (m s)) = ps_disk s.

Definition dryOptions : Options := mkOptions true false false false None None None.

(** One workspace with one pinnable entry, and its manifest file. *)
Definition pinnableDisk : JsMap.t Manifest :=
  [("/A/package.json", manifestOf "a" [("lib", dep "lib" None "lib" "^2.0.0")] [])].

(** A line of a dry run against the line of the run without the flag:
    the same, or the two forms of the closing line of a workspace. *)
Definition dryLine (a b : LogEntry) : Prop :=
  a = b \/
  exists n path,
    a = Info (pinnedSummary true n path) /\ b = Info (pinnedSummary false n path).

Definition sameReport (r1 r2 : Report) : Prop :=
  Forall2 dryLine (entries r1) (entries r2) /\
  reportedWarnings r1 = reportedWarnings r2.

(** Two states of the command that differ at most in the report and in
    the files on disk. *)
Definition sameMemory (c1 c2 : Command) : Prop :=
  locatorsByIdent c1 = locatorsByIdent c2 /\
  workspaces c1 = workspaces c2 /\
  pinnableByWorkspaceCwd c1 = pinnableByWorkspaceCwd c2 /\
  reportablePinsByWorkspaceCwd c1 = reportablePinsByWorkspaceCwd c2.

(** The text of the duplicate warning. *)
Definition duplicateWarning (depPkgRef : string) (n dupes : nat) (workspaceCwd : string)
  : string :=
  "Possible duplicate: " ++ depPkgRef ++ " has " ++ str_of_nat n ++ " candidates ("
  ++ str_of_nat dupes ++ " conflicting pairs) in workspace " ++ workspaceCwd.

(** A package passes the filter of an entry that is not explicitly
    included. *)
Definition satisfying (semverSatisfies : string -> string -> bool) (r : string)
  (p : Package) : Prop :=
  exists v, version p = Some v /\ semverSatisfies v r = true.

(** The scenario of the specification: [lib] resolves to 2.3.0 (locator
    X) and to 2.1.0 (locator Y), and workspace A declares [lib:^2.0.0]. *)
Definition pkgX : Package := pkg "X" "2.3.0".
Definition pkgY : Package := pkg "Y" "2.1.0".

Definition twoProject : Project :=
  mkProject
    [("lib@^2.0.0", "X"); ("lib@~2.1.0", "Y")]
    [("lib@^2.0.0", dep "lib" None "lib" "^2.0.0");
     ("lib@~2.1.0", dep "lib" None "lib" "~2.1.0")]
    [("X", pkgX); ("Y", pkgY)]
    [mkWorkspace "/A" "." (manifestOf "a" [("lib", lib20)] [])].

Definition twoIndex : JsMap.t JsSet.t := [("lib", ["X"; "Y"])].

(** [--also lib:^2.0.0]. *)
Definition alsoLib : Options :=
  mkOptions false false false false None (Some ["lib:^2.0.0"]) None.

(** Three resolutions of [lib] at one version, under three locators. *)
Definition pkgT1 : Package := mkPackage "T1" "npm:1.0.0" (Some "1.0.0").
Definition pkgT2 : Package := mkPackage "T2" "patch:1.0.0" (Some "1.0.0").
Definition pkgT3 : Package := mkPackage "T3" "git:1.0.0" (Some "1.0.0").

Definition threeProject : Project :=
  mkProject
    [("lib@^1.0.0", "T1"); ("lib@patch", "T2"); ("lib@git", "T3")]
    [("lib@^1.0.0", dep "lib" None "lib" "^1.0.0");
     ("lib@patch", dep "lib" None "lib" "patch:lib@^1.0.0");
     ("lib@git", dep "lib" None "lib" "git:lib")]
    [("T1", pkgT1); ("T2", pkgT2); ("T3", pkgT3)]
    [mkWorkspace "/A" "." (manifestOf "a" [("lib", dep "lib" None "lib" "^1.0.0")] [])].

Definition threeIndex : JsMap.t JsSet.t := [("lib", ["T1"; "T2"; "T3"])].

Definition lib10 : Descriptor := dep "lib" None "lib" "^1.0.0".

Definition twoDisk : JsMap.t Manifest :=
  [("/A/package.json", manifestOf "a" [("lib", lib20)] [])].

(** A project in which workspace A declares [lib], which no stored
    resolution resolves, before [other], which resolves to 1.2.3; and
    workspace B declares [other] too. *)
Definition other10 : Descriptor := dep "other" None "other" "^1.0.0".

Definition missingProject : Project :=
  mkProject
    [("other@^1.0.0", "O")]
    [("other@^1.0.0", other10)]
    [("O", pkg "O" "1.2.3")]
    [mkWorkspace "/A" "packages/a" (manifestOf "a" [("lib", lib20); ("other", other10)] []);
     mkWorkspace "/B" "packages/b" (manifestOf "b" [("other", other10)] [])].

Definition missingDisk : JsMap.t Manifest :=
  [("/A/package.json", manifestOf "a" [("lib", lib20); ("other", other10)] []);
   ("/B/package.json", manifestOf "b" [("other", other10)] [])].

(** What [Project.find] gives the next run: the project with every
    workspace's manifest read back from its file. *)
Definition reload (disk : JsMap.t Manifest) (proj : Project) : Project :=
  mkProject (storedResolutions proj) (storedDescriptors proj) (storedPackages proj)
    (map (fun w =>
            match JsMap.get (manifestPath (cwd w)) disk with
            | Some m => mkWorkspace (cwd w) (relativeCwd w) m
            | None => w
            end)
       (project_workspaces proj)).

(** Workspace A lists [lib:^2.0.0] both as a dependency and as a
    devDependency; [lib] resolves to 2.3.0 only.  After the first run the
    resolutions also hold the pinned descriptor. *)
Definition pkgL : Package := pkg "L" "2.3.0".

Definition bothManifest : Manifest :=
  manifestOf "a" [("lib", lib20)] [("lib", lib20)].

Definition bothDisk : JsMap.t Manifest := [("/A/package.json", bothManifest)].

Definition bothProject : Project :=
  mkProject
    [("lib@^2.0.0", "L")]
    [("lib@^2.0.0", lib20)]
    [("L", pkgL)]
    [mkWorkspace "/A" "." bothManifest].

Definition bothProjectResolvedAgain : Project :=
  mkProject
    [("lib@^2.0.0", "L"); ("lib@2.3.0", "L")]
    [("lib@^2.0.0", lib20); ("lib@2.3.0", dep "lib" None "lib" "2.3.0")]
    [("L", pkgL)]
    [mkWorkspace "/A" "." bothManifest].

(** Workspace A lists [lib] as a dependency already at 2.1.0 and as a
    devDependency at [^2.0.0]; [lib] resolves to 2.3.0 and to 2.1.0. *)
Definition lib210 : Descriptor := dep "lib" None "lib" "2.1.0".

Definition mixedManifest : Manifest :=
  manifestOf "a" [("lib", lib210)] [("lib", lib20)].

Definition mixedProject : Project :=
  mkProject
    [("lib@^2.0.0", "X"); ("lib@2.1.0", "Y")]
    [("lib@^2.0.0", lib20); ("lib@2.1.0", lib210)]
    [("X", pkgX); ("Y", pkgY)]
    [mkWorkspace "/A" "." mixedManifest].

(* ================================================================== *)
(** ** Vocabulary of the further properties *)
(* ================================================================== *)

(** The manifest of the workspace has a name. *)
Definition named (w : Workspace) : Prop := manifest_name (manifest w) <> None.

(** A [--workspace] reference names the workspace: it is not empty and it
    is its directory, its relative directory or its name. *)
Definition workspaceSelected (refs : list string) (w : Workspace) : Prop :=
  exists ref,
    In ref refs /\ ref <> EmptyString /\
    (ref = cwd w \/ ref = relativeCwd w \/ manifest_name (manifest w) = Some ref).

(** The line that announces an included workspace. *)
Definition includingLine (w : Workspace) (n : string) : LogEntry :=
  Warning (green checkMark ++ " Including workspace " ++ n ++ " at " ++ cwd w).

(** Workspaces A (named) and B, for [--workspace]. *)
Definition wsA : Workspace := mkWorkspace "/repo/a" "a" (manifestOf "pkg-a" [] []).
Definition wsB : Workspace := mkWorkspace "/repo/b" "b" (manifestOf "pkg-b" [] []).
Definition wsUnnamed : Workspace := mkWorkspace "/repo/c" "c" (mkManifest None [] []).

Definition projectOf (ws : list Workspace) : Project := mkProject [] [] [] ws.

Definition onlyWorkspace (refs : list string) : Options :=
  mkOptions false false false false None None (Some refs).

(** An index in which every identity is listed once, with a set of
    locators that is not empty and lists none twice. *)
Definition indexWellFormed (index : JsMap.t JsSet.t) : Prop :=
  NoDup (map fst index) /\
  forall k s, In (k, s) index -> s <> [] /\ NoDup s.

(** A project with a resolution whose descriptor is not stored. *)
Definition danglingProject : Project :=
  mkProject
    [("lib@^1.0.0", "L1"); ("gone@^1.0.0", "G")]
    [("lib@^1.0.0", dep "lib" None "lib" "^1.0.0")]
    [("L1", pkg "L1" "1.0.0")]
    [].

(** The second report holds the lines of the first, in order, and then
    possibly more. *)
Definition logExtends (r r' : Report) : Prop :=
  exists added, entries r' = (entries r ++ added)%list.

(** [--only lib:^2.0.0 --also other:^1.0.0]. *)
Definition onlyLib : Options :=
  mkOptions false false false false (Some ["lib:^2.0.0"]) (Some ["other:^1.0.0"]) None.

Definition lib30 : Descriptor := dep "lib" None "lib" "^3.0.0".

(** An index with a locator for which no package is stored. *)
Definition holedIndex : JsMap.t JsSet.t := [("lib", ["X"; "nowhere"; "Y"])].

(** The manifest entry that a pin of an identity is written to: the one
    in [dependencies] when there is one, else the one in
    [devDependencies]. *)
Definition curEntry (m : Manifest) (k : IdentHash) : option Descriptor :=
  match JsMap.get k (dependencies m) with
  | Some d => Some d
  | None => JsMap.get k (devDependencies m)
  end.

(** Every pin of the plan is already in the manifest. *)
Definition applied (plan : JsMap.t Package) (m : Manifest) : Prop :=
  forall k p, In (k, p) plan ->
    exists d, curEntry m k = Some d /\ range d = version p.

(** A manifest with [lib] among the dependencies and [tool] among the
    devDependencies, and a plan for both. *)
Definition tool10 : Descriptor := dep "tool" None "tool" "^1.0.0".
Definition pkgTool : Package := pkg "TL" "1.4.0".

Definition plainManifest : Manifest :=
  manifestOf "a" [("lib", lib20)] [("tool", tool10)].

Definition plainPlan : JsMap.t Package := [("lib", pkgX); ("tool", pkgTool)].

Definition plainPinState : PinState := mkPinState (mkReport [] []) plainManifest [].

Definition pinnedManifest : Manifest :=
  manifestOf "a" [("lib", dep "lib" None "lib" "2.3.0")]
    [("tool", dep "tool" None "tool" "1.4.0")].

(** The pin [k -> p] is planned from the manifest [m]: an entry of [k]
    in a map that the options let the command read declares a range that
    is not the version of [p], and [p] is a stored package. *)
Definition plannedFrom (o : Options) (proj : Project) (m : Manifest)
  (k : IdentHash) (p : Package) : Prop :=
  exists d r,
    ((onlyDevDependencies o = false /\ In (k, d) (dependencies m)) \/
     ((onlyDevDependencies o = true \/ ignoreDevDependencies o = false) /\
      In (k, d) (devDependencies m))) /\
    range d = Some r /\ version p <> Some r /\
    exists h, JsMap.get h (storedPackages proj) = Some p.

(** The workspace [w'] is the workspace [w] after the plan stored for
    its directory in [plans] was applied to its manifest. *)
Definition pinnedAs (plans : JsMap.t (JsMap.t Package)) (w w' : Workspace) : Prop :=
  cwd w' = cwd w /\ relativeCwd w' = relativeCwd w /\
  exists plan,
    JsMap.get (cwd w) plans = Some plan /\ applied plan (manifest w').

(** The command over [singleProject] when the planning phase starts: the
    workspaces are gathered and the index is built. *)
Definition readyCommand : Command :=
  mkCommand (mkReport [] []) [("lib", ["L3"])] (project_workspaces singleProject)
    JsMap.empty JsMap.empty pinnableDisk.

(** The same command after the planning phase on the small host. *)
Definition plannedCommand : Command :=
  mkCommand (mkReport [] []) [("lib", ["L3"])] (project_workspaces singleProject)
    [("/A", [("lib", pkg "L3" "3.0.0")])] [("/A", [("lib:^2.0.0", Some "3.0.0")])]
    pinnableDisk.

(** A project in which [lib] resolves once to a virtual instance of the
    package [L1] and once to [L1] itself. *)
Definition sharedProject : Project :=
  mkProject
    [("lib@^1.0.0", "virtual:ctx#L1"); ("lib@1.0.0", "L1")]
    [("lib@^1.0.0", dep "lib" None "lib" "^1.0.0");
     ("lib@1.0.0", dep "lib" None "lib" "1.0.0")]
    [("virtual:ctx#L1", virtualL1); ("L1", pkg "L1" "1.0.0")]
    [mkWorkspace "/A" "." (manifestOf "a" [("lib", dep "lib" None "lib" "^1.0.0")] [])].

Definition sharedIndex : JsMap.t JsSet.t := [("lib", ["virtual:ctx#L1"; "L1"])].

(** A manifest whose dependencies are not in the order of their names,
    with a plan for [lib]; the manifest after the pin as it is in memory,
    and as the small host writes it. *)
Definition zeta10 : Descriptor := dep "zeta" None "zeta" "1.0.0".

Definition unsortedManifest : Manifest :=
  manifestOf "a" [("zeta", zeta10); ("lib", lib20)] [].

Definition unsortedPinState : PinState :=
  mkPinState (mkReport [] []) unsortedManifest [].

Definition unsortedPinned : Manifest :=
  manifestOf "a" [("zeta", zeta10); ("lib", dep "lib" None "lib" "2.3.0")] [].

Definition unsortedWritten : Manifest :=
  manifestOf "a" [("lib", dep "lib" None "lib" "2.3.0"); ("zeta", zeta10)] [].

(** The line that [pinDependencies] reports for a pin: the entry as it
    was, with its range highlighted, then the entry with the new range. *)
Definition pinLine (d : Descriptor) (v : jsstr) (manifestPath : string) : string :=
  green rightArrow ++ " Pin "
  ++ pRef (mkHighlight identity identity yellow) (scope d) (name d) (range d)
  ++ " " ++ rightArrow ++ " "
  ++ pRef (mkHighlight identity identity green) (scope d) (name d) v
  ++ " (" ++ manifestPath ++ ")".

(** What the report [r] holds about the plan [plans] of the workspaces
    [ws] when the pinning step has run: for every pin that changes the
    range of the entry it is written to, the line of that pin, and a
    closing line of the workspace with a positive count. *)
Definition pinsReported (dry : bool) (plans : JsMap.t (JsMap.t Package))
  (ws : list Workspace) (r : Report) : Prop :=
  forall w plan k p d,
    In w ws ->
    JsMap.get (cwd w) plans = Some plan ->
    In (k, p) plan ->
    curEntry (manifest w) k = Some d ->
    range d <> version p ->
    In (Info (pinLine d (version p) (manifestPath (cwd w)))) (entries r) /\
    exists n, (0 < n)%nat /\
      In (Info (pinnedSummary dry n (manifestPath (cwd w)))) (entries r).

(* ================================================================== *)
(** * Properties *)
(* ================================================================== *)

(** ** Lists and sortedness *)

Section ListFacts.

Variable A : Type.

Lemma StronglySorted_app_iff (R : A -> A -> Prop) (l1 l2 : list A) :
  StronglySorted R (l1 ++ l2)%list <->
  StronglySorted R l1 /\ StronglySorted R l2 /\
  (forall a b, In a l1 -> In b l2 -> R a b).
Proof.
  induction l1 as [|x l1 IH]; simpl.
  - split.
    + intros H. repeat split; auto. constructor. intros a b [].
    + intros (_ & H & _). exact H.
  - split.
    + intros H. apply StronglySorted_inv in H. destruct H as [H1 H2].
      apply IH in H1. destruct H1 as (S1 & S2 & C).
      rewrite Forall_app in H2. destruct H2 as [F1 F2].
      repeat split; auto.
      * constructor; auto.
      * intros a b [->|Ha] Hb.
        -- rewrite Forall_forall in F2. auto.
        -- auto.
    + intros (S1 & S2 & C). apply StronglySorted_inv in S1.
      destruct S1 as [S1 F1]. constructor.
      * apply IH. repeat split; auto.
      * rewrite Forall_app. split; auto.
        rewrite Forall_forall. intros b Hb. apply C; auto.
Qed.

Lemma StronglySorted_rev (R : A -> A -> Prop) (l : list A) :
  StronglySorted R l -> StronglySorted (fun a b => R b a) (rev l).
Proof.
  induction 1 as [|x l S IH F]; simpl.
  - constructor.
  - apply StronglySorted_app_iff. repeat split; auto.
    + constructor; constructor.
    + intros a b Ha [<-|[]]. rewrite Forall_forall in F. apply F.
      apply in_rev. exact Ha.
Qed.

Lemma StronglySorted_weaken (P : A -> Prop) (R R' : A -> A -> Prop) (l : list A) :
  (forall a b, P a -> P b -> R a b -> R' a b) ->
  Forall P l -> StronglySorted R l -> StronglySorted R' l.
Proof.
  intros Himp FP S. induction S as [|x l S IH F].
  - constructor.
  - apply Forall_inv in FP as Px. apply Forall_inv_tail in FP.
    constructor; auto.
    rewrite Forall_forall in *. intros b Hb. apply Himp; auto.
Qed.

Lemma StronglySorted_nth (R : A -> A -> Prop) (l : list A) :
  StronglySorted R l ->
  forall i j a b, i < j -> nth_error l i = Some a -> nth_error l j = Some b ->
  R a b.
Proof.
  induction 1 as [|x l S IH F]; intros i j a b Hij Ha Hb.
  - destruct i; discriminate.
  - destruct j as [|j]; [lia|]. simpl in Hb. destruct i as [|i].
    + simpl in Ha. injection Ha as <-. rewrite Forall_forall in F.
      apply F. eapply nth_error_In; eauto.
    + simpl in Ha. apply (IH i j a b); [lia | assumption | assumption].
Qed.

Lemma chainR_sorted (P : A -> Prop) (R : A -> A -> Prop) :
  (forall a b c, P a -> P b -> P c -> R a b -> R b c -> R a c) ->
  forall run x, Forall P (x :: run) -> chainR R x run ->
  StronglySorted R (x :: run).
Proof.
  intros Htrans. induction run as [|c run IH]; intros x FP Hc.
  - constructor; constructor.
  - destruct Hc as [Hxc Hc]. apply Forall_inv in FP as Px.
    apply Forall_inv_tail in FP. specialize (IH c FP Hc).
    constructor; auto. constructor; auto.
    apply StronglySorted_inv in IH. destruct IH as [_ F].
    apply Forall_inv in FP as Pc. apply Forall_inv_tail in FP.
    rewrite Forall_forall in *. intros b Hb.
    apply Htrans with c; auto.
Qed.

Lemma In_firstn_nth (l : list A) (k : nat) (e : A) :
  In e (firstn k l) -> exists i, i < k /\ nth_error l i = Some e.
Proof.
  revert k. induction l as [|x l IH]; intros k H.
  - rewrite firstn_nil in H. destruct H.
  - destruct k as [|k]; [destruct H|]. simpl in H. destruct H as [<-|H].
    + exists 0. split; [lia|reflexivity].
    + apply IH in H. destruct H as (i & Hi & Hn). exists (S i). split; [lia|exact Hn].
Qed.

Lemma In_skipn_nth (l : list A) (k : nat) (e : A) :
  In e (skipn k l) -> exists i, k <= i /\ nth_error l i = Some e.
Proof.
  revert k. induction l as [|x l IH]; intros k H.
  - rewrite skipn_nil in H. destruct H.
  - destruct k as [|k].
    + rewrite skipn_O in H. apply In_nth_error in H. destruct H as [i Hi].
      exists i. split; [lia|exact Hi].
    + simpl in H. apply IH in H. destruct H as (i & Hi & Hn).
      exists (S i). split; [lia|exact Hn].
Qed.

End ListFacts.

Section ArraySortFacts.

Variable A : Type.
Variable comparefn : A -> A -> completion Z.

Lemma extendRun_app (d : bool) (rest : list A) :
  forall prev rr, extendRun comparefn d prev rest = Normal rr ->
  (fst rr ++ snd rr)%list = rest.
Proof.
  induction rest as [|c rest IH]; intros prev rr H; simpl in H.
  - injection H as <-. reflexivity.
  - destruct (comparefn c prev) as [z|e]; simpl in H; [|discriminate].
    destruct (Bool.eqb d (z <? 0)%Z).
    + destruct (extendRun comparefn d c rest) as [rr'|e] eqn:E; simpl in H; [|discriminate].
      injection H as <-. simpl. f_equal. eapply IH; eauto.
    + injection H as <-. reflexivity.
Qed.

Lemma CountAndMakeRun_perm (l : list A) :
  forall rr, CountAndMakeRun comparefn l = Normal rr ->
  Permutation l (fst rr ++ snd rr)%list.
Proof.
  intros rr H. destruct l as [|x0 [|x1 rest]]; simpl in H.
  - injection H as <-. constructor.
  - injection H as <-. apply Permutation_refl.
  - destruct (comparefn x1 x0) as [z|e]; simpl in H; [|discriminate].
    destruct (extendRun comparefn (z <? 0)%Z x1 rest) as [rr'|e] eqn:E; simpl in H;
      [|discriminate].
    apply extendRun_app in E. injection H as <-. 
    cbv [fst snd]. destruct rr' as [run remaining]. simpl in E. subst rest.
    destruct (z <? 0)%Z.
    + apply Permutation_app_tail with (tl := remaining) (l := x0 :: x1 :: run).
      apply Permutation_rev.
    + apply Permutation_refl.
Qed.

Lemma insertAt_perm (i : nat) (x : A) (l : list A) :
  Permutation (x :: l) (insertAt i x l).
Proof.
  unfold insertAt. rewrite <- (firstn_skipn i l) at 1.
  apply Permutation_middle.
Qed.

Lemma BinaryInsertionSort_perm (rest : list A) :
  forall sorted l', BinaryInsertionSort comparefn sorted rest = Normal l' ->
  Permutation (sorted ++ rest)%list l'.
Proof.
  induction rest as [|pivot rest IH]; intros sorted l' H; simpl in H.
  - injection H as <-. rewrite app_nil_r. apply Permutation_refl.
  - destruct (binarySearch comparefn (length sorted) sorted pivot 0 (length sorted))
      as [k|e]; simpl in H; [|discriminate].
    apply IH in H. eapply Permutation_trans; [|exact H].
    apply Permutation_trans with ((pivot :: sorted) ++ rest)%list.
    + apply Permutation_sym. simpl. apply Permutation_middle.
    + apply Permutation_app_tail. apply insertAt_perm.
Qed.

(** Whatever the comparator answers, a sort that ends leaves the same
    elements. *)
Lemma Array_sort_perm (l l' : list A) :
  Array_sort comparefn l = Normal l' -> Permutation l l'.
Proof.
  intros H. destruct l as [|x0 [|x1 rest]].
  - injection H as <-. constructor.
  - injection H as <-. apply Permutation_refl.
  - unfold Array_sort in H.
    destruct (CountAndMakeRun comparefn (x0 :: x1 :: rest)) as [rr|e] eqn:E;
      simpl in H; [|discriminate].
    apply CountAndMakeRun_perm in E. apply BinaryInsertionSort_perm in H.
    eapply Permutation_trans; eauto.
Qed.

End ArraySortFacts.

Section ArraySortConstant.

Variable A : Type.
Variable comparefn : A -> A -> completion Z.
Hypothesis comparefn_negative : forall x y, comparefn x y = Normal (-1)%Z.

Lemma extendRun_negative (rest : list A) :
  forall prev, extendRun comparefn true prev rest = Normal (rest, []).
Proof.
  induction rest as [|c rest IH]; intros prev; simpl.
  - reflexivity.
  - rewrite comparefn_negative. simpl. rewrite IH. reflexivity.
Qed.

(** A comparator that always answers "before" makes the whole array one
    descending run, which is reversed. *)
Lemma Array_sort_negative (l : list A) :
  Array_sort comparefn l = Normal (rev l).
Proof.
  destruct l as [|x0 [|x1 rest]]; try reflexivity.
  unfold Array_sort, CountAndMakeRun.
  rewrite comparefn_negative. simpl cbind.
  rewrite extendRun_negative. reflexivity.
Qed.

End ArraySortConstant.

Section ArraySortOrder.

Variable A : Type.
Variable comparefn : A -> A -> completion Z.
Variable P : A -> Prop.
Variable before : A -> A -> bool.

Hypothesis comparefn_lt : forall x y, P x -> P y ->
  exists z, comparefn x y = Normal z /\ (z <? 0)%Z = before x y.
Hypothesis lt_asym : forall x y, P x -> P y -> before x y = true -> before y x = false.
Hypothesis lt_negtrans : forall x y z, P x -> P y -> P z ->
  before x y = false -> before y z = false -> before x z = false.

(** [a] may stand before [b]. *)
Let ge (a b : A) : Prop := before b a = false.

Lemma lt_trans x y z : P x -> P y -> P z ->
  before x y = true -> before y z = true -> before x z = true.
Proof.
  intros Px Py Pz Hxy Hyz. destruct (before x z) eqn:E; [reflexivity|].
  assert (before z y = false) as Hzy by (apply lt_asym; auto).
  rewrite (lt_negtrans Px Pz Py E Hzy) in Hxy. discriminate.
Qed.

Lemma extendRun_chain (d : bool) (rest : list A) :
  forall prev, P prev -> Forall P rest ->
  exists run remaining,
    extendRun comparefn d prev rest = Normal (run, remaining) /\
    (run ++ remaining)%list = rest /\
    chainR (fun a b => before b a = d) prev run.
Proof.
  induction rest as [|c rest IH]; intros prev Pp FP; simpl.
  - exists [], []. repeat split.
  - apply Forall_inv in FP as Pc. apply Forall_inv_tail in FP.
    destruct (comparefn_lt Pc Pp) as (z & -> & Hz). simpl.
    destruct (Bool.eqb d (z <? 0)%Z) eqn:E.
    + destruct (IH c Pc FP) as (run & remaining & -> & Happ & Hc). simpl.
      exists (c :: run), remaining. repeat split.
      * simpl. f_equal. exact Happ.
      * apply eqb_prop in E. congruence.
      * exact Hc.
    + exists [], (c :: rest). repeat split.
Qed.

Lemma CountAndMakeRun_sorted (l : list A) :
  Forall P l ->
  exists run remaining,
    CountAndMakeRun comparefn l = Normal (run, remaining) /\
    StronglySorted ge run /\ Forall P run /\ Forall P remaining.
Proof.
  intros FP. destruct l as [|x0 [|x1 rest]].
  - exists [], []. repeat split; constructor.
  - exists [x0], []. repeat split; auto. constructor; constructor.
  - apply Forall_inv in FP as P0. apply Forall_inv_tail in FP.
    apply Forall_inv in FP as P1. apply Forall_inv_tail in FP.
    unfold CountAndMakeRun.
    destruct (comparefn_lt P1 P0) as (z & -> & Hz). simpl cbind.
    destruct (extendRun_chain (z <? 0)%Z P1 FP) as (run & remaining & -> & Happ & Hc).
    simpl cbind. cbv [fst snd].
    assert (Forall P (x0 :: x1 :: run) /\ Forall P remaining) as [FR FM].
    { subst rest. rewrite Forall_app in FP. destruct FP. repeat constructor; auto. }
    destruct (z <? 0)%Z eqn:Ez.
    + exists (rev (x0 :: x1 :: run)), remaining. repeat split; auto.
      * apply StronglySorted_weaken with (P := P) (R := fun a b => before a b = true).
        -- intros a b Pa Pb Hab. apply lt_asym; auto.
        -- apply Forall_rev. exact FR.
        -- apply (StronglySorted_rev (R := fun a b => before b a = true)).
           apply chainR_sorted with (P := P); auto.
           ++ intros a b c Pa Pb Pc Hba Hcb. apply lt_trans with b; auto.
           ++ split; [congruence|exact Hc].
      * apply Forall_rev. exact FR.
    + exists (x0 :: x1 :: run), remaining. repeat split; auto.
      apply chainR_sorted with (P := P); auto.
      * intros a b c Pa Pb Pc Hba Hcb. unfold ge in *.
        apply lt_negtrans with b; auto.
      * split; [unfold ge; congruence|exact Hc].
Qed.

Lemma binarySearch_spec (sorted : list A) (pivot : A) :
  Forall P sorted -> P pivot -> StronglySorted ge sorted ->
  forall fuel left right,
    left <= right -> right <= length sorted -> right - left <= fuel ->
    (forall i e, i < left -> nth_error sorted i = Some e -> before pivot e = false) ->
    (forall i e, right <= i -> nth_error sorted i = Some e -> before pivot e = true) ->
    exists k,
      binarySearch comparefn fuel sorted pivot left right = Normal k /\
      (forall i e, i < k -> nth_error sorted i = Some e -> before pivot e = false) /\
      (forall i e, k <= i -> nth_error sorted i = Some e -> before pivot e = true).
Proof.
  intros FP Pp SS. induction fuel as [|fuel IH]; intros left right Hlr Hr Hf Hlo Hhi.
  - exists left. simpl. repeat split; auto.
    intros i e Hi. apply Hhi. lia.
  - simpl. destruct (left <? right)%nat eqn:E.
    + apply Nat.ltb_lt in E.
      pose proof (Nat.lt_div2 (right - left) ltac:(lia)) as Hd.
      remember (left + Nat.div2 (right - left)) as mid eqn:Emid.
      assert (left <= mid /\ mid < right /\ mid - left <= fuel
              /\ right - (mid + 1) <= fuel) as (Hm0 & Hm & Hm1 & Hm2).
      { revert Hd Emid. generalize (Nat.div2 (right - left)). intros h Hd Emid.
        clear - Hd Emid Hf Hlr E. lia. }
      clear Emid.
      destruct (nth_error sorted mid) as [element|] eqn:En.
      2:{ apply nth_error_None in En. lia. }
      assert (P element) as Pe.
      { rewrite Forall_forall in FP. apply FP. eapply nth_error_In; eauto. }
      destruct (comparefn_lt Pp Pe) as (z & -> & Hz). simpl cbind. rewrite Hz.
      destruct (before pivot element) eqn:El.
      * apply IH; auto; try lia.
        intros i e Hi Hn.
        destruct (Nat.eq_dec i mid) as [Heq|Hne]; [subst i; congruence|].
        assert (ge element e) as Hge.
        { apply (StronglySorted_nth SS) with (i := mid) (j := i); auto. lia. }
        assert (P e) as Pe'.
        { rewrite Forall_forall in FP. apply FP. eapply nth_error_In; eauto. }
        destruct (before pivot e) eqn:Ep; [reflexivity|].
        unfold ge in Hge. rewrite (lt_negtrans Pp Pe' Pe Ep Hge) in El. discriminate.
      * apply IH; auto; try lia.
        intros i e Hi Hn.
        destruct (Nat.eq_dec i (mid + 1 - 1)) as [Heq|Hne].
        { replace (mid + 1 - 1) with mid in Heq by lia. subst i. congruence. }
        assert (ge e element) as Hge.
        { apply (StronglySorted_nth SS) with (i := i) (j := mid); auto. lia. }
        assert (P e) as Pe'.
        { rewrite Forall_forall in FP. apply FP. eapply nth_error_In; eauto. }
        unfold ge in Hge. apply lt_negtrans with element; auto.
    + apply Nat.ltb_ge in E. exists left. repeat split; auto.
      intros i e Hi. apply Hhi. lia.
Qed.

Lemma insertAt_sorted (sorted : list A) (pivot : A) (k : nat) :
  Forall P sorted -> P pivot -> StronglySorted ge sorted ->
  (forall i e, i < k -> nth_error sorted i = Some e -> before pivot e = false) ->
  (forall i e, k <= i -> nth_error sorted i = Some e -> before pivot e = true) ->
  StronglySorted ge (insertAt k pivot sorted).
Proof.
  intros FP Pp SS Hlo Hhi. unfold insertAt.
  rewrite <- (firstn_skipn k sorted) in SS.
  apply StronglySorted_app_iff in SS. destruct SS as (S1 & S2 & C).
  apply StronglySorted_app_iff. repeat split; auto.
  - constructor; auto. rewrite Forall_forall. intros e He.
    pose proof He as He'.
    apply In_skipn_nth in He. destruct He as (i & Hi & Hn).
    unfold ge. apply lt_asym; eauto.
    rewrite Forall_forall in FP. apply FP. eapply nth_error_In; eauto.
  - intros a b Ha [<-|Hb]; auto.
    apply In_firstn_nth in Ha. destruct Ha as (i & Hi & Hn). unfold ge. eauto.
Qed.

Lemma BinaryInsertionSort_sorted (rest : list A) :
  forall sorted, Forall P sorted -> Forall P rest -> StronglySorted ge sorted ->
  exists l', BinaryInsertionSort comparefn sorted rest = Normal l' /\
             StronglySorted ge l'.
Proof.
  induction rest as [|pivot rest IH]; intros sorted FS FR SS; simpl.
  - exists sorted. split; auto.
  - apply Forall_inv in FR as Pp. apply Forall_inv_tail in FR.
    destruct (@binarySearch_spec sorted pivot FS Pp SS (length sorted) 0 (length sorted))
      as (k & -> & Hlo & Hhi).
    { apply Nat.le_0_l. }
    { apply Nat.le_refl. }
    { rewrite Nat.sub_0_r. apply Nat.le_refl. }
    { intros i e Hi. inversion Hi. }
    { intros i e Hi Hn. apply nth_error_None in Hi. congruence. }
    simpl cbind. apply IH; auto.
    + apply Permutation_Forall with (pivot :: sorted).
      * apply insertAt_perm.
      * constructor; auto.
    + apply insertAt_sorted; auto.
Qed.

(** For a comparator that tests a strict weak order on the elements, the
    sort ends and leaves them in order. *)
Lemma Array_sort_sorted (l : list A) :
  Forall P l ->
  exists l', Array_sort comparefn l = Normal l' /\
             Permutation l l' /\ StronglySorted ge l'.
Proof.
  intros FP.
  assert (exists l', Array_sort comparefn l = Normal l' /\ StronglySorted ge l')
    as (l' & H & SS).
  { destruct l as [|x0 [|x1 rest]].
    - exists []. split; [reflexivity|constructor].
    - exists [x0]. split; [reflexivity|constructor; constructor].
    - unfold Array_sort.
      destruct (CountAndMakeRun_sorted FP) as (run & remaining & -> & SS & FR & FM).
      simpl cbind. cbv [fst snd]. apply BinaryInsertionSort_sorted; auto. }
  exists l'. repeat split; auto. apply Array_sort_perm with (comparefn := comparefn).
  exact H.
Qed.

End ArraySortOrder.

(** ** Maps and sets *)

Lemma includes_In (l : list string) (x : string) :
  includes l x = true <-> In x l.
Proof.
  unfold includes. rewrite existsb_exists. split.
  - intros (y & Hy & E). apply String.eqb_eq in E. subst. exact Hy.
  - intros H. exists x. split; [exact H|apply String.eqb_refl].
Qed.

Lemma JsSet_add_In (x y : string) (s : JsSet.t) :
  In x (JsSet.add y s) <-> x = y \/ In x s.
Proof.
  unfold JsSet.add, JsSet.has. destruct (includes s y) eqn:E.
  - apply includes_In in E. split; [auto|]. intros [->|H]; auto.
  - rewrite in_app_iff. simpl. split.
    + intros [H|[H|[]]]; auto.
    + intros [->|H]; auto.
Qed.

Lemma JsMap_get_set_same (V : Type) (k : string) (v : V) (m : JsMap.t V) :
  JsMap.get k (JsMap.set k v m) = Some v.
Proof.
  induction m as [|[k' v'] m IH]; simpl.
  - rewrite String.eqb_refl. reflexivity.
  - destruct (String.eqb k k') eqn:E; simpl.
    + rewrite String.eqb_refl. reflexivity.
    + rewrite E. exact IH.
Qed.

Lemma JsMap_get_set_other (V : Type) (k k' : string) (v : V) (m : JsMap.t V) :
  k <> k' -> JsMap.get k' (JsMap.set k v m) = JsMap.get k' m.
Proof.
  intros Hne. induction m as [|[k0 v0] m IH]; simpl.
  - destruct (String.eqb k' k) eqn:E; [|reflexivity].
    apply String.eqb_eq in E. congruence.
  - destruct (String.eqb k k0) eqn:E; simpl.
    + apply String.eqb_eq in E. subst k0.
      destruct (String.eqb k' k) eqn:E'; [|reflexivity].
      apply String.eqb_eq in E'. congruence.
    + rewrite IH. reflexivity.
Qed.

(** ** The small host obeys the laws asked of semver *)

Lemma Mini_gtb_irrefl (x : N * N * N) : Mini.gtb x x = false.
Proof.
  destruct x as [[a b] c]. unfold Mini.gtb.
  rewrite !N.ltb_irrefl, !N.eqb_refl. reflexivity.
Qed.

Lemma Mini_gtb_spec (a b c a' b' c' : N) :
  Mini.gtb (a, b, c) (a', b', c') = true <->
  (a' < a \/ (a = a' /\ (b' < b \/ (b = b' /\ c' < c))))%N.
Proof.
  unfold Mini.gtb.
  rewrite orb_true_iff, andb_true_iff, orb_true_iff, andb_true_iff.
  rewrite !N.ltb_lt, !N.eqb_eq. reflexivity.
Qed.

Lemma Mini_gtb_trans (x y z : N * N * N) :
  Mini.gtb x y = true -> Mini.gtb y z = true -> Mini.gtb x z = true.
Proof.
  destruct x as [[a b] c], y as [[a' b'] c'], z as [[a2 b2] c2].
  rewrite !Mini_gtb_spec. lia.
Qed.

Lemma Mini_gtb_negtrans (x y z : N * N * N) :
  Mini.gtb x y = false -> Mini.gtb y z = false -> Mini.gtb x z = false.
Proof.
  destruct x as [[a b] c], y as [[a' b'] c'], z as [[a2 b2] c2].
  rewrite <- !not_true_iff_false, !Mini_gtb_spec. lia.
Qed.

Lemma Mini_satisfies_parse (v r : string) :
  Mini.semverSatisfies v r = true -> exists x, Mini.parse v = Some x.
Proof.
  unfold Mini.semverSatisfies. destruct (Mini.parse v) as [x|]; [eauto|discriminate].
Qed.

Lemma Mini_semverOrder : SemverOrder Mini.semverSatisfies Mini.semverGt.
Proof.
  constructor.
  - intros v w r r' Hv Hw.
    apply Mini_satisfies_parse in Hv. apply Mini_satisfies_parse in Hw.
    destruct Hv as [x Hx], Hw as [y Hy]. unfold Mini.semverGt.
    rewrite Hx, Hy. discriminate.
  - intros v. unfold Mini.semverGt. destruct (Mini.parse v) as [x|]; [|discriminate].
    rewrite Mini_gtb_irrefl. discriminate.
  - intros a b c. unfold Mini.semverGt.
    destruct (Mini.parse a) as [x|], (Mini.parse b) as [y|], (Mini.parse c) as [z|];
      try discriminate.
    intros H1 H2. injection H1 as H1. injection H2 as H2.
    rewrite (Mini_gtb_trans x y z H1 H2). reflexivity.
  - intros a b c. unfold Mini.semverGt.
    destruct (Mini.parse a) as [x|], (Mini.parse b) as [y|], (Mini.parse c) as [z|];
      try discriminate.
    intros H1 H2. injection H1 as H1. injection H2 as H2.
    rewrite (Mini_gtb_negtrans x y z H1 H2). reflexivity.
Qed.

(** The first character of a version is a digit. *)
Lemma Mini_parse_head (c : ascii) (rest : string) :
  Mini.parse (String c rest) <> None -> Mini.digit c <> None.
Proof.
  unfold Mini.parse. simpl Mini.splitOn.
  destruct (Ascii.eqb c ".") eqn:Ec.
  - intros H F. apply H.
    destruct (Mini.splitOn "." rest) as [|a [|b [|x l]]]; reflexivity.
  - intros H F. apply H.
    assert (forall first, Mini.numeric (String c first) = None) as Hn.
    { intros first. unfold Mini.numeric.
      destruct (Ascii.eqb c "0" && negb (String.eqb first EmptyString));
        [reflexivity|]. simpl. rewrite F. reflexivity. }
    destruct (Mini.splitOn "." rest) as [|first [|b [|x [|y l]]]];
      try reflexivity.
    rewrite Hn. reflexivity.
Qed.

Lemma Mini_letter_not_digit (c : ascii) :
  Mini.isLetter c = true -> Mini.digit c = None.
Proof.
  unfold Mini.isLetter, Mini.digit. cbv zeta.
  destruct ((48 <=? N_of_ascii c) && (N_of_ascii c <=? 57))%N eqn:E; [|reflexivity].
  intros H. exfalso.
  apply andb_true_iff in E. destruct E as [E1 E2].
  apply N.leb_le in E1, E2.
  apply orb_true_iff in H. destruct H as [H|H];
    apply andb_true_iff in H; destruct H as [H1 H2];
    apply N.leb_le in H1, H2; lia.
Qed.

(** The small host keeps the laws of semver's ranges. *)
Lemma Mini_semverRanges :
  SemverRanges Mini.validRange Mini.isExactVersion Mini.isReference.
Proof.
  split.
  - intros r H. unfold Mini.isExactVersion in H.
    destruct r as [|c rest]; [discriminate|].
    unfold Mini.validRange. destruct (Ascii.eqb c "^") eqn:Ec.
    + apply Ascii.eqb_eq in Ec. subst c. exfalso.
      apply (@Mini_parse_head "^" rest); [|reflexivity].
      destruct (Mini.parse (String "^" rest)); [discriminate|discriminate].
    + unfold Mini.isExactVersion. exact H.
  - intros r H. destruct r as [|c rest]; [discriminate|]. simpl in H.
    unfold Mini.validRange.
    destruct (Ascii.eqb c "^") eqn:Ec.
    + apply Ascii.eqb_eq in Ec. subst c. discriminate.
    + unfold Mini.isExactVersion.
      destruct (Mini.parse (String c rest)) eqn:Ep; [|reflexivity].
      exfalso. apply (@Mini_parse_head c rest); [rewrite Ep; discriminate|].
      apply Mini_letter_not_digit. exact H.
Qed.

(** ** The command, entry by entry *)

Section Entry.

Variable validRange : string -> bool.
Variable semverSatisfies : string -> string -> bool.
Variable semverGt : string -> string -> option bool.
Variable isVirtualLocator : Package -> bool.
Variable devirtualizeLocator : Package -> LocatorHash.

Local Abbreviation pinTo' :=
  (pinTo semverSatisfies semverGt isVirtualLocator devirtualizeLocator).
Local Abbreviation processDependency' :=
  (processDependency validRange semverSatisfies semverGt isVirtualLocator
     devirtualizeLocator).
Local Abbreviation candidates' :=
  (candidates semverSatisfies semverGt isVirtualLocator devirtualizeLocator).

(** An entry that gets past the two filters is handed to the selection,
    and what the selection returns is planned. *)
Lemma processDependency_selects (o : Options) (proj : Project)
  (index : JsMap.t JsSet.t) (k : IdentHash) (dependency : Descriptor)
  (r workspaceCwd : string) (st : DepState) :
  range dependency = Some r ->
  (needsPin validRange r || explicitlyIncluded o dependency) = true ->
  omitted o (depRef dependency) = false ->
  processDependency' o proj index k dependency workspaceCwd st =
  bind (pinTo' proj index (explicitlyIncluded o dependency) k r (depRef dependency)
          workspaceCwd)
    (planPin o (explicitlyIncluded o dependency) k r (depRef dependency) workspaceCwd)
    (if needsPin validRange r then st
     else setDsLog (logVerboseInfo o workspaceCwd ("Include: " ++ depRef dependency)) st).
Proof.
  intros Hr Hreach Homit. unfold processDependency.
  fold (depRef dependency). rewrite Hr.
  destruct (needsPin validRange r) eqn:En; simpl in Hreach.
  - cbv [bind ret negb andb]. rewrite Homit. reflexivity.
  - rewrite Hreach. cbv [bind modify negb andb]. rewrite Homit. reflexivity.
Qed.

(** The selection for an identity with exactly one locator. *)
Lemma pinTo_single (proj : Project) (index : JsMap.t JsSet.t) (e : bool)
  (k : IdentHash) (r ref workspaceCwd : string) (h : LocatorHash) (st : DepState) :
  JsMap.get k index = Some [h] ->
  pinTo' proj index e k r ref workspaceCwd st =
  (st, Normal (JsMap.get h (storedPackages proj))).
Proof.
  intros Hk. unfold pinTo. rewrite Hk. reflexivity.
Qed.

(** Planning a target never throws; it writes the plan unless the range
    is the target's version already. *)
Lemma planPin_target (o : Options) (e : bool) (k : IdentHash)
  (r ref workspaceCwd : string) (p : Package) (st : DepState) :
  exists st',
    planPin o e k r ref workspaceCwd (Some p) st = (st', Normal tt) /\
    pinnableInWorkspace st' =
      (if jsstr_eqb (version p) (Some r) then pinnableInWorkspace st
       else JsMap.set k p (pinnableInWorkspace st)) /\
    reportablePinsInWorkspace st' =
      (if jsstr_eqb (version p) (Some r) then reportablePinsInWorkspace st
       else JsMap.set ref (version p) (reportablePinsInWorkspace st)).
Proof.
  unfold planPin. destruct (jsstr_eqb (version p) (Some r)).
  - destruct e; eexists; repeat split.
  - eexists; repeat split.
Qed.

(** C7. A dependency entry whose identity has exactly one resolved
    locator in the index is pinned to the package stored for that
    locator, and no test of the range against its version is made: the
    selection returns that package whatever [semverSatisfies] answers,
    and the entry is planned to it (or reported as already pinned when
    its range is that version). *)
Theorem C7_single_candidate_is_target (o : Options) (proj : Project)
  (index : JsMap.t JsSet.t) (k : IdentHash) (dependency : Descriptor)
  (r workspaceCwd : string) (h : LocatorHash) (p : Package) (st : DepState) :
  range dependency = Some r ->
  (needsPin validRange r || explicitlyIncluded o dependency) = true ->
  omitted o (depRef dependency) = false ->
  JsMap.get k index = Some [h] ->
  JsMap.get h (storedPackages proj) = Some p ->
  (forall st0,
     pinTo' proj index (explicitlyIncluded o dependency) k r (depRef dependency)
       workspaceCwd st0 = (st0, Normal (Some p))) /\
  exists st',
    processDependency' o proj index k dependency workspaceCwd st = (st', Normal tt) /\
    pinnableInWorkspace st' =
      (if jsstr_eqb (version p) (Some r) then pinnableInWorkspace st
       else JsMap.set k p (pinnableInWorkspace st)) /\
    reportablePinsInWorkspace st' =
      (if jsstr_eqb (version p) (Some r) then reportablePinsInWorkspace st
       else JsMap.set (depRef dependency) (version p) (reportablePinsInWorkspace st)).
Proof.
  intros Hr Hreach Homit Hk Hp. split.
  - intros st0. rewrite (pinTo_single proj) with (h := h) by exact Hk.
    rewrite Hp. reflexivity.
  - rewrite (processDependency_selects o proj index k dependency workspaceCwd st
               Hr Hreach Homit).
    unfold bind. rewrite (pinTo_single proj) with (h := h) by exact Hk. rewrite Hp.
    destruct (needsPin validRange r).
    + apply planPin_target.
    + destruct (planPin_target o (explicitlyIncluded o dependency) k r
                  (depRef dependency) workspaceCwd p
                  (setDsLog (logVerboseInfo o workspaceCwd
                     ("Include: " ++ depRef dependency)) st))
        as (st' & E & H1 & H2).
      exists st'. repeat split; assumption.
Qed.

(** C6 (amended). [needsPin] answers what [validRange] answers about the
    range.  A protocol or tag reference is not a valid range, so
    [needsPin] holds exactly of the valid ranges that are no such
    reference; but an exact version is a valid range, so [needsPin]
    holds of every exact version as well, and an entry with an exact
    version that [--only] does not leave out is not skipped: it is handed
    to the selection.  An entry without a scope for which [needsPin]
    answers no, and which no [--also] or [--only] reference includes, is
    skipped: the call returns with both plan maps as they were and at
    most a verbose "Skip" line in the report. *)
Theorem C6_needsPin_is_validRange (isExactVersion isReference : string -> bool)
  (o : Options) (proj : Project)
  (index : JsMap.t JsSet.t) (k : IdentHash) (dependency : Descriptor)
  (r workspaceCwd : string) (st : DepState) :
  SemverRanges validRange isExactVersion isReference ->
  (needsPin validRange r = true <-> validRange r = true /\ isReference r = false) /\
  (isExactVersion r = true ->
   needsPin validRange r = true /\
   (range dependency = Some r ->
    omitted o (depRef dependency) = false ->
    processDependency' o proj index k dependency workspaceCwd st =
    bind (pinTo' proj index (explicitlyIncluded o dependency) k r (depRef dependency)
            workspaceCwd)
      (planPin o (explicitlyIncluded o dependency) k r (depRef dependency) workspaceCwd)
      st)) /\
  (range dependency = Some r ->
   scope dependency = None ->
   needsPin validRange r = false ->
   isDependencyExplicitlyIncluded o (scope dependency) (name dependency)
     (range dependency) = false ->
   processDependency' o proj index k dependency workspaceCwd st =
   (mkDepState
      (logVerboseWarning o workspaceCwd ("Skip: " ++ depRef dependency) (ds_log st))
      (pinnableInWorkspace st) (reportablePinsInWorkspace st),
    Normal tt)).
Proof.
  intros [Hexact Href].
  assert (needsPin validRange r = validRange r) as Hnp
    by (unfold needsPin; destruct (validRange r); reflexivity).
  split; [|split].
  - rewrite Hnp. split.
    + intros Hv. split; [exact Hv|].
      destruct (isReference r) eqn:E; [|reflexivity].
      rewrite (Href r E) in Hv. discriminate.
    + intros [Hv _]. exact Hv.
  - intros He. assert (needsPin validRange r = true) as Hn
      by (rewrite Hnp; apply Hexact; exact He).
    split; [exact Hn|]. intros Hr Hom.
    rewrite processDependency_selects with (r := r); try assumption.
    + rewrite Hn. reflexivity.
    + rewrite Hn. reflexivity.
  - intros Hr Hs Hn He. rewrite Hs in He. unfold processDependency.
    fold (depRef dependency). unfold explicitlyIncluded. rewrite Hr, Hn.
    rewrite Hr in He. rewrite He. reflexivity.
Qed.

End Entry.

Lemma C7_witness :
  Mini.semverSatisfies "3.0.0" "^2.0.0" = false /\
  ((forall st0,
      pinTo Mini.semverSatisfies Mini.semverGt Mini.isVirtualLocator
        Mini.devirtualizeLocator singleProject [("lib", ["L3"])]
        (explicitlyIncluded noOptions lib20) "lib" "^2.0.0" (depRef lib20) "/A" st0 =
      (st0, Normal (Some (pkg "L3" "3.0.0")))) /\
   exists st',
     Mini.processDependency noOptions singleProject [("lib", ["L3"])] "lib" lib20 "/A"
       emptyDepState = (st', Normal tt) /\
     pinnableInWorkspace st' =
       (if jsstr_eqb (version (pkg "L3" "3.0.0")) (Some "^2.0.0")
        then pinnableInWorkspace emptyDepState
        else JsMap.set "lib" (pkg "L3" "3.0.0") (pinnableInWorkspace emptyDepState)) /\
     reportablePinsInWorkspace st' =
       (if jsstr_eqb (version (pkg "L3" "3.0.0")) (Some "^2.0.0")
        then reportablePinsInWorkspace emptyDepState
        else JsMap.set (depRef lib20) (version (pkg "L3" "3.0.0"))
               (reportablePinsInWorkspace emptyDepState))).
Proof.
  split; [reflexivity|].
  apply (@C7_single_candidate_is_target Mini.validRange Mini.semverSatisfies
           Mini.semverGt Mini.isVirtualLocator Mini.devirtualizeLocator
           noOptions singleProject [("lib", ["L3"])] "lib" lib20 "^2.0.0" "/A" "L3"
           (pkg "L3" "3.0.0") emptyDepState); reflexivity.
Defined.

Lemma C6_witness :
  ((needsPin Mini.validRange "canary" = true <->
    Mini.validRange "canary" = true /\ Mini.isReference "canary" = false) /\
   Mini.processDependency noOptions singleProject [] "next" canaryDep "/A" emptyDepState =
   (emptyDepState, Normal tt)) /\
  (needsPin Mini.validRange "1.2.3" = true /\
   Mini.processDependency noOptions singleProject [("lib", ["L3"])] "lib"
     (dep "lib" None "lib" "1.2.3") "/A" emptyDepState =
   bind (pinTo Mini.semverSatisfies Mini.semverGt Mini.isVirtualLocator
           Mini.devirtualizeLocator singleProject [("lib", ["L3"])] false "lib" "1.2.3"
           "lib:1.2.3" "/A")
     (planPin noOptions false "lib" "1.2.3" "lib:1.2.3" "/A") emptyDepState).
Proof.
  split.
  - destruct (@C6_needsPin_is_validRange Mini.validRange Mini.semverSatisfies
                Mini.semverGt Mini.isVirtualLocator Mini.devirtualizeLocator
                Mini.isExactVersion Mini.isReference
                noOptions singleProject [] "next" canaryDep "canary" "/A" emptyDepState
                Mini_semverRanges)
      as (H1 & _ & H3).
    split; [exact H1|].
    exact (H3 eq_refl eq_refl eq_refl eq_refl).
  - destruct (@C6_needsPin_is_validRange Mini.validRange Mini.semverSatisfies
                Mini.semverGt Mini.isVirtualLocator Mini.devirtualizeLocator
                Mini.isExactVersion Mini.isReference
                noOptions singleProject [("lib", ["L3"])] "lib"
                (dep "lib" None "lib" "1.2.3") "1.2.3" "/A" emptyDepState
                Mini_semverRanges)
      as (_ & H2 & _).
    destruct (H2 eq_refl) as [Hn Hsel].
    split; [exact Hn|].
    exact (Hsel eq_refl eq_refl).
Defined.

(** An exact version is a valid range, so [needsPin] holds of it, as of
    "1.2.3", and the entry is not skipped: with [lib] resolved to 3.0.0
    only, the entry [lib:1.2.3] is planned to 3.0.0. *)
Lemma C6_counterexample :
  Mini.isExactVersion "1.2.3" = true /\
  Mini.isReference "1.2.3" = false /\
  needsPin Mini.validRange "1.2.3" = true /\
  explicitlyIncluded noOptions (dep "lib" None "lib" "1.2.3") = false /\
  pinnableInWorkspace
    (fst (Mini.processDependency noOptions singleProject [("lib", ["L3"])] "lib"
            (dep "lib" None "lib" "1.2.3") "/A" emptyDepState))
  = [("lib", pkg "L3" "3.0.0")].
Proof. repeat split. Qed.

(** What the call of the matcher in [processDependency] accepts: a filter
    that spells the name and the range without the scope, or the range
    alone. *)
Lemma referencesPackage_unscoped (f nm : string) (rg : jsstr) :
  referencesPackage f None nm rg = true <->
  f = nm ++ ":" ++ str_of rg \/ f = ":" ++ str_of rg \/ f = "*:" ++ str_of rg.
Proof.
  unfold referencesPackage, pRef, includes. simpl.
  rewrite !orb_true_iff, !String.eqb_eq. unfold identity.
  split.
  - intros [H|[H|[H|H]]]; auto. discriminate.
  - intros [H|[H|H]]; auto.
Qed.

Lemma explicitlyIncluded_iff (o : Options) (dependency : Descriptor) :
  explicitlyIncluded o dependency = true <->
  exists f,
    (In f (match alsoIncludePackages o with Some l => l | None => [] end) \/
     In f (match onlyPackages o with Some l => l | None => [] end)) /\
    (f = name dependency ++ ":" ++ str_of (range dependency) \/
     f = ":" ++ str_of (range dependency) \/
     f = "*:" ++ str_of (range dependency)).
Proof.
  unfold explicitlyIncluded, isDependencyExplicitlyIncluded.
  rewrite orb_true_iff, !existsb_exists. split.
  - intros [(f & Hin & Hf)|(f & Hin & Hf)]; apply referencesPackage_unscoped in Hf;
      exists f; auto.
  - intros (f & [Hin|Hin] & Hf); apply referencesPackage_unscoped in Hf;
      [left|right]; exists f; auto.
Qed.

(** C8 (code defect). [processDependency] calls the matcher with the name
    and the range only, so the reference it matches against has lost the
    scope: the filter [@acme/lib:canary] does not include the dependency
    [@acme/lib:canary], which the matcher accepts when it is given the
    scope, and the filter [lib:canary] does include it.  The entry, whose
    range is no semver range, is then skipped without a plan entry. *)
Theorem C8_scope_dropped_from_match :
  depRef scopedCanary = "@acme/lib:canary" /\
  isDependencyExplicitlyIncluded alsoScoped (scope scopedCanary) (name scopedCanary)
    (range scopedCanary) = true /\
  explicitlyIncluded alsoScoped scopedCanary = false /\
  explicitlyIncluded alsoUnscoped scopedCanary = true /\
  Mini.processDependency alsoScoped singleProject [("acme-lib", ["L3"])] "acme-lib"
    scopedCanary "/A" emptyDepState = (emptyDepState, Normal tt).
Proof. repeat split; reflexivity. Qed.

(** ** The resolution index *)

Lemma index_step (key value : string) (acc : JsMap.t JsSet.t) (k h : string) :
  (exists s,
     JsMap.get k
       (match JsMap.get key acc with
        | None => JsMap.set key [value] acc
        | Some locators => JsMap.set key (JsSet.add value locators) acc
        end) = Some s /\ In h s) <->
  (exists s, JsMap.get k acc = Some s /\ In h s) \/ (k = key /\ h = value).
Proof.
  destruct (string_dec key k) as [->|Hne].
  - destruct (JsMap.get k acc) as [locators|] eqn:E.
    + rewrite JsMap_get_set_same. split.
      * intros (s & Hs & Hin). injection Hs as <-. apply JsSet_add_In in Hin.
        destruct Hin as [->|Hin]; [right; auto|left; eauto].
      * intros [(s & Hs & Hin)|[_ ->]].
        -- injection Hs as <-. eexists. split; [reflexivity|].
           apply JsSet_add_In. auto.
        -- eexists. split; [reflexivity|]. apply JsSet_add_In. auto.
    + rewrite JsMap_get_set_same. split.
      * intros (s & Hs & Hin). injection Hs as <-. destruct Hin as [<-|[]]. right; auto.
      * intros [(s & Hs & Hin)|[_ ->]]; [discriminate|].
        eexists. split; [reflexivity|]. left; reflexivity.
  - assert (JsMap.get k
              (match JsMap.get key acc with
               | None => JsMap.set key [value] acc
               | Some locators => JsMap.set key (JsSet.add value locators) acc
               end) = JsMap.get k acc) as ->.
    { destruct (JsMap.get key acc); apply JsMap_get_set_other; exact Hne. }
    split; [auto|]. intros [H|[-> _]]; [exact H|congruence].
Qed.

Lemma indexResolutions_spec (sd : JsMap.t Descriptor)
  (res : list (DescriptorHash * LocatorHash)) :
  forall acc index, indexResolutions sd res acc = Normal index ->
  forall k h,
    (exists s, JsMap.get k index = Some s /\ In h s) <->
    (exists s, JsMap.get k acc = Some s /\ In h s) \/
    (exists dh d, In (dh, h) res /\ JsMap.get dh sd = Some d /\ identHash d = k).
Proof.
  induction res as [|[dh value] res IH]; intros acc index H k h; simpl in H.
  - injection H as <-. split; [auto|]. intros [H|(dh & d & [] & _)]. exact H.
  - destruct (JsMap.get dh sd) as [descriptor|] eqn:E; [|discriminate].
    rewrite (IH _ _ H k h). rewrite index_step. split.
    + intros [[Hacc|[-> ->]]|(dh' & d & Hin & Hd & Hk)].
      * left. exact Hacc.
      * right. exists dh, descriptor. repeat split; auto. left; reflexivity.
      * right. exists dh', d. repeat split; auto. right; exact Hin.
    + intros [Hacc|(dh' & d & [Heq|Hin] & Hd & Hk)].
      * left. left. exact Hacc.
      * injection Heq as -> ->. left. right. split; congruence.
      * right. exists dh', d. repeat split; auto.
Qed.

Lemma mapC_In (A B : Type) (f : A -> completion B) (l : list A) :
  forall ys, mapC f l = Normal ys ->
  forall y, In y ys -> exists x, In x l /\ f x = Normal y.
Proof.
  induction l as [|x l IH]; intros ys H y Hy; simpl in H.
  - injection H as <-. destruct Hy.
  - destruct (f x) as [y0|] eqn:E; simpl in H; [|discriminate].
    destruct (mapC f l) as [ys0|] eqn:E'; simpl in H; [|discriminate].
    injection H as <-. destruct Hy as [<-|Hy].
    + exists x. split; [left; reflexivity|exact E].
    + destruct (IH ys0 eq_refl y Hy) as (x' & Hx & Hf).
      exists x'. split; [right; exact Hx|exact Hf].
Qed.

Lemma mapC_In_conv (A B : Type) (f : A -> completion B) (l : list A) :
  forall ys, mapC f l = Normal ys ->
  forall x y, In x l -> f x = Normal y -> In y ys.
Proof.
  induction l as [|x0 l IH]; intros ys H x y Hx Hf; simpl in H; [destruct Hx|].
  destruct (f x0) as [y0|] eqn:E; simpl in H; [|discriminate].
  destruct (mapC f l) as [ys0|] eqn:E'; simpl in H; [|discriminate].
  injection H as <-. destruct Hx as [->|Hx].
  - left. congruence.
  - right. apply (IH ys0 eq_refl x y Hx Hf).
Qed.

Section Candidates.

Variable semverSatisfies : string -> string -> bool.
Variable semverGt : string -> string -> option bool.
Variable isVirtualLocator : Package -> bool.
Variable devirtualizeLocator : Package -> LocatorHash.
Variable proj : Project.

Local Abbreviation candidates' :=
  (candidates semverSatisfies semverGt isVirtualLocator devirtualizeLocator proj).
Local Abbreviation sourcePackage' :=
  (sourcePackage isVirtualLocator devirtualizeLocator proj).

(** The packages that pass the filter. *)
Lemma survivors_In (e : bool) (r : string) (sps : list (option Package))
  (c : Package) :
  In c (survivors semverSatisfies e r sps) <->
  In (Some c) sps /\ keepCandidate semverSatisfies e r (Some c) = true.
Proof.
  unfold survivors. rewrite in_flat_map. split.
  - intros ([p|] & Hin & Hc); [|destruct Hc].
    destruct Hc as [<-|[]]. apply filter_In in Hin. exact Hin.
  - intros [Hin Hk]. exists (Some c). split; [|left; reflexivity].
    apply filter_In. split; assumption.
Qed.

(** A candidate is the stored package of one of the locators, or, for a
    virtual one, the stored package of its source locator. *)
Lemma sourcePackage_devirtualized (h : LocatorHash) (c : Package) :
  sourcePackage' h = Normal (Some c) ->
  exists p,
    JsMap.get h (storedPackages proj) = Some p /\
    (if isVirtualLocator p
     then JsMap.get (devirtualizeLocator p) (storedPackages proj) = Some c
     else c = p).
Proof.
  unfold sourcePackage. destruct (JsMap.get h (storedPackages proj)) as [p|];
    [|discriminate].
  intros H. exists p. split; [reflexivity|].
  destruct (isVirtualLocator p); congruence.
Qed.

Lemma candidates_inv (e : bool) (r : string) (hashes : JsSet.t) (cs : list Package) :
  candidates' e r hashes = Normal cs ->
  exists sps,
    mapC sourcePackage' hashes = Normal sps /\
    Array_sort (compareCandidates semverGt e) (survivors semverSatisfies e r sps)
    = Normal cs.
Proof.
  unfold candidates. destruct (mapC sourcePackage' hashes) as [sps|]; [|discriminate].
  simpl. eauto.
Qed.

Lemma candidates_devirtualized (e : bool) (r : string) (hashes : JsSet.t)
  (cs : list Package) :
  candidates' e r hashes = Normal cs ->
  forall c, In c cs ->
  exists h p,
    In h hashes /\ JsMap.get h (storedPackages proj) = Some p /\
    (if isVirtualLocator p
     then JsMap.get (devirtualizeLocator p) (storedPackages proj) = Some c
     else c = p).
Proof.
  intros H c Hc. apply candidates_inv in H. destruct H as (sps & Hm & Hs).
  apply Array_sort_perm in Hs.
  apply Permutation_sym in Hs. apply (Permutation_in _ Hs) in Hc.
  apply survivors_In in Hc. destruct Hc as [Hin _].
  destruct (mapC_In _ _ Hm _ Hin) as (h & Hh & Hsp).
  apply sourcePackage_devirtualized in Hsp. destruct Hsp as (p & Hp & Hv).
  exists h, p. auto.
Qed.

(** What the selection does with a locator that has a stored package. *)
Lemma sourcePackage_stored (h : LocatorHash) (p x : Package) :
  JsMap.get h (storedPackages proj) = Some p ->
  (if isVirtualLocator p
   then JsMap.get (devirtualizeLocator p) (storedPackages proj) = Some x
   else x = p) ->
  sourcePackage' h = Normal (Some x).
Proof.
  intros Hp Hv. unfold sourcePackage. rewrite Hp.
  destruct (isVirtualLocator p); congruence.
Qed.

(** C9 (amended). The index holds the resolved locators as they are
    stored, virtual ones included: a locator is indexed under an
    identity exactly when some stored resolution leads to it from a
    descriptor of that identity.  The underlying package of a virtual
    locator is substituted later, when the candidates of an identity
    with several locators are collected: the candidates are exactly the
    packages that pass the filter and are the stored package of an
    indexed locator that is not virtual, or the stored package of the
    source locator of an indexed locator that is virtual. *)
Theorem C9_index_holds_locators_as_resolved (c c' : Command) (e : bool)
  (r : string) (hashes : JsSet.t) (cs : list Package) :
  createLocatorsByIdentMap proj c = (c', Normal tt) ->
  candidates' e r hashes = Normal cs ->
  (forall k h,
     (exists s, JsMap.get k (locatorsByIdent c') = Some s /\ In h s) <->
     (exists dh d,
        In (dh, h) (storedResolutions proj) /\
        JsMap.get dh (storedDescriptors proj) = Some d /\ identHash d = k)) /\
  (forall x,
     In x cs <->
     (exists h p,
        In h hashes /\ JsMap.get h (storedPackages proj) = Some p /\
        (if isVirtualLocator p
         then JsMap.get (devirtualizeLocator p) (storedPackages proj) = Some x
         else x = p)) /\
     keepCandidate semverSatisfies e r (Some x) = true).
Proof.
  intros Hc Hcs. split.
  - unfold createLocatorsByIdentMap in Hc.
    destruct (indexResolutions (storedDescriptors proj) (storedResolutions proj)
                JsMap.empty) as [index|] eqn:E; [|discriminate].
    injection Hc as <-. simpl. intros k h.
    rewrite (indexResolutions_spec _ _ _ E k h). split.
    + intros [(s & Hs & _)|H]; [discriminate|exact H].
    + auto.
  - intros x. apply candidates_inv in Hcs. destruct Hcs as (sps & Hm & Hs).
    apply Array_sort_perm in Hs. split.
    + intros Hx. apply Permutation_sym in Hs. apply (Permutation_in _ Hs) in Hx.
      apply survivors_In in Hx. destruct Hx as [Hin Hk]. split; [|exact Hk].
      destruct (mapC_In _ _ Hm _ Hin) as (h & Hh & Hsp).
      apply sourcePackage_devirtualized in Hsp. destruct Hsp as (p & Hp & Hv).
      exists h, p. auto.
    + intros [(h & p & Hh & Hp & Hv) Hk].
      apply (Permutation_in _ Hs). apply survivors_In. split; [|exact Hk].
      eapply mapC_In_conv; [exact Hm|exact Hh|].
      eapply sourcePackage_stored; eassumption.
Qed.

End Candidates.

Lemma C9_witness :
  (forall k h,
     (exists s, JsMap.get k [("lib", ["virtual:ctx#L1"; "L2"])] = Some s /\ In h s) <->
     (exists dh d,
        In (dh, h) (storedResolutions virtualProject) /\
        JsMap.get dh (storedDescriptors virtualProject) = Some d /\ identHash d = k)) /\
  (forall x,
     In x [pkg "L2" "1.1.0"; pkg "L1" "1.0.0"] <->
     (exists h p,
        In h ["virtual:ctx#L1"; "L2"] /\
        JsMap.get h (storedPackages virtualProject) = Some p /\
        (if Mini.isVirtualLocator p
         then JsMap.get (Mini.devirtualizeLocator p) (storedPackages virtualProject)
              = Some x
         else x = p)) /\
     keepCandidate Mini.semverSatisfies false "^1.0.0" (Some x) = true).
Proof.
  apply (@C9_index_holds_locators_as_resolved Mini.semverSatisfies Mini.semverGt
           Mini.isVirtualLocator Mini.devirtualizeLocator virtualProject
           (newCommand []) (indexed [("lib", ["virtual:ctx#L1"; "L2"])])
           false "^1.0.0" ["virtual:ctx#L1"; "L2"]); reflexivity.
Defined.

(** The index of a project that resolves [lib] to a virtual locator holds
    that virtual locator, not the locator [L1] under it. *)
Lemma C9_counterexample :
  exists c',
    createLocatorsByIdentMap virtualProject (newCommand []) = (c', Normal tt) /\
    JsMap.get "lib" (locatorsByIdent c') = Some ["virtual:ctx#L1"; "L2"] /\
    JsMap.get "virtual:ctx#L1" (storedPackages virtualProject) = Some virtualL1 /\
    Mini.isVirtualLocator virtualL1 = true /\
    Mini.devirtualizeLocator virtualL1 = "L1" /\
    ~ In "L1" ["virtual:ctx#L1"; "L2"].
Proof.
  eexists. repeat split.
  intros [H|[H|[]]]; discriminate.
Qed.

(** ** Dry runs *)

Lemma keepsDisk_bind (A B : Type) (m : M Command A) (k : A -> M Command B) :
  keepsDisk m -> (forall a, keepsDisk (k a)) -> keepsDisk (bind m k).
Proof.
  intros Hm Hk c. unfold bind. specialize (Hm c).
  destruct (m c) as [c1 [a|e]]; simpl in *.
  - rewrite Hk. exact Hm.
  - exact Hm.
Qed.

Lemma keepsDisk_ret (A : Type) (a : A) : keepsDisk (ret a).
Proof. intros c. reflexivity. Qed.

Lemma keepsDisk_throw (A : Type) (e : string) : keepsDisk (@throw Command A e).
Proof. intros c. reflexivity. Qed.

Lemma keepsDisk_gets (A : Type) (f : Command -> A) : keepsDisk (gets f).
Proof. intros c. reflexivity. Qed.

Lemma keepsDisk_modify (f : Command -> Command) :
  (forall c, disk (f c) = disk c) -> keepsDisk (modify f).
Proof. intros H c. apply H. Qed.

Lemma keepsDisk_forEach (A : Type) (l : list A) (body : A -> M Command unit) :
  (forall x, keepsDisk (body x)) -> keepsDisk (forEach l body).
Proof.
  intros H. induction l as [|x l IH]; simpl.
  - apply keepsDisk_ret.
  - apply keepsDisk_bind; auto.
Qed.

Lemma keepsDisk_filterM (A : Type) (l : list A) (f : A -> M Command bool) :
  (forall x, keepsDisk (f x)) -> keepsDisk (filterM f l).
Proof.
  intros H. induction l as [|x l IH]; simpl.
  - apply keepsDisk_ret.
  - apply keepsDisk_bind; auto. intros keep.
    apply keepsDisk_bind; auto. intros kept. apply keepsDisk_ret.
Qed.

Lemma gatherWorkspaces_keepsDisk (o : Options) (proj : Project) :
  keepsDisk (gatherWorkspaces o proj).
Proof.
  unfold gatherWorkspaces.
  destruct (match onlyWorkspaces o with
            | Some l => (length l =? 0)%nat
            | None => true
            end).
  - apply keepsDisk_modify. reflexivity.
  - apply keepsDisk_bind.
    + apply keepsDisk_filterM. intros w.
      destruct (manifest_name (manifest w)).
      * apply keepsDisk_bind.
        -- apply keepsDisk_modify. reflexivity.
        -- intros _. apply keepsDisk_ret.
      * apply keepsDisk_throw.
    + intros ws. apply keepsDisk_modify. reflexivity.
Qed.

Lemma createLocatorsByIdentMap_keepsDisk (proj : Project) :
  keepsDisk (createLocatorsByIdentMap proj).
Proof.
  intros c. unfold createLocatorsByIdentMap.
  destruct (indexResolutions (storedDescriptors proj) (storedResolutions proj) JsMap.empty);
    reflexivity.
Qed.

Section DryRun.

Variable validRange : string -> bool.
Variable semverSatisfies : string -> string -> bool.
Variable semverGt : string -> string -> option bool.
Variable isVirtualLocator : Package -> bool.
Variable devirtualizeLocator : Package -> LocatorHash.
Variable exportManifest : Manifest -> Manifest.
Variable proj : Project.

Local Abbreviation findPinnableDependencies' :=
  (findPinnableDependencies validRange semverSatisfies semverGt isVirtualLocator
     devirtualizeLocator).
Local Abbreviation execute' :=
  (execute validRange semverSatisfies semverGt isVirtualLocator devirtualizeLocator
     exportManifest).

Lemma findPinnableDependencies_keepsDisk (o : Options) :
  keepsDisk (findPinnableDependencies' o proj).
Proof.
  unfold findPinnableDependencies. apply keepsDisk_bind.
  - apply keepsDisk_modify. reflexivity.
  - intros _. apply keepsDisk_bind; [apply keepsDisk_gets|].
    intros ws. apply keepsDisk_forEach. intros w c. reflexivity.
Qed.

Lemma pinEntry_keepsPsDisk (path : string) (n : nat) (entry : IdentHash * Package) :
  keepsPsDisk (pinEntry path n entry).
Proof.
  intros s. unfold pinEntry.
  destruct (JsMap.get (fst entry) (dependencies (ps_manifest s))) as [d|];
    [|destruct (JsMap.get (fst entry) (devDependencies (ps_manifest s))) as [d|]];
    try reflexivity;
    destruct (jsstr_eqb (range d) (version (snd entry))); reflexivity.
Qed.

Lemma foldM_keepsPsDisk (A : Type) (body : nat -> A -> M PinState nat) (l : list A) :
  (forall n x, keepsPsDisk (body n x)) ->
  forall n, keepsPsDisk (foldM body n l).
Proof.
  intros H. induction l as [|x l IH]; intros n s; simpl.
  - reflexivity.
  - unfold bind. specialize (H n x s).
    destruct (body n x s) as [s1 [n1|e]]; simpl in *.
    + rewrite IH. exact H.
    + exact H.
Qed.

(** With [--dry], the loop over one workspace writes no file. *)
Lemma pinWorkspace_dry_keepsPsDisk (o : Options) (workspaceCwd : string)
  (needsPinning : option (JsMap.t Package)) :
  dryRun o = true -> keepsPsDisk (pinWorkspace exportManifest o workspaceCwd needsPinning).
Proof.
  intros Hdry s. unfold pinWorkspace. destruct needsPinning as [plan|]; [|reflexivity].
  unfold bind.
  pose proof (@foldM_keepsPsDisk _ (pinEntry (manifestPath workspaceCwd)) plan
                (pinEntry_keepsPsDisk (manifestPath workspaceCwd)) 0%nat s) as H.
  destruct (foldM (pinEntry (manifestPath workspaceCwd)) 0%nat plan s)
    as [s1 [n|e]]; simpl in *; [|exact H].
  rewrite Hdry. destruct (0 <? n)%nat; simpl; exact H.
Qed.

Lemma pinWorkspaces_dry_keepsDisk (o : Options) (todo : list Workspace) :
  dryRun o = true -> forall done, keepsDisk (pinWorkspaces exportManifest o done todo).
Proof.
  intros Hdry. induction todo as [|w todo IH]; intros done c; simpl.
  - reflexivity.
  - pose proof (pinWorkspace_dry_keepsPsDisk o (cwd w)
                  (JsMap.get (cwd w) (pinnableByWorkspaceCwd c)) Hdry
                  (mkPinState (log c) (manifest w) (disk c))) as H.
    destruct (pinWorkspace exportManifest o (cwd w) (JsMap.get (cwd w) (pinnableByWorkspaceCwd c))
                (mkPinState (log c) (manifest w) (disk c))) as [s1 [u|e]];
      simpl in *.
    + rewrite IH. simpl. exact H.
    + exact H.
Qed.

Lemma pinDependencies_dry_keepsDisk (o : Options) :
  dryRun o = true -> keepsDisk (pinDependencies exportManifest o).
Proof.
  intros Hdry. unfold pinDependencies. apply keepsDisk_bind.
  - apply keepsDisk_modify. reflexivity.
  - intros _. apply keepsDisk_bind; [apply keepsDisk_gets|].
    intros ws. apply pinWorkspaces_dry_keepsDisk. exact Hdry.
Qed.

(** Only the last step reads the [--dry] flag. *)
Lemma gatherWorkspaces_setDryRun (b : bool) (o : Options) :
  gatherWorkspaces (setDryRun b o) proj = gatherWorkspaces o proj.
Proof. destruct o. reflexivity. Qed.

Lemma findPinnableDependencies_setDryRun (b : bool) (o : Options) :
  findPinnableDependencies' (setDryRun b o) proj = findPinnableDependencies' o proj.
Proof. destruct o. reflexivity. Qed.

Lemma pinEntry_manifest (path : string) (n : nat) (entry : IdentHash * Package)
  (s1 s2 : PinState) :
  ps_manifest s1 = ps_manifest s2 ->
  ps_manifest (fst (pinEntry path n entry s1)) = ps_manifest (fst (pinEntry path n entry s2))
  /\ snd (pinEntry path n entry s1) = snd (pinEntry path n entry s2).
Proof.
  intros H. unfold pinEntry. rewrite <- H.
  destruct (JsMap.get (fst entry) (dependencies (ps_manifest s1))) as [d|];
    [|destruct (JsMap.get (fst entry) (devDependencies (ps_manifest s1))) as [d|]];
    try (split; reflexivity);
    destruct (jsstr_eqb (range d) (version (snd entry))); split; reflexivity.
Qed.

Lemma foldM_pinEntry_manifest (path : string) (plan : JsMap.t Package) :
  forall n s1 s2,
    ps_manifest s1 = ps_manifest s2 ->
    ps_manifest (fst (foldM (pinEntry path) n plan s1))
    = ps_manifest (fst (foldM (pinEntry path) n plan s2))
    /\ snd (foldM (pinEntry path) n plan s1) = snd (foldM (pinEntry path) n plan s2).
Proof.
  induction plan as [|entry plan IH]; intros n s1 s2 H; simpl.
  - split; [exact H|reflexivity].
  - unfold bind. destruct (pinEntry_manifest path n entry s1 s2 H) as [Hm Hc].
    destruct (pinEntry path n entry s1) as [s1' [n1|e1]],
             (pinEntry path n entry s2) as [s2' [n2|e2]]; simpl in *;
      try discriminate.
    + injection Hc as <-. apply IH. exact Hm.
    + split; [exact Hm|exact Hc].
Qed.

Lemma pinWorkspace_manifest (o1 o2 : Options) (workspaceCwd : string)
  (needsPinning : option (JsMap.t Package)) (s1 s2 : PinState) :
  ps_manifest s1 = ps_manifest s2 ->
  ps_manifest (fst (pinWorkspace exportManifest o1 workspaceCwd needsPinning s1))
  = ps_manifest (fst (pinWorkspace exportManifest o2 workspaceCwd needsPinning s2))
  /\ snd (pinWorkspace exportManifest o1 workspaceCwd needsPinning s1)
     = snd (pinWorkspace exportManifest o2 workspaceCwd needsPinning s2).
Proof.
  intros H. unfold pinWorkspace. destruct needsPinning as [plan|].
  - unfold bind.
    destruct (foldM_pinEntry_manifest (manifestPath workspaceCwd) plan 0%nat s1 s2 H)
      as [Hm Hc].
    destruct (foldM (pinEntry (manifestPath workspaceCwd)) 0%nat plan s1)
      as [s1' [n1|e1]],
      (foldM (pinEntry (manifestPath workspaceCwd)) 0%nat plan s2)
      as [s2' [n2|e2]]; simpl in *; try discriminate.
    + injection Hc as <-.
      destruct (0 <? n1)%nat; [|split; [exact Hm|reflexivity]].
      destruct (dryRun o1), (dryRun o2); simpl; split; auto.
    + split; [exact Hm|congruence].
  - split; [exact H|reflexivity].
Qed.

Lemma pinWorkspaces_sameMemory (o1 o2 : Options) (todo : list Workspace) :
  forall done c1 c2,
    sameMemory c1 c2 ->
    sameMemory (fst (pinWorkspaces exportManifest o1 done todo c1)) (fst (pinWorkspaces exportManifest o2 done todo c2))
    /\ snd (pinWorkspaces exportManifest o1 done todo c1) = snd (pinWorkspaces exportManifest o2 done todo c2).
Proof.
  induction todo as [|w todo IH]; intros done c1 c2 H; simpl.
  - split; [exact H|reflexivity].
  - destruct H as (HL & HW & HP & HR). rewrite <- HP.
    destruct (pinWorkspace_manifest o1 o2 (cwd w)
                (JsMap.get (cwd w) (pinnableByWorkspaceCwd c1))
                (mkPinState (log c1) (manifest w) (disk c1))
                (mkPinState (log c2) (manifest w) (disk c2)) eq_refl) as [Hm Hc].
    destruct (pinWorkspace exportManifest o1 (cwd w) (JsMap.get (cwd w) (pinnableByWorkspaceCwd c1))
                (mkPinState (log c1) (manifest w) (disk c1))) as [s1 [u1|e1]],
             (pinWorkspace exportManifest o2 (cwd w) (JsMap.get (cwd w) (pinnableByWorkspaceCwd c1))
                (mkPinState (log c2) (manifest w) (disk c2))) as [s2 [u2|e2]];
      simpl in *; try discriminate.
    + rewrite Hm. apply IH. repeat split; simpl; congruence.
    + split; [|exact Hc]. repeat split; simpl; congruence.
Qed.

Lemma pinDependencies_sameMemory (o1 o2 : Options) (c : Command) :
  sameMemory (fst (pinDependencies exportManifest o1 c)) (fst (pinDependencies exportManifest o2 c))
  /\ snd (pinDependencies exportManifest o1 c) = snd (pinDependencies exportManifest o2 c).
Proof.
  unfold pinDependencies, bind, modify, gets. simpl.
  apply pinWorkspaces_sameMemory. repeat split.
Qed.

Lemma sameMemory_refl (c : Command) : sameMemory c c.
Proof. repeat split. Qed.

Lemma sameReport_refl (r : Report) : sameReport r r.
Proof.
  split; [|reflexivity]. induction (entries r) as [|x l IH]; constructor; auto.
  left. reflexivity.
Qed.

Lemma sameReport_emit (a b : LogEntry) (r1 r2 : Report) :
  sameReport r1 r2 -> dryLine a b -> sameReport (emit a r1) (emit b r2).
Proof.
  intros [HF HW] Hab. split; [|exact HW]. unfold emit. simpl.
  apply Forall2_app; [exact HF|]. constructor; [exact Hab|constructor].
Qed.

Lemma sameReport_emit_same (a : LogEntry) (r1 r2 : Report) :
  sameReport r1 r2 -> sameReport (emit a r1) (emit a r2).
Proof. intros H. apply sameReport_emit; [exact H|left; reflexivity]. Qed.

Lemma pinEntry_report (path : string) (n : nat) (entry : IdentHash * Package)
  (s1 s2 : PinState) :
  ps_manifest s1 = ps_manifest s2 ->
  sameReport (ps_log s1) (ps_log s2) ->
  sameReport (ps_log (fst (pinEntry path n entry s1)))
    (ps_log (fst (pinEntry path n entry s2))).
Proof.
  intros H HR. unfold pinEntry. rewrite <- H.
  destruct (JsMap.get (fst entry) (dependencies (ps_manifest s1))) as [d|];
    [destruct (JsMap.get (fst entry) (devDependencies (ps_manifest s1))) as [d'|]
    |destruct (JsMap.get (fst entry) (devDependencies (ps_manifest s1))) as [d|]];
    try exact HR;
    destruct (jsstr_eqb (range d) (version (snd entry))); simpl;
    unfold reportInfo, reportWarning; repeat apply sameReport_emit_same; exact HR.
Qed.

Lemma foldM_pinEntry_report (path : string) (plan : JsMap.t Package) :
  forall n s1 s2,
    ps_manifest s1 = ps_manifest s2 ->
    sameReport (ps_log s1) (ps_log s2) ->
    sameReport (ps_log (fst (foldM (pinEntry path) n plan s1)))
      (ps_log (fst (foldM (pinEntry path) n plan s2))).
Proof.
  induction plan as [|entry plan IH]; intros n s1 s2 H HR; simpl.
  - exact HR.
  - unfold bind. destruct (pinEntry_manifest path n entry s1 s2 H) as [Hm Hc].
    pose proof (pinEntry_report path n entry s1 s2 H HR) as HR'.
    destruct (pinEntry path n entry s1) as [s1' [n1|e1]],
             (pinEntry path n entry s2) as [s2' [n2|e2]]; simpl in *;
      try discriminate.
    + injection Hc as <-. apply IH; assumption.
    + exact HR'.
Qed.

Lemma pinWorkspace_report (o1 o2 : Options) (workspaceCwd : string)
  (needsPinning : option (JsMap.t Package)) (s1 s2 : PinState) :
  dryRun o1 = true -> dryRun o2 = false ->
  ps_manifest s1 = ps_manifest s2 ->
  sameReport (ps_log s1) (ps_log s2) ->
  sameReport (ps_log (fst (pinWorkspace exportManifest o1 workspaceCwd needsPinning s1)))
    (ps_log (fst (pinWorkspace exportManifest o2 workspaceCwd needsPinning s2))).
Proof.
  intros Hd1 Hd2 H HR. unfold pinWorkspace. destruct needsPinning as [plan|];
    [|exact HR].
  unfold bind.
  destruct (foldM_pinEntry_manifest (manifestPath workspaceCwd) plan 0%nat s1 s2 H)
    as [Hm Hc].
  pose proof (foldM_pinEntry_report (manifestPath workspaceCwd) plan 0%nat s1 s2 H HR)
    as HR'.
  destruct (foldM (pinEntry (manifestPath workspaceCwd)) 0%nat plan s1)
    as [s1' [n1|e1]],
    (foldM (pinEntry (manifestPath workspaceCwd)) 0%nat plan s2)
    as [s2' [n2|e2]]; simpl in *; try discriminate; [|exact HR'].
  injection Hc as <-. rewrite Hd1, Hd2.
  destruct (0 <? n1)%nat; simpl; [|exact HR'].
  unfold reportInfo. apply sameReport_emit; [exact HR'|].
  right. exists n1, (manifestPath workspaceCwd). split; reflexivity.
Qed.

Lemma pinWorkspaces_report (o1 o2 : Options) (todo : list Workspace) :
  dryRun o1 = true -> dryRun o2 = false ->
  forall done c1 c2,
    sameMemory c1 c2 -> sameReport (log c1) (log c2) ->
    sameReport (log (fst (pinWorkspaces exportManifest o1 done todo c1)))
      (log (fst (pinWorkspaces exportManifest o2 done todo c2))).
Proof.
  intros Hd1 Hd2. induction todo as [|w todo IH]; intros done c1 c2 H HR; simpl.
  - exact HR.
  - destruct H as (HL & HW & HP & HRp). rewrite <- HP.
    destruct (pinWorkspace_manifest o1 o2 (cwd w)
                (JsMap.get (cwd w) (pinnableByWorkspaceCwd c1))
                (mkPinState (log c1) (manifest w) (disk c1))
                (mkPinState (log c2) (manifest w) (disk c2)) eq_refl) as [Hm Hc].
    pose proof (pinWorkspace_report o1 o2 (cwd w)
                  (JsMap.get (cwd w) (pinnableByWorkspaceCwd c1))
                  (mkPinState (log c1) (manifest w) (disk c1))
                  (mkPinState (log c2) (manifest w) (disk c2)) Hd1 Hd2 eq_refl HR)
      as HR'.
    destruct (pinWorkspace exportManifest o1 (cwd w) (JsMap.get (cwd w) (pinnableByWorkspaceCwd c1))
                (mkPinState (log c1) (manifest w) (disk c1))) as [s1 [u1|e1]],
             (pinWorkspace exportManifest o2 (cwd w) (JsMap.get (cwd w) (pinnableByWorkspaceCwd c1))
                (mkPinState (log c2) (manifest w) (disk c2))) as [s2 [u2|e2]];
      simpl in *; try discriminate.
    + rewrite Hm. apply IH; [|exact HR']. repeat split; simpl; congruence.
    + exact HR'.
Qed.

Lemma pinDependencies_report (o1 o2 : Options) (c : Command) :
  dryRun o1 = true -> dryRun o2 = false ->
  sameReport (log (fst (pinDependencies exportManifest o1 c))) (log (fst (pinDependencies exportManifest o2 c))).
Proof.
  intros Hd1 Hd2. unfold pinDependencies, bind, modify, gets. simpl.
  apply pinWorkspaces_report; auto.
  - repeat split.
  - apply sameReport_refl.
Qed.

(** A run with [--dry] against the run without it: the files are left
    alone, and index, plan, report map, manifests in memory, completion
    and report are the same, but for the closing line of each workspace. *)
Lemma dry_run_frame (o : Options) (c : Command) :
  dryRun o = true ->
  disk (fst (execute' o proj c)) = disk c /\
  sameMemory (fst (execute' o proj c)) (fst (execute' (setDryRun false o) proj c)) /\
  sameReport (log (fst (execute' o proj c)))
    (log (fst (execute' (setDryRun false o) proj c))) /\
  snd (execute' o proj c) = snd (execute' (setDryRun false o) proj c).
Proof.
  intros Hdry. split.
  - unfold execute.
    apply keepsDisk_bind; [apply gatherWorkspaces_keepsDisk|]. intros _.
    apply keepsDisk_bind; [apply createLocatorsByIdentMap_keepsDisk|]. intros _.
    apply keepsDisk_bind; [apply findPinnableDependencies_keepsDisk|]. intros _.
    apply pinDependencies_dry_keepsDisk. exact Hdry.
  - unfold execute.
    rewrite (gatherWorkspaces_setDryRun false o).
    rewrite (findPinnableDependencies_setDryRun false o).
    unfold bind.
    destruct (gatherWorkspaces o proj c) as [c1 [u1|e1]];
      [|split; [apply sameMemory_refl|split; [apply sameReport_refl|reflexivity]]].
    destruct (createLocatorsByIdentMap proj c1) as [c2 [u2|e2]];
      [|split; [apply sameMemory_refl|split; [apply sameReport_refl|reflexivity]]].
    destruct (findPinnableDependencies' o proj c2) as [c3 [u3|e3]];
      [|split; [apply sameMemory_refl|split; [apply sameReport_refl|reflexivity]]].
    destruct (pinDependencies_sameMemory o (setDryRun false o) c3) as [HM HC].
    split; [exact HM|]. split; [|exact HC].
    apply pinDependencies_report; [exact Hdry|reflexivity].
Qed.

End DryRun.


(** ** Several candidates *)

Section Several.

Variable validRange : string -> bool.
Variable semverSatisfies : string -> string -> bool.
Variable semverGt : string -> string -> option bool.
Variable isVirtualLocator : Package -> bool.
Variable devirtualizeLocator : Package -> LocatorHash.
Variable proj : Project.

Local Abbreviation candidates' :=
  (candidates semverSatisfies semverGt isVirtualLocator devirtualizeLocator proj).
Local Abbreviation sourcePackage' :=
  (sourcePackage isVirtualLocator devirtualizeLocator proj).
Local Abbreviation pinTo' :=
  (pinTo semverSatisfies semverGt isVirtualLocator devirtualizeLocator proj).
Local Abbreviation processDependency' :=
  (processDependency validRange semverSatisfies semverGt isVirtualLocator
     devirtualizeLocator).

Lemma semverMatch_Some (r r' : string) :
  semverMatch r = Some r' -> r' = r /\ hasLineTerminator r = false.
Proof.
  unfold semverMatch. destruct (hasLineTerminator r); [discriminate|].
  intros H. injection H as <-. auto.
Qed.

Lemma keepCandidate_not_explicit (r : string) (c : Package) :
  keepCandidate semverSatisfies false r (Some c) = true <->
  satisfying semverSatisfies r c /\ hasLineTerminator r = false.
Proof.
  unfold keepCandidate, satisfying, semverMatch. split.
  - destruct (version c) as [v|]; [|discriminate].
    destruct (hasLineTerminator r); [discriminate|]. eauto.
  - intros [(v & -> & Hs) ->]. exact Hs.
Qed.

Lemma keepCandidate_explicit (r : string) (c : Package) :
  keepCandidate semverSatisfies true r (Some c) = true <-> version c <> None.
Proof.
  unfold keepCandidate. destruct (version c); split; congruence.
Qed.

Lemma survivors_satisfying (r : string) (sps : list (option Package)) :
  Forall (satisfying semverSatisfies r) (survivors semverSatisfies false r sps).
Proof.
  apply Forall_forall. intros c Hc. apply survivors_In in Hc.
  destruct Hc as [_ Hk]. apply keepCandidate_not_explicit in Hk.
  destruct Hk as [Hk _]. exact Hk.
Qed.

Section Ordered.

Hypothesis laws : SemverOrder semverSatisfies semverGt.

Lemma compareCandidates_versionGt (r : string) (x y : Package) :
  satisfying semverSatisfies r x -> satisfying semverSatisfies r y ->
  exists z, compareCandidates semverGt false x y = Normal z /\
            (z <? 0)%Z = versionGt semverGt x y.
Proof.
  intros (vx & Hx & Sx) (vy & Hy & Sy).
  unfold compareCandidates, versionGt. rewrite Hx, Hy.
  pose proof (gt_defined laws _ _ _ _ Sx Sy) as Hd.
  destruct (semverGt vx vy) as [[|]|]; [| |congruence]; eexists; split; reflexivity.
Qed.

Lemma versionGt_false (r : string) (x y : Package) (vx vy : string) :
  version x = Some vx -> version y = Some vy ->
  semverSatisfies vx r = true -> semverSatisfies vy r = true ->
  versionGt semverGt x y = false <-> semverGt vx vy = Some false.
Proof.
  intros Hx Hy Sx Sy. unfold versionGt. rewrite Hx, Hy.
  pose proof (gt_defined laws _ _ _ _ Sx Sy) as Hd.
  destruct (semverGt vx vy) as [[|]|]; split; congruence.
Qed.

Lemma versionGt_asym (r : string) (x y : Package) :
  satisfying semverSatisfies r x -> satisfying semverSatisfies r y ->
  versionGt semverGt x y = true -> versionGt semverGt y x = false.
Proof.
  intros (vx & Hx & Sx) (vy & Hy & Sy). unfold versionGt. rewrite Hx, Hy.
  destruct (semverGt vx vy) as [[|]|] eqn:E; try discriminate. intros _.
  destruct (semverGt vy vx) as [[|]|] eqn:E'; try reflexivity.
  exfalso. apply (gt_irrefl laws vx). apply (gt_trans laws _ _ _ E E').
Qed.

Lemma versionGt_negtrans (r : string) (x y z : Package) :
  satisfying semverSatisfies r x -> satisfying semverSatisfies r y ->
  satisfying semverSatisfies r z ->
  versionGt semverGt x y = false -> versionGt semverGt y z = false ->
  versionGt semverGt x z = false.
Proof.
  intros (vx & Hx & Sx) (vy & Hy & Sy) (vz & Hz & Sz) H1 H2.
  rewrite (@versionGt_false r x y vx vy Hx Hy Sx Sy) in H1.
  rewrite (@versionGt_false r y z vy vz Hy Hz Sy Sz) in H2.
  rewrite (@versionGt_false r x z vx vz Hx Hz Sx Sz).
  apply (gt_negtrans laws _ _ _ H1 H2).
Qed.

(** For an entry that is not explicitly included, the candidates are
    the survivors of the range filter, highest version first. *)
Lemma candidates_sorted (r : string) (hashes : JsSet.t)
  (sps : list (option Package)) :
  mapC sourcePackage' hashes = Normal sps ->
  exists cs,
    candidates' false r hashes = Normal cs /\
    Permutation (survivors semverSatisfies false r sps) cs /\
    StronglySorted (fun a b => versionGt semverGt b a = false) cs.
Proof.
  intros Hm. unfold candidates. rewrite Hm. simpl cbind.
  apply Array_sort_sorted with (P := satisfying semverSatisfies r).
  - apply compareCandidates_versionGt.
  - apply versionGt_asym.
  - apply versionGt_negtrans.
  - apply survivors_satisfying.
Qed.

End Ordered.

(** For an explicitly included entry the comparator is constant and the
    candidates come out in reverse. *)
Lemma candidates_reversed (r : string) (hashes : JsSet.t)
  (sps : list (option Package)) :
  mapC sourcePackage' hashes = Normal sps ->
  candidates' true r hashes = Normal (rev (survivors semverSatisfies true r sps)).
Proof.
  intros Hm. unfold candidates. rewrite Hm. simpl cbind.
  apply Array_sort_negative. reflexivity.
Qed.

(** The selection for an identity with several locators. *)
Lemma pinTo_several (index : JsMap.t JsSet.t) (e : bool) (k : IdentHash)
  (r ref workspaceCwd : string) (hashes : JsSet.t) (cs : list Package)
  (st : DepState) :
  JsMap.get k index = Some hashes ->
  (1 < JsSet.size hashes)%nat ->
  candidates' e r hashes = Normal cs ->
  pinTo' index e k r ref workspaceCwd st =
  (if ((1 <? length cs) && (0 <? numDupes cs))%nat
   then setDsLog (reportWarningOnce
          (duplicateWarning ref (length cs) (numDupes cs) workspaceCwd)) st
   else st,
   match cs with
   | [] => Throw (typeError "candidates[0] is undefined")
   | c :: _ => Normal (JsMap.get (locatorHash c) (storedPackages proj))
   end).
Proof.
  intros Hk Hsize Hcs. unfold pinTo. rewrite Hk.
  apply Nat.ltb_lt in Hsize. rewrite Hsize.
  unfold bind, lift. rewrite Hcs.
  destruct (1 <? length cs)%nat, (0 <? numDupes cs)%nat; simpl;
    destruct cs; reflexivity.
Qed.

(** Under its own hash the store holds the candidate itself. *)
Lemma candidate_stored (e : bool) (r : string) (hashes : JsSet.t)
  (cs : list Package) (c : Package) :
  storeKeyed proj ->
  candidates' e r hashes = Normal cs -> In c cs ->
  JsMap.get (locatorHash c) (storedPackages proj) = Some c.
Proof.
  intros Hkeyed Hcs Hc.
  destruct (@candidates_devirtualized semverSatisfies semverGt isVirtualLocator
              devirtualizeLocator proj e r hashes cs Hcs c Hc)
    as (h & p & _ & Hp & Hv).
  destruct (isVirtualLocator p).
  - rewrite (Hkeyed _ _ Hv). exact Hv.
  - subst c. rewrite (Hkeyed _ _ Hp). exact Hp.
Qed.

Lemma sorted_head_highest (laws : SemverOrder semverSatisfies semverGt)
  (target : Package) (rest : list Package) :
  StronglySorted (fun a b => versionGt semverGt b a = false) (target :: rest) ->
  forall c, In c (target :: rest) -> versionGt semverGt c target = false.
Proof.
  intros SS c [<-|Hc].
  - unfold versionGt. destruct (version target) as [v|]; [|reflexivity].
    pose proof (gt_irrefl laws v) as Hi.
    destruct (semverGt v v) as [[|]|]; congruence.
  - apply StronglySorted_inv in SS. destruct SS as [_ F].
    rewrite Forall_forall in F. apply F. exact Hc.
Qed.

(** C1 (amended). For an identity with two or more resolved locators,
    each with a stored package, the candidates are the stored packages
    of those locators (of their source locators for virtual ones) that
    have a version.  For an entry that is not explicitly included, only
    those whose version satisfies the declared range are kept, they are
    sorted descending by semantic version, and the first, which no
    survivor exceeds, is the pin target.  For an explicitly included
    entry all are kept and they are not ordered by version: the
    comparator is constant, the array comes out reversed, and the pin
    target is the last candidate in the order of the index. *)
Theorem C1_several_candidates (laws : SemverOrder semverSatisfies semverGt)
  (index : JsMap.t JsSet.t) (k : IdentHash) (r ref workspaceCwd : string)
  (hashes : JsSet.t) (sps : list (option Package)) (st : DepState) :
  storeKeyed proj ->
  JsMap.get k index = Some hashes ->
  (1 < JsSet.size hashes)%nat ->
  mapC sourcePackage' hashes = Normal sps ->
  (survivors semverSatisfies false r sps <> [] ->
   exists cs target st',
     candidates' false r hashes = Normal cs /\
     (forall c, In c cs <->
        In (Some c) sps /\ satisfying semverSatisfies r c
        /\ hasLineTerminator r = false) /\
     StronglySorted (fun a b => versionGt semverGt b a = false) cs /\
     hd_error cs = Some target /\
     (forall c, In c cs -> versionGt semverGt c target = false) /\
     pinTo' index false k r ref workspaceCwd st = (st', Normal (Some target)))
  /\
  (survivors semverSatisfies true r sps <> [] ->
   exists front target st',
     survivors semverSatisfies true r sps = (front ++ [target])%list /\
     (forall c, In c (front ++ [target])%list <->
        In (Some c) sps /\ version c <> None) /\
     candidates' true r hashes = Normal (target :: rev front) /\
     pinTo' index true k r ref workspaceCwd st = (st', Normal (Some target))).
Proof.
  intros Hkeyed Hk Hsize Hm. split.
  - intros Hne.
    destruct (candidates_sorted laws r hashes Hm) as (cs & Hcs & Hperm & SS).
    destruct cs as [|target rest].
    { apply Permutation_sym, Permutation_nil in Hperm. contradiction. }
    exists (target :: rest), target. eexists. repeat split.
    + exact Hcs.
    + apply (Permutation_in _ (Permutation_sym Hperm)) in H.
      apply survivors_In in H. destruct H as [H _]. exact H.
    + apply (Permutation_in _ (Permutation_sym Hperm)) in H.
      apply survivors_In in H. destruct H as [_ H].
      apply keepCandidate_not_explicit in H. destruct H as [H _]. exact H.
    + apply (Permutation_in _ (Permutation_sym Hperm)) in H.
      apply survivors_In in H. destruct H as [_ H].
      apply keepCandidate_not_explicit in H. destruct H as [_ H]. exact H.
    + intros (Hin & Hs & Hl). apply (Permutation_in _ Hperm).
      apply survivors_In. split; [exact Hin|].
      apply keepCandidate_not_explicit. auto.
    + exact SS.
    + apply sorted_head_highest; assumption.
    + erewrite pinTo_several by eassumption. cbv beta iota.
      erewrite candidate_stored; [reflexivity|eassumption|eassumption|left; reflexivity].
  - intros Hne.
    destruct (exists_last Hne) as (front & target & Hlast).
    pose proof (candidates_reversed r hashes Hm) as Hcs.
    rewrite Hlast, rev_app_distr in Hcs. simpl in Hcs.
    exists front, target. eexists. repeat split.
    + exact Hlast.
    + rewrite <- Hlast in H. apply survivors_In in H. destruct H as [H _]. exact H.
    + rewrite <- Hlast in H. apply survivors_In in H. destruct H as [_ H].
      apply keepCandidate_explicit in H. exact H.
    + intros [Hin Hv]. rewrite <- Hlast. apply survivors_In. split; [exact Hin|].
      apply keepCandidate_explicit. exact Hv.
    + exact Hcs.
    + erewrite pinTo_several by eassumption. cbv beta iota.
      erewrite candidate_stored; [reflexivity|eassumption|eassumption|left; reflexivity].
Qed.

End Several.

(** The example stores hold every package under its own hash. *)
Ltac store_keyed :=
  let h := fresh "h" in
  let p := fresh "p" in
  let H := fresh "H" in
  intros h p; simpl;
  repeat match goal with
    | |- (if String.eqb ?a ?b then _ else _) = _ -> _ =>
        destruct (String.eqb_spec a b);
        [intros H; injection H as H; subst; reflexivity|]
    end;
  discriminate.

Lemma twoProject_keyed : storeKeyed twoProject.
Proof. store_keyed. Qed.

Lemma threeProject_keyed : storeKeyed threeProject.
Proof. store_keyed. Qed.

Lemma virtualProject_keyed : storeKeyed virtualProject.
Proof. store_keyed. Qed.

Lemma C1_witness :
  (exists cs target st',
     candidates Mini.semverSatisfies Mini.semverGt Mini.isVirtualLocator
       Mini.devirtualizeLocator twoProject false "^2.0.0" ["X"; "Y"] = Normal cs /\
     (forall c, In c cs <->
        In (Some c) [Some pkgX; Some pkgY] /\ satisfying Mini.semverSatisfies "^2.0.0" c
        /\ hasLineTerminator "^2.0.0" = false) /\
     StronglySorted (fun a b => versionGt Mini.semverGt b a = false) cs /\
     hd_error cs = Some target /\
     (forall c, In c cs -> versionGt Mini.semverGt c target = false) /\
     pinTo Mini.semverSatisfies Mini.semverGt Mini.isVirtualLocator
       Mini.devirtualizeLocator twoProject twoIndex false "lib" "^2.0.0" "lib:^2.0.0"
       "/A" emptyDepState = (st', Normal (Some target)))
  /\
  (exists front target st',
     survivors Mini.semverSatisfies true "^2.0.0" [Some pkgX; Some pkgY]
     = (front ++ [target])%list /\
     (forall c, In c (front ++ [target])%list <->
        In (Some c) [Some pkgX; Some pkgY] /\ version c <> None) /\
     candidates Mini.semverSatisfies Mini.semverGt Mini.isVirtualLocator
       Mini.devirtualizeLocator twoProject true "^2.0.0" ["X"; "Y"]
     = Normal (target :: rev front) /\
     pinTo Mini.semverSatisfies Mini.semverGt Mini.isVirtualLocator
       Mini.devirtualizeLocator twoProject twoIndex true "lib" "^2.0.0" "lib:^2.0.0"
       "/A" emptyDepState = (st', Normal (Some target))).
Proof.
  destruct (@C1_several_candidates Mini.semverSatisfies Mini.semverGt
              Mini.isVirtualLocator Mini.devirtualizeLocator twoProject
              Mini_semverOrder twoIndex "lib" "^2.0.0" "lib:^2.0.0" "/A"
              ["X"; "Y"] [Some pkgX; Some pkgY] emptyDepState
              twoProject_keyed eq_refl (Nat.lt_succ_diag_r 1) eq_refl) as [HA HB].
  split; [apply HA|apply HB]; discriminate.
Defined.

(** With [--also lib:^2.0.0] the entry [lib:^2.0.0] is explicitly
    included; both resolved versions satisfy its range and 2.3.0 is the
    higher, yet the entry is planned to 2.1.0. *)
Lemma C1_counterexample :
  explicitlyIncluded alsoLib lib20 = true /\
  Mini.semverSatisfies "2.3.0" "^2.0.0" = true /\
  Mini.semverSatisfies "2.1.0" "^2.0.0" = true /\
  Mini.semverGt "2.3.0" "2.1.0" = Some true /\
  pinnableInWorkspace
    (fst (Mini.processDependency alsoLib twoProject twoIndex "lib" lib20 "/A"
            emptyDepState))
  = [("lib", pkgY)].
Proof. repeat split; reflexivity. Qed.

(** ** The duplicate warning *)

Lemma candidatePairs_spec (cs : list Package) (a b : Package) :
  In (a, b) (candidatePairs cs) <->
  exists i j, (i < j)%nat /\ nth_error cs i = Some a /\ nth_error cs j = Some b.
Proof.
  induction cs as [|v rest IH]; simpl.
  - split; [intros []|]. intros (i & j & _ & Hi & _). destruct i; discriminate.
  - rewrite in_app_iff, in_map_iff, IH. split.
    + intros [(w & Heq & Hw)|(i & j & Hij & Hi & Hj)].
      * injection Heq as <- <-. apply In_nth_error in Hw. destruct Hw as [j Hj].
        exists 0%nat, (S j). repeat split; [lia|exact Hj].
      * exists (S i), (S j). repeat split; [lia|exact Hi|exact Hj].
    + intros (i & j & Hij & Hi & Hj). destruct j as [|j]; [lia|]. simpl in Hj.
      destruct i as [|i]; simpl in Hi.
      * injection Hi as <-. left. exists b. split; [reflexivity|].
        eapply nth_error_In; eauto.
      * right. exists i, j. repeat split; [lia|exact Hi|exact Hj].
Qed.

Lemma countWarnings_reportWarningOnce (text : string) (r : Report) :
  (countWarnings (reportWarningOnce text r) <= S (countWarnings r))%nat.
Proof.
  unfold reportWarningOnce, countWarnings.
  destruct (JsSet.has text (reportedWarnings r)); simpl.
  - lia.
  - rewrite filter_app, length_app. simpl. lia.
Qed.

Lemma reportWarningOnce_fresh (text : string) (r : Report) :
  JsSet.has text (reportedWarnings r) = false ->
  entries (reportWarningOnce text r) = (entries r ++ [Warning text])%list.
Proof.
  intros H. unfold reportWarningOnce. rewrite H. reflexivity.
Qed.

Section Duplicates.

Variable validRange : string -> bool.
Variable semverSatisfies : string -> string -> bool.
Variable semverGt : string -> string -> option bool.
Variable isVirtualLocator : Package -> bool.
Variable devirtualizeLocator : Package -> LocatorHash.
Variable proj : Project.

Local Abbreviation candidates' :=
  (candidates semverSatisfies semverGt isVirtualLocator devirtualizeLocator proj).
Local Abbreviation sourcePackage' :=
  (sourcePackage isVirtualLocator devirtualizeLocator proj).
Local Abbreviation pinTo' :=
  (pinTo semverSatisfies semverGt isVirtualLocator devirtualizeLocator proj).
Local Abbreviation processDependency' :=
  (processDependency validRange semverSatisfies semverGt isVirtualLocator
     devirtualizeLocator).

(** C5 (amended). When two or more candidates survive, the selection
    succeeds with the first of them as the target, which is the highest
    version when the entry is not explicitly included.  The pairs
    counted are all pairs of candidates at different positions whose
    locators differ, whatever their versions, and they are reported
    together: one warning that states their number, through
    [reportWarningOnce], so at most one line is added to the report
    however many pairs there are, and none when the same text was
    reported before. *)
Theorem C5_duplicates_reported_once (index : JsMap.t JsSet.t) (e : bool)
  (k : IdentHash) (r ref workspaceCwd : string) (hashes : JsSet.t)
  (cs : list Package) (st : DepState) :
  storeKeyed proj ->
  JsMap.get k index = Some hashes ->
  (1 < JsSet.size hashes)%nat ->
  candidates' e r hashes = Normal cs ->
  (1 < length cs)%nat ->
  exists target st',
    hd_error cs = Some target /\
    pinTo' index e k r ref workspaceCwd st = (st', Normal (Some target)) /\
    st' = (if (0 <? numDupes cs)%nat
           then setDsLog (reportWarningOnce
                  (duplicateWarning ref (length cs) (numDupes cs) workspaceCwd)) st
           else st) /\
    (forall a b,
       In (a, b) (candidatePairs cs) <->
       exists i j, (i < j)%nat /\ nth_error cs i = Some a /\ nth_error cs j = Some b) /\
    numDupes cs =
      length (filter (fun ab => negb (String.eqb (locatorHash (fst ab))
                                        (locatorHash (snd ab))))
                (candidatePairs cs)) /\
    (countWarnings (ds_log st') <= S (countWarnings (ds_log st)))%nat /\
    ((0 < numDupes cs)%nat ->
     JsSet.has (duplicateWarning ref (length cs) (numDupes cs) workspaceCwd)
       (reportedWarnings (ds_log st)) = false ->
     entries (ds_log st') =
     (entries (ds_log st)
      ++ [Warning (duplicateWarning ref (length cs) (numDupes cs) workspaceCwd)])%list) /\
    (e = false -> SemverOrder semverSatisfies semverGt ->
     forall c, In c cs -> versionGt semverGt c target = false).
Proof.
  clear validRange. intros Hkeyed Hk Hsize Hcs Hlen.
  destruct cs as [|target rest]; [simpl in Hlen; lia|].
  exists target. eexists. split; [reflexivity|]. split.
  - erewrite pinTo_several by eassumption. cbv beta iota.
    erewrite candidate_stored; [reflexivity|eassumption|eassumption|left; reflexivity].
  - apply Nat.ltb_lt in Hlen. rewrite Hlen. rewrite andb_true_l.
    split; [reflexivity|]. split; [apply candidatePairs_spec|].
    split; [reflexivity|]. split; [|split].
    + destruct (0 <? numDupes (target :: rest))%nat; simpl.
      * apply countWarnings_reportWarningOnce.
      * lia.
    + intros Hd Hfresh. apply Nat.ltb_lt in Hd. rewrite Hd. simpl.
      apply reportWarningOnce_fresh. exact Hfresh.
    + intros -> laws c Hc.
      pose proof Hcs as Hinv. apply candidates_inv in Hinv.
      destruct Hinv as (sps & Hm & _).
      destruct (@candidates_sorted semverSatisfies semverGt isVirtualLocator
                  devirtualizeLocator proj laws r hashes sps Hm)
        as (cs' & Hcs' & _ & SS).
      rewrite Hcs in Hcs'. injection Hcs' as <-.
      apply (sorted_head_highest laws SS). exact Hc.
Qed.

(** A package stored under the hash of a locator that is not virtual is
    the source package of that locator. *)
Lemma mapC_two (h1 h2 : LocatorHash) (p1 p2 : Package) :
  sourcePackage' h1 = Normal (Some p1) ->
  sourcePackage' h2 = Normal (Some p2) ->
  mapC sourcePackage' [h1; h2] = Normal [Some p1; Some p2].
Proof. intros H1 H2. simpl. rewrite H1, H2. reflexivity. Qed.

Lemma survivors_two (r : string) (p1 p2 : Package) (v1 v2 : string) :
  hasLineTerminator r = false ->
  version p1 = Some v1 -> version p2 = Some v2 ->
  semverSatisfies v1 r = true -> semverSatisfies v2 r = true ->
  survivors semverSatisfies false r [Some p1; Some p2] = [p1; p2].
Proof.
  intros Hl H1 H2 S1 S2. unfold survivors, keepCandidate, semverMatch. simpl.
  rewrite H1, H2, Hl, S1, S2. reflexivity.
Qed.

(** Two candidates in either order of the index come out higher version
    first. *)
Lemma candidates_two (r : string) (hashes : JsSet.t) (h1 h2 : LocatorHash)
  (p1 p2 : Package) (v1 v2 : string) :
  hashes = [h1; h2] \/ hashes = [h2; h1] ->
  sourcePackage' h1 = Normal (Some p1) ->
  sourcePackage' h2 = Normal (Some p2) ->
  hasLineTerminator r = false ->
  version p1 = Some v1 -> version p2 = Some v2 ->
  semverSatisfies v1 r = true -> semverSatisfies v2 r = true ->
  semverGt v1 v2 = Some true -> semverGt v2 v1 = Some false ->
  candidates' false r hashes = Normal [p1; p2].
Proof.
  intros [-> | ->] Hs1 Hs2 Hl H1 H2 S1 S2 G12 G21; unfold candidates.
  - erewrite mapC_two by eassumption. simpl cbind.
    erewrite survivors_two by eassumption.
    unfold Array_sort, CountAndMakeRun, compareCandidates.
    rewrite H1, H2, G21. reflexivity.
  - erewrite mapC_two by eassumption. simpl cbind.
    erewrite survivors_two by eassumption.
    unfold Array_sort, CountAndMakeRun, compareCandidates.
    rewrite H1, H2, G12. reflexivity.
Qed.

Lemma emit_keeps (x e : LogEntry) (rep : Report) :
  In x (entries rep) -> In x (entries (emit e rep)).
Proof. intros H. unfold emit. simpl. apply in_or_app. left. exact H. Qed.

(** Planning only adds to the report. *)
Lemma planPin_keeps_entries (o : Options) (e : bool) (k : IdentHash)
  (r ref workspaceCwd : string) (target : option Package) (st : DepState)
  (x : LogEntry) :
  In x (entries (ds_log st)) ->
  In x (entries (ds_log (fst (planPin o e k r ref workspaceCwd target st)))).
Proof.
  intros H. unfold planPin. destruct target as [p|]; [|exact H].
  destruct (jsstr_eqb (version p) (Some r)); [destruct e|]; simpl;
    unfold logVerboseWarning, logVerboseInfo, reportInfo, reportWarning;
    destruct (verbose o); simpl; auto; apply in_or_app; left; exact H.
Qed.

Lemma numDupes_two (p1 p2 : Package) :
  locatorHash p1 <> locatorHash p2 -> numDupes [p1; p2] = 1%nat.
Proof.
  intros H. unfold numDupes, areLocatorsEqual. simpl.
  destruct (String.eqb_spec (locatorHash p1) (locatorHash p2)); [contradiction|].
  reflexivity.
Qed.

(** C3 (amended). When the identity of an entry that is not explicitly
    included has exactly two resolved candidates, with different
    locators and different versions that both satisfy the declared
    range, the entry is planned to the higher version, and the
    duplicate warning is raised: the two candidates are one pair with
    different locators, which is all the count looks at.  The warning
    reaches the report unless the same text was reported before. *)
Theorem C3_two_versions_pin_highest_and_warn (o : Options)
  (index : JsMap.t JsSet.t) (k : IdentHash) (dependency : Descriptor)
  (r workspaceCwd : string) (hashes : JsSet.t) (h1 h2 : LocatorHash)
  (p1 p2 : Package) (v1 v2 : string) (st : DepState) :
  storeKeyed proj ->
  range dependency = Some r ->
  validRange r = true ->
  explicitlyIncluded o dependency = false ->
  omitted o (depRef dependency) = false ->
  hasLineTerminator r = false ->
  JsMap.get k index = Some hashes ->
  hashes = [h1; h2] \/ hashes = [h2; h1] ->
  sourcePackage' h1 = Normal (Some p1) ->
  sourcePackage' h2 = Normal (Some p2) ->
  version p1 = Some v1 -> version p2 = Some v2 ->
  semverSatisfies v1 r = true -> semverSatisfies v2 r = true ->
  semverGt v1 v2 = Some true -> semverGt v2 v1 = Some false ->
  locatorHash p1 <> locatorHash p2 ->
  processDependency' o proj index k dependency workspaceCwd st =
  planPin o false k r (depRef dependency) workspaceCwd (Some p1)
    (setDsLog (reportWarningOnce
       (duplicateWarning (depRef dependency) 2 1 workspaceCwd)) st)
  /\
  exists st',
    processDependency' o proj index k dependency workspaceCwd st = (st', Normal tt) /\
    pinnableInWorkspace st' =
      (if jsstr_eqb (version p1) (Some r) then pinnableInWorkspace st
       else JsMap.set k p1 (pinnableInWorkspace st)) /\
    (JsSet.has (duplicateWarning (depRef dependency) 2 1 workspaceCwd)
       (reportedWarnings (ds_log st)) = false ->
     In (Warning (duplicateWarning (depRef dependency) 2 1 workspaceCwd))
       (entries (ds_log st'))).
Proof.
  intros Hkeyed Hr Hvalid Hex Homit Hl Hk Hh Hs1 Hs2 H1 H2 S1 S2 G12 G21 Hne.
  assert (candidates' false r hashes = Normal [p1; p2]) as Hcs
    by (eapply candidates_two; eassumption).
  assert (needsPin validRange r = true) as Hn
    by (unfold needsPin; rewrite Hvalid; reflexivity).
  assert (1 < JsSet.size hashes)%nat as Hsize
    by (destruct Hh as [-> | ->]; simpl; lia).
  assert (processDependency' o proj index k dependency workspaceCwd st =
          planPin o false k r (depRef dependency) workspaceCwd (Some p1)
            (setDsLog (reportWarningOnce
               (duplicateWarning (depRef dependency) 2 1 workspaceCwd)) st)) as E.
  { rewrite processDependency_selects with (r := r);
      [|exact Hr|rewrite Hn; reflexivity|exact Homit].
    rewrite Hn, Hex. unfold bind.
    erewrite pinTo_several by eassumption. cbv beta iota.
    rewrite (@numDupes_two p1 p2 Hne).
    erewrite candidate_stored; [reflexivity|eassumption|eassumption|left; reflexivity]. }
  split; [exact E|]. rewrite E.
  destruct (planPin_target o false k r (depRef dependency) workspaceCwd p1
              (setDsLog (reportWarningOnce
                 (duplicateWarning (depRef dependency) 2 1 workspaceCwd)) st))
    as (st' & Ep & Hplan & _).
  exists st'. split; [exact Ep|]. split; [exact Hplan|].
  intros Hfresh.
  replace st' with
    (fst (planPin o false k r (depRef dependency) workspaceCwd (Some p1)
            (setDsLog (reportWarningOnce
               (duplicateWarning (depRef dependency) 2 1 workspaceCwd)) st)))
    by (rewrite Ep; reflexivity).
  apply planPin_keeps_entries. simpl.
  rewrite reportWarningOnce_fresh by exact Hfresh.
  apply in_or_app. right. left. reflexivity.
Qed.

End Duplicates.

Lemma C3_witness :
  Mini.processDependency noOptions twoProject twoIndex "lib" lib20 "/A" emptyDepState =
  planPin noOptions false "lib" "^2.0.0" (depRef lib20) "/A" (Some pkgX)
    (setDsLog (reportWarningOnce (duplicateWarning (depRef lib20) 2 1 "/A"))
       emptyDepState)
  /\
  exists st',
    Mini.processDependency noOptions twoProject twoIndex "lib" lib20 "/A" emptyDepState
    = (st', Normal tt) /\
    pinnableInWorkspace st' =
      (if jsstr_eqb (version pkgX) (Some "^2.0.0") then pinnableInWorkspace emptyDepState
       else JsMap.set "lib" pkgX (pinnableInWorkspace emptyDepState)) /\
    (JsSet.has (duplicateWarning (depRef lib20) 2 1 "/A")
       (reportedWarnings (ds_log emptyDepState)) = false ->
     In (Warning (duplicateWarning (depRef lib20) 2 1 "/A")) (entries (ds_log st'))).
Proof.
  apply (@C3_two_versions_pin_highest_and_warn Mini.validRange Mini.semverSatisfies
           Mini.semverGt Mini.isVirtualLocator Mini.devirtualizeLocator twoProject
           noOptions twoIndex "lib" lib20 "^2.0.0" "/A" ["X"; "Y"] "X" "Y"
           pkgX pkgY "2.3.0" "2.1.0" emptyDepState);
    try reflexivity.
  - exact twoProject_keyed.
  - left. reflexivity.
  - discriminate.
Defined.

(** The scenario of the specification, run whole: [lib] is pinned to
    2.3.0, and the run does report a possible duplicate, for the one pair
    of candidates, whose versions differ. *)
Lemma C3_counterexample :
  version pkgX <> version pkgY /\
  pinnableByWorkspaceCwd (fst (Mini.execute noOptions twoProject (newCommand twoDisk)))
  = [("/A", [("lib", pkgX)])] /\
  In (Warning
        "Possible duplicate: lib:^2.0.0 has 2 candidates (1 conflicting pairs) in workspace /A")
    (entries (log (fst (Mini.execute noOptions twoProject (newCommand twoDisk))))).
Proof.
  split; [discriminate|]. split; [reflexivity|]. left. reflexivity.
Qed.

Lemma C5_witness :
  exists target st',
    hd_error [pkgT1; pkgT2; pkgT3] = Some target /\
    pinTo Mini.semverSatisfies Mini.semverGt Mini.isVirtualLocator
      Mini.devirtualizeLocator threeProject threeIndex false "lib" "^1.0.0"
      "lib:^1.0.0" "/A" emptyDepState = (st', Normal (Some target)) /\
    st' = (if (0 <? numDupes [pkgT1; pkgT2; pkgT3])%nat
           then setDsLog (reportWarningOnce
                  (duplicateWarning "lib:^1.0.0" (length [pkgT1; pkgT2; pkgT3])
                     (numDupes [pkgT1; pkgT2; pkgT3]) "/A")) emptyDepState
           else emptyDepState) /\
    (forall a b,
       In (a, b) (candidatePairs [pkgT1; pkgT2; pkgT3]) <->
       exists i j, (i < j)%nat /\ nth_error [pkgT1; pkgT2; pkgT3] i = Some a
                   /\ nth_error [pkgT1; pkgT2; pkgT3] j = Some b) /\
    numDupes [pkgT1; pkgT2; pkgT3] =
      length (filter (fun ab => negb (String.eqb (locatorHash (fst ab))
                                        (locatorHash (snd ab))))
                (candidatePairs [pkgT1; pkgT2; pkgT3])) /\
    (countWarnings (ds_log st') <= S (countWarnings (ds_log emptyDepState)))%nat /\
    ((0 < numDupes [pkgT1; pkgT2; pkgT3])%nat ->
     JsSet.has (duplicateWarning "lib:^1.0.0" (length [pkgT1; pkgT2; pkgT3])
                  (numDupes [pkgT1; pkgT2; pkgT3]) "/A")
       (reportedWarnings (ds_log emptyDepState)) = false ->
     entries (ds_log st') =
     (entries (ds_log emptyDepState)
      ++ [Warning (duplicateWarning "lib:^1.0.0" (length [pkgT1; pkgT2; pkgT3])
                     (numDupes [pkgT1; pkgT2; pkgT3]) "/A")])%list) /\
    (false = false -> SemverOrder Mini.semverSatisfies Mini.semverGt ->
     forall c, In c [pkgT1; pkgT2; pkgT3] -> versionGt Mini.semverGt c target = false).
Proof.
  apply (@C5_duplicates_reported_once Mini.semverSatisfies Mini.semverGt
           Mini.isVirtualLocator Mini.devirtualizeLocator threeProject threeIndex
           false "lib" "^1.0.0" "lib:^1.0.0" "/A" ["T1"; "T2"; "T3"]
           [pkgT1; pkgT2; pkgT3] emptyDepState).
  - exact threeProject_keyed.
  - reflexivity.
  - simpl. lia.
  - reflexivity.
  - simpl. lia.
Defined.

(** Three candidates at one version under three locators make three
    pairs with different locators, and the run reports one warning. *)
Lemma C5_counterexample :
  candidates Mini.semverSatisfies Mini.semverGt Mini.isVirtualLocator
    Mini.devirtualizeLocator threeProject false "^1.0.0" ["T1"; "T2"; "T3"]
  = Normal [pkgT1; pkgT2; pkgT3] /\
  numDupes [pkgT1; pkgT2; pkgT3] = 3%nat /\
  entries (ds_log (fst (Mini.processDependency noOptions threeProject threeIndex "lib"
                          lib10 "/A" emptyDepState)))
  = [Warning
       "Possible duplicate: lib:^1.0.0 has 3 candidates (3 conflicting pairs) in workspace /A"].
Proof. repeat split; reflexivity. Qed.

(** An entry that reaches the selection while the index has no locator
    for its identity is reported, and the call then throws. *)
Lemma processDependency_missing_locator_throws
  (validRange : string -> bool) (semverSatisfies : string -> string -> bool)
  (semverGt : string -> string -> option bool) (isVirtualLocator : Package -> bool)
  (devirtualizeLocator : Package -> LocatorHash) (o : Options) (proj : Project)
  (index : JsMap.t JsSet.t) (k : IdentHash) (dependency : Descriptor)
  (r workspaceCwd : string) (st : DepState) :
  range dependency = Some r ->
  (needsPin validRange r || explicitlyIncluded o dependency) = true ->
  omitted o (depRef dependency) = false ->
  JsMap.get k index = None ->
  processDependency validRange semverSatisfies semverGt isVirtualLocator
    devirtualizeLocator o proj index k dependency workspaceCwd st =
  (setDsLog (reportWarning
     ("Missing locator: " ++ depRef dependency ++ ", in workspace " ++ workspaceCwd))
     (if needsPin validRange r then st
      else setDsLog (logVerboseInfo o workspaceCwd ("Include: " ++ depRef dependency)) st),
   Throw (typeError "pinTo is undefined")).
Proof.
  intros Hr Hreach Homit Hk.
  rewrite processDependency_selects with (r := r) by assumption.
  unfold bind, pinTo. rewrite Hk. reflexivity.
Qed.

(** C2 (code defect). After the "Missing locator" warning the function
    goes on to read the version of the target it never assigned, and
    throws: the run ends there.  The entry [other] after it in workspace
    A and the whole of workspace B are never looked at, no pin is
    applied, and nothing is planned. *)
Theorem C2_missing_locator_ends_the_run :
  Mini.execute noOptions missingProject (newCommand missingDisk) =
  (mkCommand
     (mkReport [Warning "Missing locator: lib:^2.0.0, in workspace /A"] [])
     [("other", ["O"])]
     (project_workspaces missingProject)
     [("/A", [])]
     [("/A", [])]
     missingDisk,
   Throw "TypeError: pinTo is undefined").
Proof. reflexivity. Qed.

(** C4 (code defect). A dependency listed both as a dependency and as a
    devDependency is planned once, under its identity, and the pin is
    written to the dependency entry only.  The devDependency entry keeps
    its range, so the next run plans the same pin again, as does every
    run after it.  And when the two entries have different targets, the
    pin meant for the devDependency entry overwrites a dependency entry
    that was already at the version chosen for it. *)
Theorem C4_second_run_plans_again :
  let run1 := Mini.execute noOptions bothProject (newCommand bothDisk) in
  let run2 :=
    Mini.execute noOptions (reload (disk (fst run1)) bothProjectResolvedAgain)
      (newCommand (disk (fst run1))) in
  snd run1 = Normal tt /\
  disk (fst run1)
  = [("/A/package.json",
      manifestOf "a" [("lib", dep "lib" None "lib" "2.3.0")] [("lib", lib20)])] /\
  snd run2 = Normal tt /\
  pinnableByWorkspaceCwd (fst run2) = [("/A", [("lib", pkgL)])] /\
  disk (fst run2) = disk (fst run1) /\
  map manifest
    (workspaces (fst (Mini.execute noOptions mixedProject (newCommand []))))
  = [manifestOf "a" [("lib", dep "lib" None "lib" "2.3.0")] [("lib", lib20)]].
Proof. repeat split; reflexivity. Qed.

(* ================================================================== *)
(** * Further properties of the command *)
(* ================================================================== *)

(** ** Gathering the workspaces *)

Lemma includes_nonempty_refs (w : Workspace) (ref : string) :
  includes
    (filter (fun pwr => negb (String.eqb pwr EmptyString))
       ([cwd w; relativeCwd w]
        ++ match manifest_name (manifest w) with
           | Some n => [n]
           | None => []
           end)%list) ref = true <->
  ref <> EmptyString /\
  (ref = cwd w \/ ref = relativeCwd w \/ manifest_name (manifest w) = Some ref).
Proof.
  rewrite includes_In, filter_In, in_app_iff. simpl.
  rewrite negb_true_iff, String.eqb_neq. split.
  - intros [[[H|[H|[]]]|H] Hne]; split; auto.
    destruct (manifest_name (manifest w)) as [n|]; [|destruct H].
    destruct H as [H|[]]. subst. auto.
  - intros [Hne [H|[H|H]]]; split; auto.
    right. rewrite H. left. reflexivity.
Qed.

(** X1. With [--workspace] references, and every workspace of the project
    named, the command keeps exactly the workspaces that some non-empty
    reference names by directory, relative directory or name, in the
    order of the project, announces each of them with a warning whatever
    [--verbose] says, keeps every line the report had, and touches
    nothing but the report and the list: the index, the plan, the report
    map and the files are what they were. *)
Theorem X1_gatherWorkspaces_selects (o : Options) (proj : Project) (c : Command)
  (refs : list string) :
  onlyWorkspaces o = Some refs ->
  refs <> [] ->
  Forall named (project_workspaces proj) ->
  exists c' keep,
    gatherWorkspaces o proj c = (c', Normal tt) /\
    workspaces c' = filter keep (project_workspaces proj) /\
    (forall w, keep w = true <-> workspaceSelected refs w) /\
    (forall w n, In w (workspaces c') -> manifest_name (manifest w) = Some n ->
       In (includingLine w n) (entries (log c'))) /\
    (forall e, In e (entries (log c)) -> In e (entries (log c'))) /\
    locatorsByIdent c' = locatorsByIdent c /\
    pinnableByWorkspaceCwd c' = pinnableByWorkspaceCwd c /\
    reportablePinsByWorkspaceCwd c' = reportablePinsByWorkspaceCwd c /\
    disk c' = disk c.
Proof.
  intros Ho Hne Hnamed.
  set (keep := fun w : Workspace =>
    existsb (fun givenWorkspaceRef =>
      includes
        (filter (fun pwr => negb (String.eqb pwr EmptyString))
           ([cwd w; relativeCwd w]
            ++ match manifest_name (manifest w) with
               | Some n => [n]
               | None => []
               end)%list) givenWorkspaceRef) refs).
  unfold gatherWorkspaces. rewrite Ho.
  destruct refs as [|ref0 refs0]; [contradiction|].
  change ((length (ref0 :: refs0) =? 0)%nat) with false. cbv iota.
  match goal with
  | |- context [filterM ?f _] => set (F := f)
  end.
  assert (forall l c0, Forall named l ->
            exists c1,
              filterM F l c0 = (c1, Normal (filter keep l)) /\
              (forall e, In e (entries (log c0)) -> In e (entries (log c1))) /\
              (forall w n, In w (filter keep l) -> manifest_name (manifest w) = Some n ->
                 In (includingLine w n) (entries (log c1))) /\
              locatorsByIdent c1 = locatorsByIdent c0 /\
              workspaces c1 = workspaces c0 /\
              pinnableByWorkspaceCwd c1 = pinnableByWorkspaceCwd c0 /\
              reportablePinsByWorkspaceCwd c1 = reportablePinsByWorkspaceCwd c0 /\
              disk c1 = disk c0) as Hloop.
  { induction l as [|w l IH]; intros c0 Hl.
    - exists c0. simpl. repeat split; auto. intros w n [].
    - apply Forall_inv in Hl as Hw. apply Forall_inv_tail in Hl.
      unfold named in Hw. destruct (manifest_name (manifest w)) as [n|] eqn:En;
        [|congruence].
      simpl filterM. unfold bind at 1. unfold F at 1. cbv zeta.
      fold (keep w). rewrite En.
      unfold bind at 1, modify, ret. cbv beta iota.
      match goal with
      | |- context [bind (filterM F l) _ ?c2] => destruct (IH c2 Hl)
          as (c1 & E & Hmono & Hinc & HL & HW & HP & HR & HD)
      end.
      unfold bind. rewrite E. cbv beta iota.
      exists c1. split; [simpl; destruct (keep w); reflexivity|].
      split; [|split; [|repeat split; simpl in *; congruence]].
      + intros e He. apply Hmono. simpl.
        destruct (keep w); unfold reportWarning, logVerboseWarning;
          [|destruct (negb (verbose o)); [exact He|]];
          unfold reportWarning; apply emit_keeps; exact He.
      + intros w' n' Hin Hn'. simpl in Hin. destruct (keep w) eqn:Ek.
        * destruct Hin as [<-|Hin]; [|apply Hinc; assumption].
          apply Hmono. simpl. rewrite Hn' in En. injection En as <-.
          unfold reportWarning, emit, includingLine. simpl.
          apply in_or_app. right. left. reflexivity.
        * apply Hinc; assumption. }
  destruct (Hloop (project_workspaces proj) c Hnamed)
    as (c1 & E & Hmono & Hinc & HL & _ & HP & HR & HD).
  unfold bind. rewrite E. cbv beta iota.
  eexists. exists keep. split; [reflexivity|]. simpl.
  repeat split; auto.
  - intros Hk. unfold keep in Hk. apply existsb_exists in Hk.
    destruct Hk as (ref & Hin & Hr). apply includes_nonempty_refs in Hr.
    exists ref. split; [exact Hin|exact Hr].
  - intros (ref & Hin & Hr). unfold keep. apply existsb_exists.
    exists ref. split; [exact Hin|]. apply includes_nonempty_refs. exact Hr.
Qed.

Lemma X1_witness :
  workspaces (fst (gatherWorkspaces (onlyWorkspace ["a"]) (projectOf [wsA; wsB])
                     (newCommand []))) = [wsA] /\
  exists c' keep,
    gatherWorkspaces (onlyWorkspace ["a"]) (projectOf [wsA; wsB]) (newCommand [])
    = (c', Normal tt) /\
    workspaces c' = filter keep (project_workspaces (projectOf [wsA; wsB])) /\
    (forall w, keep w = true <-> workspaceSelected ["a"] w) /\
    (forall w n, In w (workspaces c') -> manifest_name (manifest w) = Some n ->
       In (includingLine w n) (entries (log c'))) /\
    (forall e, In e (entries (log (newCommand []))) -> In e (entries (log c'))) /\
    locatorsByIdent c' = locatorsByIdent (newCommand []) /\
    pinnableByWorkspaceCwd c' = pinnableByWorkspaceCwd (newCommand []) /\
    reportablePinsByWorkspaceCwd c' = reportablePinsByWorkspaceCwd (newCommand []) /\
    disk c' = disk (newCommand []).
Proof.
  split; [reflexivity|].
  apply (X1_gatherWorkspaces_selects (onlyWorkspace ["a"]) (projectOf [wsA; wsB])
           (newCommand []) (refs := ["a"])).
  - reflexivity.
  - discriminate.
  - repeat constructor; discriminate.
Defined.

(** X2. Without [--workspace] references every workspace of the project
    is taken and nothing is reported, named or not.  With references, a
    workspace whose manifest has no name makes the command throw while it
    builds the line about that workspace, whether a reference names it or
    not; the command's list of workspaces is then left unassigned. *)
Theorem X2_gatherWorkspaces_unnamed_throws (o : Options) (proj : Project)
  (c : Command) :
  (onlyWorkspaces o = None \/ onlyWorkspaces o = Some [] ->
   gatherWorkspaces o proj c = (setWorkspaces (project_workspaces proj) c, Normal tt))
  /\
  (forall refs,
     onlyWorkspaces o = Some refs -> refs <> [] ->
     (exists w, In w (project_workspaces proj) /\ manifest_name (manifest w) = None) ->
     exists c' e,
       gatherWorkspaces o proj c = (c', Throw e) /\
       workspaces c' = workspaces c /\ disk c' = disk c).
Proof.
  split.
  - intros [Ho|Ho]; unfold gatherWorkspaces; rewrite Ho; reflexivity.
  - intros refs Ho Hne Hex. unfold gatherWorkspaces. rewrite Ho.
    destruct refs as [|ref0 refs0]; [contradiction|].
    change ((length (ref0 :: refs0) =? 0)%nat) with false. cbv iota.
    match goal with
    | |- context [filterM ?f _] => set (F := f)
    end.
    assert (forall l c0,
              (exists w, In w l /\ manifest_name (manifest w) = None) ->
              exists c1 e,
                filterM F l c0 = (c1, Throw e) /\
                workspaces c1 = workspaces c0 /\ disk c1 = disk c0) as Hloop.
    { induction l as [|w l IH]; intros c0 (u & Hin & Hu); [destruct Hin|].
      simpl filterM. unfold bind at 1. unfold F at 1. cbv zeta.
      destruct (manifest_name (manifest w)) as [n|] eqn:En.
      - assert (exists w', In w' l /\ manifest_name (manifest w') = None) as Hl.
        { destruct Hin as [<-|Hin]; [congruence|]. exists u. auto. }
        unfold bind at 1, modify, ret. cbv beta iota.
        match goal with
        | |- context [bind (filterM F l) _ ?c2] => destruct (IH c2 Hl)
            as (c1 & e & E & HW & HD)
        end.
        unfold bind. rewrite E. exists c1, e. repeat split; assumption.
      - unfold throw. eexists. eexists. repeat split. }
    destruct (Hloop (project_workspaces proj) c Hex) as (c1 & e & E & HW & HD).
    unfold bind. rewrite E. exists c1, e. repeat split; assumption.
Qed.

Lemma X2_witness :
  gatherWorkspaces noOptions (projectOf [wsA; wsUnnamed]) (newCommand [])
  = (setWorkspaces [wsA; wsUnnamed] (newCommand []), Normal tt) /\
  exists c' e,
    gatherWorkspaces (onlyWorkspace ["a"]) (projectOf [wsA; wsUnnamed]) (newCommand [])
    = (c', Throw e) /\
    workspaces c' = workspaces (newCommand []) /\ disk c' = disk (newCommand []).
Proof.
  split.
  - apply (proj1 (X2_gatherWorkspaces_unnamed_throws noOptions
                    (projectOf [wsA; wsUnnamed]) (newCommand []))).
    left. reflexivity.
  - apply (proj2 (X2_gatherWorkspaces_unnamed_throws (onlyWorkspace ["a"])
                    (projectOf [wsA; wsUnnamed]) (newCommand [])) ["a"]).
    + reflexivity.
    + discriminate.
    + exists wsUnnamed. split; [right; left; reflexivity|reflexivity].
Defined.

(** ** The index, as a data structure *)

Lemma JsMap_get_In (V : Type) (k : string) (v : V) (m : JsMap.t V) :
  JsMap.get k m = Some v -> In (k, v) m.
Proof.
  induction m as [|[k' v'] m IH]; simpl; [discriminate|].
  destruct (String.eqb_spec k k') as [->|Hne].
  - intros H. injection H as E. subst v'. left. reflexivity.
  - intros H. right. apply IH. exact H.
Qed.

Lemma JsMap_get_None_keys (V : Type) (k : string) (m : JsMap.t V) :
  JsMap.get k m = None <-> ~ In k (map fst m).
Proof.
  induction m as [|[k' v'] m IH]; simpl.
  - split; auto.
  - destruct (String.eqb_spec k k') as [->|Hne].
    + split; [discriminate|]. intros H. exfalso. apply H. left. reflexivity.
    + rewrite IH. split.
      * intros H [E|Hin]; [congruence|contradiction].
      * intros H Hin. apply H. right. exact Hin.
Qed.

Lemma JsMap_set_keys (V : Type) (k : string) (v : V) (m : JsMap.t V) :
  map fst (JsMap.set k v m) =
  if in_dec string_dec k (map fst m) then map fst m else (map fst m ++ [k])%list.
Proof.
  induction m as [|[k' v'] m IH]; simpl; [reflexivity|].
  destruct (String.eqb_spec k k') as [->|Hne]; simpl.
  - destruct (string_dec k' k') as [E|F]; [reflexivity|contradiction].
  - rewrite IH. destruct (string_dec k' k) as [E|F]; [congruence|].
    destruct (in_dec string_dec k (map fst m)); reflexivity.
Qed.

Lemma JsMap_set_In (V : Type) (k : string) (v : V) (m : JsMap.t V)
  (k' : string) (v' : V) :
  In (k', v') (JsMap.set k v m) -> (k' = k /\ v' = v) \/ In (k', v') m.
Proof.
  induction m as [|[k0 v0] m IH]; simpl.
  - intros [H|[]]. injection H as <- <-. left. auto.
  - destruct (String.eqb_spec k k0) as [->|Hne]; simpl.
    + intros [H|H]; [injection H as <- <-; left; auto|right; right; exact H].
    + intros [H|H]; [right; left; exact H|].
      destruct (IH H) as [E|Hin]; [left; exact E|right; right; exact Hin].
Qed.

Lemma JsMap_set_NoDup (V : Type) (k : string) (v : V) (m : JsMap.t V) :
  NoDup (map fst m) -> NoDup (map fst (JsMap.set k v m)).
Proof.
  intros H. rewrite JsMap_set_keys.
  destruct (in_dec string_dec k (map fst m)) as [Hin|Hnin]; [exact H|].
  apply NoDup_app; [exact H|constructor; [intros []|constructor]|].
  intros x Hx [<-|[]]. contradiction.
Qed.

Lemma JsSet_add_NoDup (x : string) (s : JsSet.t) :
  NoDup s -> NoDup (JsSet.add x s) /\ JsSet.add x s <> [].
Proof.
  intros H. unfold JsSet.add, JsSet.has. destruct (includes s x) eqn:E.
  - split; [exact H|]. apply includes_In in E. destruct s; [destruct E|discriminate].
  - split.
    + apply NoDup_app; [exact H|constructor; [intros []|constructor]|].
      intros y Hy [<-|[]].
      assert (includes s x = true) as Hc by (apply includes_In; exact Hy).
      congruence.
    + destruct s; discriminate.
Qed.

Lemma indexResolutions_wellFormed (sd : JsMap.t Descriptor)
  (res : list (DescriptorHash * LocatorHash)) :
  forall acc index,
    indexWellFormed acc ->
    indexResolutions sd res acc = Normal index ->
    indexWellFormed index.
Proof.
  induction res as [|[dh value] res IH]; intros acc index Hacc H; simpl in H.
  - injection H as <-. exact Hacc.
  - destruct (JsMap.get dh sd) as [descriptor|]; [|discriminate].
    apply IH in H; [exact H|]. destruct Hacc as [Hkeys Hsets].
    destruct (JsMap.get (identHash descriptor) acc) as [locators|] eqn:E.
    + split; [apply JsMap_set_NoDup; exact Hkeys|].
      intros k s Hin. apply JsMap_set_In in Hin. destruct Hin as [[-> ->]|Hin].
      * apply JsMap_get_In in E. destruct (Hsets _ _ E) as [_ Hnd].
        destruct (JsSet_add_NoDup value Hnd) as [H1 H2]. auto.
      * apply Hsets with k. exact Hin.
    + split; [apply JsMap_set_NoDup; exact Hkeys|].
      intros k s Hin. apply JsMap_set_In in Hin. destruct Hin as [[-> ->]|Hin].
      * split; [discriminate|]. constructor; [intros []|constructor].
      * apply Hsets with k. exact Hin.
Qed.

(** X3. The index that [createLocatorsByIdentMap] builds lists every
    identity once, and under each identity at least one locator and none
    twice: an identity that is indexed never has zero candidates. *)
Theorem X3_index_well_formed (proj : Project) (c c' : Command) :
  createLocatorsByIdentMap proj c = (c', Normal tt) ->
  indexWellFormed (locatorsByIdent c') /\
  (forall k s, JsMap.get k (locatorsByIdent c') = Some s -> (1 <= JsSet.size s)%nat).
Proof.
  intros H. unfold createLocatorsByIdentMap in H.
  destruct (indexResolutions (storedDescriptors proj) (storedResolutions proj)
              JsMap.empty) as [index|] eqn:E; [|discriminate].
  injection H as <-. simpl.
  assert (indexWellFormed index) as Hw.
  { apply (indexResolutions_wellFormed _ _ (acc := JsMap.empty)) in E; [exact E|].
    split; [constructor|]. intros k s []. }
  split; [exact Hw|]. intros k s Hs. apply JsMap_get_In in Hs.
  destruct Hw as [_ Hsets]. destruct (Hsets _ _ Hs) as [Hne _].
  unfold JsSet.size. destruct s; [contradiction|simpl; lia].
Qed.

Lemma X3_witness :
  indexWellFormed [("lib", ["virtual:ctx#L1"; "L2"])] /\
  (forall k s, JsMap.get k [("lib", ["virtual:ctx#L1"; "L2"])] = Some s ->
     (1 <= JsSet.size s)%nat).
Proof.
  apply (@X3_index_well_formed virtualProject (newCommand [])
           (indexed [("lib", ["virtual:ctx#L1"; "L2"])])).
  reflexivity.
Defined.

Lemma indexResolutions_complete (sd : JsMap.t Descriptor)
  (res : list (DescriptorHash * LocatorHash)) :
  forall acc,
    (Forall (fun e => JsMap.get (fst e) sd <> None) res ->
     exists index, indexResolutions sd res acc = Normal index) /\
    ((exists dh h, In (dh, h) res /\ JsMap.get dh sd = None) ->
     exists e, indexResolutions sd res acc = Throw e).
Proof.
  induction res as [|[dh value] res IH]; intros acc; simpl.
  - split; [eauto|]. intros (dh & h & [] & _).
  - destruct (JsMap.get dh sd) as [descriptor|] eqn:E.
    + split.
      * intros HF. apply Forall_inv_tail in HF. apply IH. exact HF.
      * intros (dh' & h & [Heq|Hin] & Hn).
        -- injection Heq as -> ->. congruence.
        -- apply IH. eauto.
    + split.
      * intros HF. apply Forall_inv in HF. simpl in HF. congruence.
      * intros _. eauto.
Qed.

(** X4. [createLocatorsByIdentMap] succeeds when the descriptor of every
    stored resolution is stored, and throws when that of some resolution
    is not; in that case the command's state, its index included, is what
    it was. *)
Theorem X4_index_needs_every_descriptor (proj : Project) (c : Command) :
  (Forall (fun e => JsMap.get (fst e) (storedDescriptors proj) <> None)
     (storedResolutions proj) ->
   exists c', createLocatorsByIdentMap proj c = (c', Normal tt))
  /\
  ((exists dh h,
      In (dh, h) (storedResolutions proj) /\
      JsMap.get dh (storedDescriptors proj) = None) ->
   exists e, createLocatorsByIdentMap proj c = (c, Throw e)).
Proof.
  destruct (indexResolutions_complete (storedDescriptors proj) (storedResolutions proj)
              JsMap.empty) as [HA HB].
  unfold createLocatorsByIdentMap. split.
  - intros HF. destruct (HA HF) as [index ->]. eauto.
  - intros Hex. destruct (HB Hex) as [e ->]. eauto.
Qed.

Lemma X4_witness :
  (exists c', createLocatorsByIdentMap virtualProject (newCommand []) = (c', Normal tt))
  /\
  (exists e, createLocatorsByIdentMap danglingProject (newCommand [])
             = (newCommand [], Throw e)).
Proof.
  split.
  - apply (proj1 (X4_index_needs_every_descriptor virtualProject (newCommand []))).
    repeat constructor; discriminate.
  - apply (proj2 (X4_index_needs_every_descriptor danglingProject (newCommand []))).
    exists "gone@^1.0.0", "G". split; [right; left; reflexivity|reflexivity].
Defined.

(** ** One entry: filters, failures, frame *)

Lemma logExtends_refl (r : Report) : logExtends r r.
Proof. exists []. rewrite app_nil_r. reflexivity. Qed.

Lemma logExtends_trans (r1 r2 r3 : Report) :
  logExtends r1 r2 -> logExtends r2 r3 -> logExtends r1 r3.
Proof.
  intros [a Ha] [b Hb]. exists (a ++ b)%list. rewrite Hb, Ha, app_assoc. reflexivity.
Qed.

Lemma logExtends_emit (e : LogEntry) (r : Report) : logExtends r (emit e r).
Proof. exists [e]. reflexivity. Qed.

Lemma logExtends_reportWarningOnce (text : string) (r : Report) :
  logExtends r (reportWarningOnce text r).
Proof.
  unfold reportWarningOnce. destruct (JsSet.has text (reportedWarnings r)).
  - apply logExtends_refl.
  - exists [Warning text]. reflexivity.
Qed.

Lemma logExtends_logVerboseWarning (o : Options) (p m : string) (r : Report) :
  logExtends r (logVerboseWarning o p m r).
Proof.
  unfold logVerboseWarning. destruct (negb (verbose o)).
  - apply logExtends_refl.
  - apply logExtends_emit.
Qed.

Lemma logExtends_logVerboseInfo (o : Options) (p m : string) (r : Report) :
  logExtends r (logVerboseInfo o p m r).
Proof.
  unfold logVerboseInfo. destruct (negb (verbose o)).
  - apply logExtends_refl.
  - apply logExtends_emit.
Qed.

Lemma logVerbose_quiet (o : Options) (p m : string) (r : Report) :
  verbose o = false ->
  logVerboseWarning o p m r = r /\ logVerboseInfo o p m r = r.
Proof.
  intros H. unfold logVerboseWarning, logVerboseInfo. rewrite H. split; reflexivity.
Qed.

Lemma setDsLog_id (st : DepState) : setDsLog (fun r => r) st = st.
Proof. destruct st. reflexivity. Qed.

Section OneEntry.

Variable validRange : string -> bool.
Variable semverSatisfies : string -> string -> bool.
Variable semverGt : string -> string -> option bool.
Variable isVirtualLocator : Package -> bool.
Variable devirtualizeLocator : Package -> LocatorHash.
Variable o : Options.
Variable proj : Project.

Local Abbreviation candidates' :=
  (candidates semverSatisfies semverGt isVirtualLocator devirtualizeLocator proj).
Local Abbreviation sourcePackage' :=
  (sourcePackage isVirtualLocator devirtualizeLocator proj).
Local Abbreviation pinTo' :=
  (pinTo semverSatisfies semverGt isVirtualLocator devirtualizeLocator proj).
Local Abbreviation processDependency' :=
  (processDependency validRange semverSatisfies semverGt isVirtualLocator
     devirtualizeLocator o proj).

(** X5. Under [--only], an entry whose rendered reference, scope
    included, is not literally one of the given references gets no plan
    entry, whatever [--also] says and whatever its range is; without
    [--verbose] the call leaves no trace at all. *)
Theorem X5_only_restricts_to_listed_references (index : JsMap.t JsSet.t)
  (k : IdentHash) (dependency : Descriptor) (r workspaceCwd : string)
  (listed : list string) (st : DepState) :
  range dependency = Some r ->
  onlyPackages o = Some listed ->
  ~ In (depRef dependency) listed ->
  exists st',
    processDependency' index k dependency workspaceCwd st = (st', Normal tt) /\
    pinnableInWorkspace st' = pinnableInWorkspace st /\
    reportablePinsInWorkspace st' = reportablePinsInWorkspace st /\
    logExtends (ds_log st) (ds_log st') /\
    (verbose o = false -> st' = st).
Proof.
  intros Hr Ho Hnot. unfold processDependency. fold (depRef dependency). rewrite Hr.
  assert (omitted o (depRef dependency) = true) as Hom.
  { unfold omitted. rewrite Ho. apply negb_true_iff.
    destruct (includes listed (depRef dependency)) eqn:E; [|reflexivity].
    apply includes_In in E. contradiction. }
  rewrite Hom.
  destruct (needsPin validRange r), (explicitlyIncluded o dependency);
    cbv [negb andb bind ret modify]; eexists; (split; [reflexivity|]); simpl;
    (split; [reflexivity|]); (split; [reflexivity|]); split;
    try (intros Hq; destruct (logVerbose_quiet o workspaceCwd
                                ("Omit: " ++ depRef dependency) (ds_log st) Hq) as [-> _]);
    try (intros Hq; unfold logVerboseWarning, logVerboseInfo; rewrite Hq; simpl;
         destruct st; reflexivity);
    repeat (first [apply logExtends_logVerboseWarning
                  |apply logExtends_logVerboseInfo
                  |eapply logExtends_trans; [apply logExtends_logVerboseInfo|]
                  |eapply logExtends_trans; [apply logExtends_logVerboseWarning|]
                  |apply logExtends_refl]).
Qed.

End OneEntry.

Lemma jsstr_eqb_eq (a b : jsstr) : jsstr_eqb a b = true <-> a = b.
Proof.
  destruct a as [x|], b as [y|]; simpl; try (split; congruence).
  rewrite String.eqb_eq. split; congruence.
Qed.

Section Outcome.

Variable validRange : string -> bool.
Variable semverSatisfies : string -> string -> bool.
Variable semverGt : string -> string -> option bool.
Variable isVirtualLocator : Package -> bool.
Variable devirtualizeLocator : Package -> LocatorHash.
Variable o : Options.
Variable proj : Project.

Local Abbreviation candidates' :=
  (candidates semverSatisfies semverGt isVirtualLocator devirtualizeLocator proj).
Local Abbreviation sourcePackage' :=
  (sourcePackage isVirtualLocator devirtualizeLocator proj).
Local Abbreviation pinTo' :=
  (pinTo semverSatisfies semverGt isVirtualLocator devirtualizeLocator proj).
Local Abbreviation processDependency' :=
  (processDependency validRange semverSatisfies semverGt isVirtualLocator
     devirtualizeLocator o proj).

(** The state in which the selection starts. *)
Local Abbreviation afterInclude dependency r workspaceCwd st :=
  (if needsPin validRange r then st
   else setDsLog (logVerboseInfo o workspaceCwd ("Include: " ++ depRef dependency)) st).

(** The selection writes to the report only, and a target it returns is
    a stored package. *)
Lemma pinTo_frame (index : JsMap.t JsSet.t) (e : bool) (k : IdentHash)
  (r ref workspaceCwd : string) (st st1 : DepState)
  (out : completion (option Package)) :
  pinTo' index e k r ref workspaceCwd st = (st1, out) ->
  pinnableInWorkspace st1 = pinnableInWorkspace st /\
  reportablePinsInWorkspace st1 = reportablePinsInWorkspace st /\
  logExtends (ds_log st) (ds_log st1) /\
  (forall p, out = Normal (Some p) ->
     exists h, JsMap.get h (storedPackages proj) = Some p).
Proof.
  unfold pinTo, bind, lift, modify, ret, throw.
  destruct (JsMap.get k index) as [hashes|].
  - destruct (1 <? JsSet.size hashes)%nat.
    + destruct (candidates' e r hashes) as [cs|e0].
      * destruct (1 <? length cs)%nat, (0 <? numDupes cs)%nat; destruct cs as [|c cs];
          intros H; injection H as <- <-; simpl;
          repeat split; try apply logExtends_refl;
          try apply logExtends_reportWarningOnce;
          try discriminate;
          intros p Hp; injection Hp as Hp; eauto.
      * intros H. injection H as <- <-. repeat split; try apply logExtends_refl.
        discriminate.
    + destruct (JsSet.size hashes =? 1)%nat.
      * intros H. injection H as <- <-. repeat split; try apply logExtends_refl.
        intros p Hp. injection Hp as Hp. destruct hashes as [|h hs]; [discriminate|].
        eauto.
      * intros H. injection H as <- <-. simpl. repeat split; try discriminate.
        apply logExtends_emit.
  - intros H. injection H as <- <-. simpl. repeat split; try discriminate.
    apply logExtends_emit.
Qed.

(** Planning extends the report, and either leaves the plan as it is or
    writes the target, whose version is not the declared range. *)
Lemma planPin_outcome (e : bool) (k : IdentHash) (r ref workspaceCwd : string)
  (target : option Package) (st st' : DepState) (out : completion unit) :
  planPin o e k r ref workspaceCwd target st = (st', out) ->
  logExtends (ds_log st) (ds_log st') /\
  ((pinnableInWorkspace st' = pinnableInWorkspace st /\
    reportablePinsInWorkspace st' = reportablePinsInWorkspace st) \/
   (out = Normal tt /\
    exists p,
      target = Some p /\ version p <> Some r /\
      pinnableInWorkspace st' = JsMap.set k p (pinnableInWorkspace st) /\
      reportablePinsInWorkspace st' = JsMap.set ref (version p)
                                        (reportablePinsInWorkspace st))).
Proof.
  unfold planPin, throw, modify. destruct target as [p|].
  - destruct (jsstr_eqb (version p) (Some r)) eqn:E.
    + destruct e; intros H; injection H as <- <-; simpl; split; auto.
      * apply logExtends_emit.
      * apply logExtends_logVerboseWarning.
    + intros H. injection H as <- <-. simpl. split.
      * apply logExtends_logVerboseInfo.
      * right. split; [reflexivity|]. exists p. repeat split.
        intros Hv. apply jsstr_eqb_eq in Hv. congruence.
  - intros H. injection H as <- <-. split; [apply logExtends_refl|auto].
Qed.

(** Every way a call of [processDependency] can end. *)
Lemma processDependency_outcome (index : JsMap.t JsSet.t) (k : IdentHash)
  (dependency : Descriptor) (workspaceCwd : string) (st st' : DepState)
  (out : completion unit) :
  processDependency' index k dependency workspaceCwd st = (st', out) ->
  logExtends (ds_log st) (ds_log st') /\
  ((pinnableInWorkspace st' = pinnableInWorkspace st /\
    reportablePinsInWorkspace st' = reportablePinsInWorkspace st) \/
   (out = Normal tt /\
    exists p h r,
      range dependency = Some r /\
      JsMap.get h (storedPackages proj) = Some p /\ version p <> Some r /\
      pinnableInWorkspace st' = JsMap.set k p (pinnableInWorkspace st) /\
      reportablePinsInWorkspace st' = JsMap.set (depRef dependency) (version p)
                                        (reportablePinsInWorkspace st))).
Proof.
  intros H. destruct (range dependency) as [r|] eqn:Hr.
  2:{ unfold processDependency in H. rewrite Hr in H. unfold throw in H.
      injection H as <- <-. split; [apply logExtends_refl|auto]. }
  destruct (needsPin validRange r || explicitlyIncluded o dependency)%bool eqn:Hreach.
  - destruct (omitted o (depRef dependency)) eqn:Hom.
    + unfold processDependency in H. fold (depRef dependency) in H.
      rewrite Hr, Hom in H.
      destruct (needsPin validRange r), (explicitlyIncluded o dependency);
        try discriminate; cbv [negb andb bind ret modify] in H;
        injection H as <- <-; simpl; (split; [|auto]).
      * apply logExtends_logVerboseWarning.
      * apply logExtends_logVerboseWarning.
      * eapply logExtends_trans; [apply logExtends_logVerboseInfo|].
        apply logExtends_logVerboseWarning.
    + rewrite processDependency_selects with (r := r) in H by assumption.
      unfold bind in H.
      destruct (pinTo' index (explicitlyIncluded o dependency) k r (depRef dependency)
                  workspaceCwd (afterInclude dependency r workspaceCwd st))
        as [st1 [target|e]] eqn:E.
      * apply pinTo_frame in E. destruct E as (HP & HR & HL & Hstored).
        apply planPin_outcome in H. destruct H as [HL' Hcases].
        assert (logExtends (ds_log st) (ds_log st1)) as HL0.
        { eapply logExtends_trans; [|exact HL].
          destruct (needsPin validRange r); [apply logExtends_refl|].
          apply logExtends_logVerboseInfo. }
        assert (pinnableInWorkspace st1 = pinnableInWorkspace st /\
                reportablePinsInWorkspace st1 = reportablePinsInWorkspace st) as [HP0 HR0].
        { rewrite HP, HR. destruct (needsPin validRange r); split; reflexivity. }
        split; [eapply logExtends_trans; eassumption|].
        destruct Hcases as [[H1 H2]|[Hout (p & Ht & Hv & H1 & H2)]].
        -- left. split; congruence.
        -- right. split; [exact Hout|]. subst target.
           destruct (Hstored p eq_refl) as [h Hh].
           exists p, h, r. repeat split; try assumption; congruence.
      * apply pinTo_frame in E. destruct E as (HP & HR & HL & _).
        injection H as <- <-. split.
        -- eapply logExtends_trans; [|exact HL].
           destruct (needsPin validRange r); [apply logExtends_refl|].
           apply logExtends_logVerboseInfo.
        -- left. rewrite HP, HR. destruct (needsPin validRange r); split; reflexivity.
  - apply orb_false_iff in Hreach. destruct Hreach as [Hn He].
    unfold processDependency in H. fold (depRef dependency) in H.
    rewrite Hr, Hn, He in H. cbv [negb andb bind ret modify] in H.
    injection H as <- <-. simpl. split; [apply logExtends_logVerboseWarning|auto].
Qed.

(** X6. Whatever a call of [processDependency] does and however it ends,
    the plan keeps its entries for every other identity and the report
    map its entries for every other reference, the report keeps its lines
    and only grows at the end, and a call that throws has written to
    neither map. *)
Theorem X6_processDependency_frame (index : JsMap.t JsSet.t) (k : IdentHash)
  (dependency : Descriptor) (workspaceCwd : string) (st : DepState) :
  (forall k', k' <> k ->
     JsMap.get k' (pinnableInWorkspace
                     (fst (processDependency' index k dependency workspaceCwd st)))
     = JsMap.get k' (pinnableInWorkspace st)) /\
  (forall ref', ref' <> depRef dependency ->
     JsMap.get ref' (reportablePinsInWorkspace
                       (fst (processDependency' index k dependency workspaceCwd st)))
     = JsMap.get ref' (reportablePinsInWorkspace st)) /\
  logExtends (ds_log st)
    (ds_log (fst (processDependency' index k dependency workspaceCwd st))) /\
  (forall e, snd (processDependency' index k dependency workspaceCwd st) = Throw e ->
     pinnableInWorkspace (fst (processDependency' index k dependency workspaceCwd st))
     = pinnableInWorkspace st /\
     reportablePinsInWorkspace
       (fst (processDependency' index k dependency workspaceCwd st))
     = reportablePinsInWorkspace st).
Proof.
  destruct (processDependency' index k dependency workspaceCwd st) as [st' out] eqn:E.
  apply processDependency_outcome in E. destruct E as [HL Hcases]. simpl.
  split; [|split; [|split; [exact HL|]]].
  - intros k' Hne. destruct Hcases as [[-> _]|[_ (p & h & r & _ & _ & _ & -> & _)]];
      [reflexivity|]. apply JsMap_get_set_other. congruence.
  - intros ref' Hne. destruct Hcases as [[_ ->]|[_ (p & h & r & _ & _ & _ & _ & ->)]];
      [reflexivity|]. apply JsMap_get_set_other. congruence.
  - intros e He. destruct Hcases as [Hsame|[Hout _]]; [exact Hsame|congruence].
Qed.

(** X7. When a call of [processDependency] returns, it has either left
    both maps as they were, or written one entry to each: the plan maps
    the identity to a stored package whose version is not the declared
    range, and the report map maps the rendered reference to that
    version.  No entry is planned to the range it already has. *)
Theorem X7_planned_entries_change_the_range (index : JsMap.t JsSet.t)
  (k : IdentHash) (dependency : Descriptor) (workspaceCwd : string)
  (st st' : DepState) :
  processDependency' index k dependency workspaceCwd st = (st', Normal tt) ->
  (pinnableInWorkspace st' = pinnableInWorkspace st /\
   reportablePinsInWorkspace st' = reportablePinsInWorkspace st) \/
  (exists p h r,
     range dependency = Some r /\
     JsMap.get h (storedPackages proj) = Some p /\ version p <> Some r /\
     pinnableInWorkspace st' = JsMap.set k p (pinnableInWorkspace st) /\
     JsMap.get k (pinnableInWorkspace st') = Some p /\
     reportablePinsInWorkspace st' = JsMap.set (depRef dependency) (version p)
                                       (reportablePinsInWorkspace st)).
Proof.
  intros H. apply processDependency_outcome in H. destruct H as [_ Hcases].
  destruct Hcases as [Hsame|[_ (p & h & r & Hr & Hh & Hv & H1 & H2)]];
    [left; exact Hsame|].
  right. exists p, h, r. repeat split; try assumption.
  rewrite H1. apply JsMap_get_set_same.
Qed.

End Outcome.

Section Failures.

Variable validRange : string -> bool.
Variable semverSatisfies : string -> string -> bool.
Variable semverGt : string -> string -> option bool.
Variable isVirtualLocator : Package -> bool.
Variable devirtualizeLocator : Package -> LocatorHash.
Variable o : Options.
Variable proj : Project.

Local Abbreviation candidates' :=
  (candidates semverSatisfies semverGt isVirtualLocator devirtualizeLocator proj).
Local Abbreviation sourcePackage' :=
  (sourcePackage isVirtualLocator devirtualizeLocator proj).
Local Abbreviation pinTo' :=
  (pinTo semverSatisfies semverGt isVirtualLocator devirtualizeLocator proj).
Local Abbreviation processDependency' :=
  (processDependency validRange semverSatisfies semverGt isVirtualLocator
     devirtualizeLocator o proj).
Local Abbreviation afterInclude dependency r workspaceCwd st :=
  (if needsPin validRange r then st
   else setDsLog (logVerboseInfo o workspaceCwd ("Include: " ++ depRef dependency)) st).

(** X8. When the identity of an entry has several locators and no
    candidate passes the filter (no version satisfies the range of an
    entry that is not explicitly included, or no candidate has a
    version), the call throws on reading the first candidate: nothing is
    planned and no warning is reported for the entry. *)
Theorem X8_no_survivor_throws (index : JsMap.t JsSet.t) (k : IdentHash)
  (dependency : Descriptor) (r workspaceCwd : string) (hashes : JsSet.t)
  (sps : list (option Package)) (st : DepState) :
  range dependency = Some r ->
  (needsPin validRange r || explicitlyIncluded o dependency) = true ->
  omitted o (depRef dependency) = false ->
  JsMap.get k index = Some hashes ->
  (1 < JsSet.size hashes)%nat ->
  mapC sourcePackage' hashes = Normal sps ->
  survivors semverSatisfies (explicitlyIncluded o dependency) r sps = [] ->
  processDependency' index k dependency workspaceCwd st =
  (afterInclude dependency r workspaceCwd st,
   Throw (typeError "candidates[0] is undefined")).
Proof.
  intros Hr Hreach Hom Hk Hsize Hm Hs.
  rewrite processDependency_selects with (r := r) by assumption.
  assert (candidates' (explicitlyIncluded o dependency) r hashes = Normal []) as Hcs.
  { unfold candidates. rewrite Hm. simpl cbind. rewrite Hs. reflexivity. }
  unfold bind. erewrite pinTo_several by eassumption. reflexivity.
Qed.

(** The first locator without a stored package stops the collection of
    the candidates. *)
Lemma mapC_sourcePackage_throws (before after : list LocatorHash) (h' : LocatorHash) :
  (forall h, In h before -> JsMap.get h (storedPackages proj) <> None) ->
  JsMap.get h' (storedPackages proj) = None ->
  mapC sourcePackage' (before ++ h' :: after) =
  Throw (typeError ("Can't find package for locator hash '" ++ h' ++ "'")).
Proof.
  intros Hbefore Hn. induction before as [|h0 before IH]; simpl.
  - unfold sourcePackage. rewrite Hn. reflexivity.
  - unfold sourcePackage at 1.
    destruct (JsMap.get h0 (storedPackages proj)) as [p|] eqn:E;
      [|exfalso; apply (Hbefore h0 (or_introl eq_refl)); exact E].
    rewrite IH by (intros h Hin; apply Hbefore; right; exact Hin).
    destruct (isVirtualLocator p); reflexivity.
Qed.

(** X9. A locator of the index for which no package is stored makes the
    call throw.  Among several locators the error names the first
    locator, in the order of the index, that has no stored package,
    whatever comes after it, and it is raised before anything is
    filtered, sorted or reported; with a single locator the call throws
    on reading the version of the target it did not find. *)
Theorem X9_locator_without_package_throws (index : JsMap.t JsSet.t)
  (k : IdentHash) (dependency : Descriptor) (r workspaceCwd : string)
  (before after : list LocatorHash) (h' : LocatorHash) (st : DepState) :
  range dependency = Some r ->
  (needsPin validRange r || explicitlyIncluded o dependency) = true ->
  omitted o (depRef dependency) = false ->
  JsMap.get k index = Some (before ++ h' :: after)%list ->
  (forall h, In h before -> JsMap.get h (storedPackages proj) <> None) ->
  JsMap.get h' (storedPackages proj) = None ->
  ((1 < JsSet.size (before ++ h' :: after)%list)%nat ->
   processDependency' index k dependency workspaceCwd st =
   (afterInclude dependency r workspaceCwd st,
    Throw (typeError ("Can't find package for locator hash '" ++ h' ++ "'"))))
  /\
  (JsSet.size (before ++ h' :: after)%list = 1%nat ->
   before = [] /\ after = [] /\
   processDependency' index k dependency workspaceCwd st =
   (afterInclude dependency r workspaceCwd st, Throw (typeError "pinTo is undefined"))).
Proof.
  intros Hr Hreach Hom Hk Hbefore Hn. split.
  - intros Hsize.
    rewrite processDependency_selects with (r := r) by assumption.
    unfold bind, pinTo. rewrite Hk. apply Nat.ltb_lt in Hsize. rewrite Hsize.
    unfold bind, lift, candidates.
    rewrite (@mapC_sourcePackage_throws before after h' Hbefore Hn). reflexivity.
  - intros Hsize.
    assert (before = [] /\ after = []) as [-> ->].
    { destruct before as [|b0 [|b1 bs]]; destruct after as [|a0 l]; try discriminate.
      split; reflexivity. }
    split; [reflexivity|]. split; [reflexivity|].
    rewrite processDependency_selects with (r := r) by assumption.
    unfold bind. erewrite pinTo_single by eassumption. rewrite Hn. reflexivity.
Qed.

End Failures.

Lemma X5_witness :
  exists st',
    Mini.processDependency onlyLib twoProject twoIndex "other" other10 "/A" emptyDepState
    = (st', Normal tt) /\
    pinnableInWorkspace st' = pinnableInWorkspace emptyDepState /\
    reportablePinsInWorkspace st' = reportablePinsInWorkspace emptyDepState /\
    logExtends (ds_log emptyDepState) (ds_log st') /\
    (verbose onlyLib = false -> st' = emptyDepState).
Proof.
  apply (@X5_only_restricts_to_listed_references Mini.validRange Mini.semverSatisfies
           Mini.semverGt Mini.isVirtualLocator Mini.devirtualizeLocator onlyLib
           twoProject twoIndex "other" other10 "^1.0.0" "/A" ["lib:^2.0.0"]
           emptyDepState).
  - reflexivity.
  - reflexivity.
  - intros [H|[]]. discriminate.
Defined.

Lemma X7_witness :
  exists p h r,
    range lib20 = Some r /\
    JsMap.get h (storedPackages singleProject) = Some p /\ version p <> Some r /\
    [("lib", pkg "L3" "3.0.0")] = JsMap.set "lib" p (pinnableInWorkspace emptyDepState) /\
    JsMap.get "lib" [("lib", pkg "L3" "3.0.0")] = Some p /\
    [("lib:^2.0.0", Some "3.0.0")]
    = JsMap.set (depRef lib20) (version p) (reportablePinsInWorkspace emptyDepState).
Proof.
  destruct (@X7_planned_entries_change_the_range Mini.validRange Mini.semverSatisfies
              Mini.semverGt Mini.isVirtualLocator Mini.devirtualizeLocator noOptions
              singleProject [("lib", ["L3"])] "lib" lib20 "/A" emptyDepState
              (mkDepState (mkReport [] []) [("lib", pkg "L3" "3.0.0")]
                 [("lib:^2.0.0", Some "3.0.0")]) eq_refl)
    as [[H _]|H]; [discriminate H|exact H].
Defined.

Lemma X8_witness :
  Mini.validRange "^3.0.0" = true /\
  Mini.processDependency noOptions twoProject twoIndex "lib" lib30 "/A" emptyDepState =
  (emptyDepState, Throw (typeError "candidates[0] is undefined")).
Proof.
  split; [reflexivity|].
  apply (@X8_no_survivor_throws Mini.validRange Mini.semverSatisfies Mini.semverGt
           Mini.isVirtualLocator Mini.devirtualizeLocator noOptions twoProject
           twoIndex "lib" lib30 "^3.0.0" "/A" ["X"; "Y"] [Some pkgX; Some pkgY]
           emptyDepState); try reflexivity.
  simpl. lia.
Defined.

Lemma X9_witness :
  Mini.processDependency noOptions twoProject holedIndex "lib" lib20 "/A" emptyDepState =
  (emptyDepState,
   Throw (typeError ("Can't find package for locator hash '" ++ "nowhere" ++ "'")))
  /\
  ([] = @nil LocatorHash /\ [] = @nil LocatorHash /\
   Mini.processDependency noOptions twoProject [("lib", ["nowhere"])] "lib" lib20 "/A"
     emptyDepState = (emptyDepState, Throw (typeError "pinTo is undefined"))).
Proof.
  split.
  - destruct (@X9_locator_without_package_throws Mini.validRange
                Mini.semverSatisfies Mini.semverGt Mini.isVirtualLocator
                Mini.devirtualizeLocator noOptions twoProject holedIndex "lib"
                lib20 "^2.0.0" "/A" ["X"] ["Y"] "nowhere" emptyDepState)
      as [H _];
      [reflexivity|reflexivity|reflexivity|reflexivity| |reflexivity|].
    + intros h [<-|[]]. discriminate.
    + apply H. simpl. lia.
  - destruct (@X9_locator_without_package_throws Mini.validRange
                Mini.semverSatisfies Mini.semverGt Mini.isVirtualLocator
                Mini.devirtualizeLocator noOptions twoProject
                [("lib", ["nowhere"])] "lib" lib20 "^2.0.0" "/A" [] []
                "nowhere" emptyDepState)
      as [_ H];
      [reflexivity|reflexivity|reflexivity|reflexivity| |reflexivity|].
    + intros h [].
    + apply H. reflexivity.
Defined.

(** ** Applying the plan *)

Lemma setRange_same (d : Descriptor) : setRange d (range d) = d.
Proof. destruct d. reflexivity. Qed.

Lemma curEntry_set_dependencies (m : Manifest) (k k' : IdentHash) (d : Descriptor) :
  JsMap.get k (dependencies m) <> None ->
  curEntry (mkManifest (manifest_name m) (JsMap.set k d (dependencies m))
              (devDependencies m)) k' =
  if String.eqb k' k then Some d else curEntry m k'.
Proof.
  intros Hin. unfold curEntry. simpl.
  destruct (String.eqb_spec k' k) as [->|Hne].
  - rewrite JsMap_get_set_same. reflexivity.
  - rewrite JsMap_get_set_other by congruence. reflexivity.
Qed.

Lemma curEntry_set_devDependencies (m : Manifest) (k k' : IdentHash) (d : Descriptor) :
  JsMap.get k (dependencies m) = None ->
  curEntry (mkManifest (manifest_name m) (dependencies m)
              (JsMap.set k d (devDependencies m))) k' =
  if String.eqb k' k then Some d else curEntry m k'.
Proof.
  intros Hn. unfold curEntry. simpl.
  destruct (String.eqb_spec k' k) as [->|Hne].
  - rewrite Hn, JsMap_get_set_same. reflexivity.
  - rewrite JsMap_get_set_other by congruence. reflexivity.
Qed.

(** One planned pin, applied to a manifest that lists the identity. *)
Lemma pinEntry_step (path : string) (n : nat) (k : IdentHash)
  (p : Package) (s : PinState) (d : Descriptor) :
  curEntry (ps_manifest s) k = Some d ->
  exists s',
    pinEntry path n (k, p) s =
    (s', Normal (if jsstr_eqb (range d) (version p) then n else (n + 1)%nat)) /\
    curEntry (ps_manifest s') k = Some (setRange d (version p)) /\
    (forall k', k' <> k -> curEntry (ps_manifest s') k' = curEntry (ps_manifest s) k') /\
    (JsMap.get k (dependencies (ps_manifest s)) <> None ->
     devDependencies (ps_manifest s') = devDependencies (ps_manifest s)) /\
    (jsstr_eqb (range d) (version p) = true -> ps_manifest s' = ps_manifest s) /\
    logExtends (ps_log s) (ps_log s') /\
    ps_disk s' = ps_disk s.
Proof.
  intros Hcur. unfold curEntry in Hcur. unfold pinEntry. cbv [fst snd].
  destruct (JsMap.get k (dependencies (ps_manifest s))) as [d0|] eqn:Ed.
  - injection Hcur as ->.
    assert (logExtends (ps_log s)
              match JsMap.get k (devDependencies (ps_manifest s)) with
              | Some _ =>
                  reportWarning
                    ("Possible package.json conflict between devDependencies and dependencies in "
                     ++ name d ++ " at " ++ path) (ps_log s)
              | None => ps_log s
              end) as HL.
    { destruct (JsMap.get k (devDependencies (ps_manifest s)));
        [apply logExtends_emit|apply logExtends_refl]. }
    destruct (jsstr_eqb (range d) (version p)) eqn:E.
    + eexists. split; [reflexivity|]. simpl.
      apply jsstr_eqb_eq in E. rewrite <- E, setRange_same.
      repeat split; auto. unfold curEntry. rewrite Ed. reflexivity.
    + eexists. split; [reflexivity|]. simpl.
      split; [|split; [|split; [reflexivity|split; [discriminate|split; [|reflexivity]]]]].
      * rewrite curEntry_set_dependencies by congruence.
        rewrite String.eqb_refl. reflexivity.
      * intros k' Hne. rewrite curEntry_set_dependencies by congruence.
        destruct (String.eqb_spec k' k); [contradiction|reflexivity].
      * eapply logExtends_trans; [exact HL|apply logExtends_emit].
  - rewrite Hcur.
    destruct (jsstr_eqb (range d) (version p)) eqn:E.
    + eexists. split; [reflexivity|]. simpl.
      apply jsstr_eqb_eq in E. rewrite <- E, setRange_same.
      repeat split; auto.
      * unfold curEntry. rewrite Ed. exact Hcur.
      * apply logExtends_refl.
    + eexists. split; [reflexivity|]. simpl.
      split; [|split; [|split; [intros F; congruence
                               |split; [discriminate|split; [|reflexivity]]]]].
      * rewrite curEntry_set_devDependencies by assumption.
        rewrite String.eqb_refl. reflexivity.
      * intros k' Hne. rewrite curEntry_set_devDependencies by assumption.
        destruct (String.eqb_spec k' k); [contradiction|reflexivity].
      * apply logExtends_emit.
Qed.

(** X10. Applying one planned pin to a manifest that lists the identity
    never throws.  Afterwards the entry the pin is written to (the one in
    [dependencies] if the identity is listed there, else the one in
    [devDependencies]) has the planned version as its range and is
    otherwise what it was, every entry of another identity is untouched,
    the counter went up by one exactly if the range was not that version
    before, and no file was written. *)
Theorem X10_pinEntry_writes_the_version (path : string) (n : nat) (k : IdentHash)
  (p : Package) (s : PinState) (d : Descriptor) :
  curEntry (ps_manifest s) k = Some d ->
  exists s',
    pinEntry path n (k, p) s =
    (s', Normal (if jsstr_eqb (range d) (version p) then n else (n + 1)%nat)) /\
    curEntry (ps_manifest s') k = Some (setRange d (version p)) /\
    (forall k', k' <> k -> curEntry (ps_manifest s') k' = curEntry (ps_manifest s) k') /\
    (JsMap.get k (dependencies (ps_manifest s)) <> None ->
     devDependencies (ps_manifest s') = devDependencies (ps_manifest s)) /\
    (jsstr_eqb (range d) (version p) = true -> ps_manifest s' = ps_manifest s) /\
    logExtends (ps_log s) (ps_log s') /\
    ps_disk s' = ps_disk s.
Proof. apply pinEntry_step. Qed.

Lemma X10_witness :
  exists s',
    pinEntry "/A/package.json" 0 ("lib", pkgX) plainPinState =
    (s', Normal (if jsstr_eqb (range lib20) (version pkgX) then 0 else (0 + 1))%nat) /\
    curEntry (ps_manifest s') "lib" = Some (setRange lib20 (version pkgX)) /\
    (forall k', k' <> "lib" ->
       curEntry (ps_manifest s') k' = curEntry (ps_manifest plainPinState) k') /\
    (JsMap.get "lib" (dependencies (ps_manifest plainPinState)) <> None ->
     devDependencies (ps_manifest s') = devDependencies (ps_manifest plainPinState)) /\
    (jsstr_eqb (range lib20) (version pkgX) = true ->
     ps_manifest s' = ps_manifest plainPinState) /\
    logExtends (ps_log plainPinState) (ps_log s') /\
    ps_disk s' = ps_disk plainPinState.
Proof.
  apply (X10_pinEntry_writes_the_version "/A/package.json" 0 "lib" pkgX plainPinState).
  reflexivity.
Defined.

(** A pin of an identity that the manifest does not list throws, and
    changes nothing. *)
Lemma pinEntry_absent (path : string) (n : nat) (k : IdentHash) (p : Package)
  (s : PinState) :
  curEntry (ps_manifest s) k = None ->
  pinEntry path n (k, p) s =
  (s, Throw (typeError "Cannot convert undefined or null to object")).
Proof.
  unfold curEntry, pinEntry. cbv [fst snd].
  destruct (JsMap.get k (dependencies (ps_manifest s))); [discriminate|].
  intros ->. destruct s. reflexivity.
Qed.

Lemma foldM_cons (S A B : Type) (body : B -> A -> M S B) (acc : B) (x : A)
  (rest : list A) (s : S) :
  foldM body acc (x :: rest) s =
  match body acc x s with
  | (s', Normal acc') => foldM body acc' rest s'
  | (s', Throw e) => (s', Throw e)
  end.
Proof. reflexivity. Qed.

(** What [pinWorkspace] does once the loop over the plan has ended. *)
Lemma pinWorkspace_after (exportManifest : Manifest -> Manifest)
  (o : Options) (workspaceCwd : string)
  (plan : JsMap.t Package) (s s' : PinState) (n : nat) :
  foldM (pinEntry (manifestPath workspaceCwd)) 0%nat plan s = (s', Normal n) ->
  exists s1,
    pinWorkspace exportManifest o workspaceCwd (Some plan) s = (s1, Normal tt) /\
    ps_manifest s1 = ps_manifest s' /\
    ps_disk s1 =
    (if (0 <? n)%nat && negb (dryRun o)
     then JsMap.set (manifestPath workspaceCwd) (exportManifest (ps_manifest s'))
            (ps_disk s')
     else ps_disk s') /\
    ps_log s1 =
    (if (0 <? n)%nat
     then reportInfo (pinnedSummary (dryRun o) n (manifestPath workspaceCwd)) (ps_log s')
     else ps_log s').
Proof.
  intros E. unfold pinWorkspace, bind. rewrite E.
  destruct (0 <? n)%nat; [|exists s'; repeat split].
  destruct (dryRun o); eexists; repeat split.
Qed.

(** The counter never goes down, and it stands still only if the
    manifest does. *)
Lemma foldM_pinEntry_counter (path : string) (plan : JsMap.t Package) :
  forall n s s' n',
    foldM (pinEntry path) n plan s = (s', Normal n') ->
    (n <= n')%nat /\ (n' = n -> ps_manifest s' = ps_manifest s) /\
    ps_disk s' = ps_disk s /\ logExtends (ps_log s) (ps_log s').
Proof.
  induction plan as [|[k p] plan IH]; intros n s s' n' H.
  - injection H as <- <-. repeat split; auto. apply logExtends_refl.
  - rewrite foldM_cons in H.
    destruct (curEntry (ps_manifest s) k) as [d|] eqn:Ec.
    + destruct (pinEntry_step path n k p s Ec) as (s1 & E & _ & _ & _ & Hsame & HL & HD).
      unfold IdentHash in *. rewrite E in H. apply IH in H. destruct H as (Hle & Hm & HD' & HL').
      destruct (jsstr_eqb (range d) (version p)).
      * repeat split; try congruence.
        -- intros Hn. rewrite (Hm Hn). apply Hsame. reflexivity.
        -- eapply logExtends_trans; eassumption.
      * repeat split; try congruence; try lia.
        eapply logExtends_trans; eassumption.
    + pose proof (pinEntry_absent path n k p s Ec) as E.
      unfold IdentHash in *. rewrite E in H. discriminate.
Qed.

(** A plan that is already in the manifest changes nothing. *)
Lemma foldM_pinEntry_applied (path : string) (plan : JsMap.t Package) :
  forall n s,
    applied plan (ps_manifest s) ->
    exists s',
      foldM (pinEntry path) n plan s = (s', Normal n) /\
      ps_manifest s' = ps_manifest s /\ ps_disk s' = ps_disk s.
Proof.
  induction plan as [|[k p] plan IH]; intros n s Ha.
  - exists s. repeat split.
  - rewrite foldM_cons. destruct (Ha k p (or_introl eq_refl)) as (d & Ec & Hr).
    destruct (pinEntry_step path n k p s Ec) as (s1 & E & _ & _ & _ & Hsame & _ & HD).
    assert (jsstr_eqb (range d) (version p) = true) as Heq
      by (apply jsstr_eqb_eq; exact Hr).
    rewrite Heq in E. specialize (Hsame Heq).
    unfold IdentHash in *. rewrite E.
    destruct (IH n s1) as (s' & E' & Hm & HD').
    { intros k' p' Hin. rewrite Hsame. apply Ha. right. exact Hin. }
    exists s'. split; [exact E'|]. split; congruence.
Qed.

(** A plan with one pin per identity, all listed in the manifest, goes
    through, and leaves every one of its pins in the manifest. *)
Lemma foldM_pinEntry_applies (path : string) (plan : JsMap.t Package) :
  forall n s,
    NoDup (map fst plan) ->
    (forall k p, In (k, p) plan -> curEntry (ps_manifest s) k <> None) ->
    exists s' n',
      foldM (pinEntry path) n plan s = (s', Normal n') /\
      applied plan (ps_manifest s') /\
      (forall k', ~ In k' (map fst plan) ->
         curEntry (ps_manifest s') k' = curEntry (ps_manifest s) k').
Proof.
  induction plan as [|[k p] plan IH]; intros n s Hnd Hpres.
  - exists s, n. repeat split; auto. intros k p [].
  - rewrite foldM_cons. apply NoDup_cons_iff in Hnd. destruct Hnd as [Hnotin Hnd]. simpl in Hnotin.
    destruct (curEntry (ps_manifest s) k) as [d|] eqn:Ec;
      [|exfalso; apply (Hpres k p (or_introl eq_refl)); exact Ec].
    destruct (pinEntry_step path n k p s Ec) as (s1 & E & Hk & Hothers & _).
    unfold IdentHash in E |- *. rewrite E.
    destruct (IH (if jsstr_eqb (range d) (version p) then n else (n + 1)%nat) s1 Hnd)
      as (s' & n' & E' & Happ & Hframe).
    { intros k' p' Hin. rewrite Hothers.
      - apply (Hpres k' p'). right. exact Hin.
      - intros ->. apply Hnotin. apply in_map_iff. exists (k, p'). auto. }
    exists s', n'. split; [exact E'|]. split.
    + intros k' p' [Heq|Hin].
      * injection Heq as <- <-. exists (setRange d (version p)).
        split; [|reflexivity]. rewrite Hframe by exact Hnotin. exact Hk.
      * apply Happ. exact Hin.
    + intros k' Hk'. rewrite Hframe by (intros Hin; apply Hk'; right; exact Hin).
      apply Hothers. intros ->. apply Hk'. left. reflexivity.
Qed.

(** X11. A plan with one pin per identity, each listed in the manifest,
    is applied to the workspace without a throw, and afterwards every
    planned identity has the planned version as the range of the entry
    the pin is written to.  Applying the same plan to the result once
    more changes neither the manifest nor the files. *)
Theorem X11_applying_a_plan_twice (exportManifest : Manifest -> Manifest)
  (o : Options) (workspaceCwd : string)
  (plan : JsMap.t Package) (s : PinState) :
  NoDup (map fst plan) ->
  (forall k p, In (k, p) plan -> curEntry (ps_manifest s) k <> None) ->
  exists s1,
    pinWorkspace exportManifest o workspaceCwd (Some plan) s = (s1, Normal tt) /\
    applied plan (ps_manifest s1) /\
    exists s2,
      pinWorkspace exportManifest o workspaceCwd (Some plan) s1 = (s2, Normal tt) /\
      ps_manifest s2 = ps_manifest s1 /\ ps_disk s2 = ps_disk s1.
Proof.
  intros Hnd Hpres.
  destruct (@foldM_pinEntry_applies (manifestPath workspaceCwd) plan 0%nat s Hnd Hpres)
    as (s' & n' & E & Happ & _).
  destruct (@pinWorkspace_after exportManifest o workspaceCwd plan s _ _ E)
    as (s1 & E1 & Hm1 & _).
  exists s1. split; [exact E1|]. split; [rewrite Hm1; exact Happ|].
  destruct (@foldM_pinEntry_applied (manifestPath workspaceCwd) plan 0%nat s1)
    as (s2' & E2 & Hm2 & Hd2).
  { rewrite Hm1. exact Happ. }
  destruct (@pinWorkspace_after exportManifest o workspaceCwd plan s1 _ _ E2) as (s2 & E3 & Hm3 & Hd3 & _).
  exists s2. split; [exact E3|]. simpl in Hd3. split; congruence.
Qed.

Lemma X11_witness :
  exists s1,
    pinWorkspace Mini.exportManifest noOptions "/A" (Some plainPlan) plainPinState = (s1, Normal tt) /\
    applied plainPlan (ps_manifest s1) /\
    exists s2,
      pinWorkspace Mini.exportManifest noOptions "/A" (Some plainPlan) s1 = (s2, Normal tt) /\
      ps_manifest s2 = ps_manifest s1 /\ ps_disk s2 = ps_disk s1.
Proof.
  apply (X11_applying_a_plan_twice Mini.exportManifest noOptions "/A" plainPlan plainPinState).
  - simpl. constructor; [|constructor; [|constructor]].
    + intros [H|[]]; discriminate.
    + intros [].
  - intros k p [H|[H|[]]]; injection H as <- <-; discriminate.
Defined.

(** X12. Without [--dry], when the loop over a workspace ends with no
    planned pin having changed a range, nothing is persisted: the
    manifest, the files and the report are as the loop over the plan left
    them, and the manifest and the files are what they were before.
    When the loop has counted at least one pin, the host's export of the
    manifest as it is in memory at the end is written to the manifest
    file of the workspace, no other file is written, and the closing
    line reports the count. *)
Theorem X12_persists_the_final_manifest (exportManifest : Manifest -> Manifest)
  (o : Options) (workspaceCwd : string)
  (plan : JsMap.t Package) (s s' : PinState) :
  dryRun o = false ->
  pinWorkspace exportManifest o workspaceCwd (Some plan) s = (s', Normal tt) ->
  exists s1 numPinned,
    foldM (pinEntry (manifestPath workspaceCwd)) 0%nat plan s = (s1, Normal numPinned) /\
    ps_manifest s' = ps_manifest s1 /\
    (numPinned = 0%nat ->
     s' = s1 /\ ps_manifest s' = ps_manifest s /\ ps_disk s' = ps_disk s) /\
    ((0 < numPinned)%nat ->
     ps_disk s' =
       JsMap.set (manifestPath workspaceCwd) (exportManifest (ps_manifest s')) (ps_disk s) /\
     JsMap.get (manifestPath workspaceCwd) (ps_disk s')
       = Some (exportManifest (ps_manifest s')) /\
     (forall path', manifestPath workspaceCwd <> path' ->
        JsMap.get path' (ps_disk s') = JsMap.get path' (ps_disk s)) /\
     ps_log s' =
       reportInfo (pinnedSummary false numPinned (manifestPath workspaceCwd)) (ps_log s1)).
Proof.
  intros Hdry H.
  destruct (foldM (pinEntry (manifestPath workspaceCwd)) 0%nat plan s)
    as [s1 [n|e]] eqn:E;
    [|unfold pinWorkspace, bind in H; rewrite E in H; discriminate].
  exists s1, n. split; [reflexivity|].
  unfold pinWorkspace, bind in H. rewrite E, Hdry in H.
  apply foldM_pinEntry_counter in E. destruct E as (_ & Hsame & HD & _).
  destruct (0 <? n)%nat eqn:En.
  - simpl in H. injection H as <-. simpl. split; [reflexivity|]. split.
    + intros Hn. subst n. discriminate.
    + intros _. rewrite HD. split; [reflexivity|].
      split; [apply JsMap_get_set_same|].
      split; [|reflexivity]. intros path' Hne. apply JsMap_get_set_other. exact Hne.
  - apply Nat.ltb_ge in En. unfold ret in H. injection H as <-.
    split; [reflexivity|]. split.
    + intros Hn. split; [reflexivity|]. split; [apply Hsame; exact Hn|exact HD].
    + intros Hpos. exfalso. apply (Nat.lt_irrefl 0). eapply Nat.lt_le_trans; eassumption.
Qed.

Lemma X12_witness :
  exists s1 numPinned,
    foldM (pinEntry (manifestPath "/A")) 0%nat [("lib", pkgX)] unsortedPinState
      = (s1, Normal numPinned) /\
    unsortedPinned = ps_manifest s1 /\
    (numPinned = 0%nat ->
     mkPinState
       (reportInfo (pinnedSummary false 1 "/A/package.json")
          (ps_log (fst (pinEntry "/A/package.json" 0%nat ("lib", pkgX) unsortedPinState))))
       unsortedPinned [("/A/package.json", unsortedWritten)] = s1 /\
     unsortedPinned = ps_manifest unsortedPinState /\
     [("/A/package.json", unsortedWritten)] = ps_disk unsortedPinState) /\
    ((0 < numPinned)%nat ->
     [("/A/package.json", unsortedWritten)] =
       JsMap.set (manifestPath "/A") (Mini.exportManifest unsortedPinned)
         (ps_disk unsortedPinState) /\
     JsMap.get (manifestPath "/A") [("/A/package.json", unsortedWritten)]
       = Some (Mini.exportManifest unsortedPinned) /\
     (forall path', manifestPath "/A" <> path' ->
        JsMap.get path' [("/A/package.json", unsortedWritten)]
        = JsMap.get path' (ps_disk unsortedPinState)) /\
     reportInfo (pinnedSummary false 1 "/A/package.json")
       (ps_log (fst (pinEntry "/A/package.json" 0%nat ("lib", pkgX) unsortedPinState)))
     = reportInfo (pinnedSummary false numPinned (manifestPath "/A")) (ps_log s1)).
Proof.
  apply (@X12_persists_the_final_manifest Mini.exportManifest noOptions "/A"
           [("lib", pkgX)] unsortedPinState
           (mkPinState
              (reportInfo (pinnedSummary false 1 "/A/package.json")
                 (ps_log (fst (pinEntry "/A/package.json" 0%nat ("lib", pkgX)
                                 unsortedPinState))))
              unsortedPinned [("/A/package.json", unsortedWritten)])).
  - reflexivity.
  - reflexivity.
Defined.

(* ================================================================== *)
(** ** From the plan to the manifests *)
(* ================================================================== *)

Lemma forEach_cons (S A : Type) (x : A) (rest : list A) (body : A -> M S unit)
  (s : S) :
  forEach (x :: rest) body s =
  match body x s with
  | (s', Normal _) => forEach rest body s'
  | (s', Throw e) => (s', Throw e)
  end.
Proof. reflexivity. Qed.

Lemma curEntry_listed (m : Manifest) (k : IdentHash) (d : Descriptor) :
  In (k, d) (dependencies m) \/ In (k, d) (devDependencies m) ->
  curEntry m k <> None.
Proof.
  unfold curEntry. intros H.
  destruct (JsMap.get k (dependencies m)) as [d0|] eqn:E; [discriminate|].
  destruct H as [H|H].
  - apply JsMap_get_None_keys in E. exfalso. apply E.
    apply in_map_iff. exists (k, d). auto.
  - intros F. apply JsMap_get_None_keys in F. apply F.
    apply in_map_iff. exists (k, d). auto.
Qed.

Section Planning.

Variable validRange : string -> bool.
Variable semverSatisfies : string -> string -> bool.
Variable semverGt : string -> string -> option bool.
Variable isVirtualLocator : Package -> bool.
Variable devirtualizeLocator : Package -> LocatorHash.
Variable o : Options.
Variable proj : Project.

Local Abbreviation processDependency' :=
  (processDependency validRange semverSatisfies semverGt isVirtualLocator
     devirtualizeLocator o proj).
Local Abbreviation findPinnableInWorkspace' :=
  (findPinnableInWorkspace validRange semverSatisfies semverGt isVirtualLocator
     devirtualizeLocator o proj).
Local Abbreviation findPinnableDependencies' :=
  (findPinnableDependencies validRange semverSatisfies semverGt isVirtualLocator
     devirtualizeLocator o proj).

(** The plan of a workspace while its entries are processed: one pin
    per identity, each planned for an entry that [P] holds of. *)
Local Abbreviation planOf P st :=
  (NoDup (map fst (pinnableInWorkspace st)) /\
   forall k p, In (k, p) (pinnableInWorkspace st) ->
     exists d r, P k d /\ range d = Some r /\ version p <> Some r /\
       exists h, JsMap.get h (storedPackages proj) = Some p).

Lemma forEach_processDependency_plan (P : IdentHash -> Descriptor -> Prop)
  (index : JsMap.t JsSet.t) (workspaceCwd : string)
  (l : list (IdentHash * Descriptor)) :
  (forall k d, In (k, d) l -> P k d) ->
  forall st st' out,
    forEach l (fun e => processDependency' index (fst e) (snd e) workspaceCwd) st
    = (st', out) ->
    planOf P st -> planOf P st'.
Proof.
  induction l as [|[k d] l IH]; intros HP st st' out H Hinv.
  - injection H as <- _. exact Hinv.
  - rewrite forEach_cons in H. cbv [fst snd] in H.
    destruct (processDependency' index k d workspaceCwd st) as [st1 out1] eqn:E.
    assert (planOf P st1) as Hinv1.
    { apply processDependency_outcome in E. destruct E as [_ Hcases].
      destruct Hinv as [Hnd Hall].
      destruct Hcases as [[-> _]|[_ (p & h & r & Hr & Hst & Hv & -> & _)]];
        [split; assumption|].
      split; [apply JsMap_set_NoDup; exact Hnd|].
      intros k' p' Hin. apply JsMap_set_In in Hin. destruct Hin as [[-> ->]|Hin].
      - exists d, r. split; [apply HP; left; reflexivity|].
        split; [exact Hr|]. split; [exact Hv|]. exists h. exact Hst.
      - apply Hall. exact Hin. }
    destruct out1 as [u|e].
    + apply (IH (fun k' d' Hin => HP k' d' (or_intror Hin)) st1 st' out H Hinv1).
    + injection H as <- _. exact Hinv1.
Qed.

(** One workspace of the planning loop. *)
Lemma findPinnableInWorkspace_plan (w : Workspace) (c c' : Command)
  (out : completion unit) :
  findPinnableInWorkspace' w c = (c', out) ->
  workspaces c' = workspaces c /\
  exists plan,
    pinnableByWorkspaceCwd c' = JsMap.set (cwd w) plan (pinnableByWorkspaceCwd c) /\
    NoDup (map fst plan) /\
    forall k p, In (k, p) plan -> plannedFrom o proj (manifest w) k p.
Proof.
  unfold findPinnableInWorkspace. intros H. injection H as <- _. simpl.
  split; [reflexivity|]. eexists. split; [reflexivity|].
  set (P := fun (k : IdentHash) (d : Descriptor) =>
              (onlyDevDependencies o = false /\ In (k, d) (dependencies (manifest w))) \/
              ((onlyDevDependencies o = true \/ ignoreDevDependencies o = false) /\
               In (k, d) (devDependencies (manifest w)))).
  match goal with
  | |- context [pinnableInWorkspace (fst ?res)] =>
      assert (planOf P (fst res)) as Hinv
  end.
  { unfold bind.
    assert (planOf P (mkDepState (log c) JsMap.empty JsMap.empty)) as H0.
    { split; [constructor|]. intros k p []. }
    revert H0. generalize (mkDepState (log c) JsMap.empty JsMap.empty). intros st0 H0.
    match goal with
    | |- context [(if negb (onlyDevDependencies o) then ?f else ret tt) st0] =>
        destruct ((if negb (onlyDevDependencies o) then f else ret tt) st0)
          as [st1 out1] eqn:E1
    end.
    assert (planOf P st1) as H1.
    { destruct (onlyDevDependencies o) eqn:Hod; simpl in E1.
      - injection E1 as <- _. exact H0.
      - eapply forEach_processDependency_plan; [|exact E1|exact H0].
        intros k d Hin. left. split; [reflexivity|exact Hin]. }
    destruct out1 as [u|e]; [|exact H1].
    match goal with
    | |- context [fst (?g st1)] => destruct (g st1) as [st2 out2] eqn:E2
    end.
    simpl. destruct (onlyDevDependencies o || negb (ignoreDevDependencies o))%bool eqn:Hd.
    - eapply forEach_processDependency_plan; [|exact E2|exact H1].
      intros k d Hin. right. split; [|exact Hin].
      destruct (onlyDevDependencies o); [left; reflexivity|].
      destruct (ignoreDevDependencies o); [discriminate|right; reflexivity].
    - injection E2 as <- _. exact H1. }
  destruct Hinv as [Hnd Hall]. split; [exact Hnd|].
  intros k p Hin. destruct (Hall k p Hin) as (d & r & HP & Hr & Hv & Hst).
  exists d, r. repeat split; assumption.
Qed.

(** Every plan that the loop over the workspaces leaves was there before
    or belongs to a workspace of the loop. *)
Lemma forEach_findPinnable_sound (ws : list Workspace) :
  forall c c' out,
    forEach ws findPinnableInWorkspace' c = (c', out) ->
    workspaces c' = workspaces c /\
    forall dir plan,
      JsMap.get dir (pinnableByWorkspaceCwd c') = Some plan ->
      JsMap.get dir (pinnableByWorkspaceCwd c) = Some plan \/
      exists w, In w ws /\ cwd w = dir /\ NoDup (map fst plan) /\
        forall k p, In (k, p) plan -> plannedFrom o proj (manifest w) k p.
Proof.
  induction ws as [|w ws IH]; intros c c' out H.
  - injection H as <- _. split; [reflexivity|]. intros dir plan Hg. left. exact Hg.
  - rewrite forEach_cons in H.
    destruct (findPinnableInWorkspace' w c) as [c1 out1] eqn:E.
    apply findPinnableInWorkspace_plan in E.
    destruct E as (Hws & plan1 & Hset & Hnd & Hall).
    assert (forall dir plan,
              JsMap.get dir (pinnableByWorkspaceCwd c1) = Some plan ->
              JsMap.get dir (pinnableByWorkspaceCwd c) = Some plan \/
              (cwd w = dir /\ NoDup (map fst plan) /\
               forall k p, In (k, p) plan -> plannedFrom o proj (manifest w) k p))
      as Hstep.
    { intros dir plan Hg. rewrite Hset in Hg.
      destruct (string_dec (cwd w) dir) as [Heq|Hne].
      - subst dir. rewrite JsMap_get_set_same in Hg. injection Hg as <-.
        right. repeat split; assumption.
      - rewrite JsMap_get_set_other in Hg by exact Hne. left. exact Hg. }
    destruct out1 as [u|e].
    + apply IH in H. destruct H as [Hws' Hrest]. split; [congruence|].
      intros dir plan Hg. destruct (Hrest dir plan Hg) as [Hg1|(w' & Hin & Hw')].
      * destruct (Hstep dir plan Hg1) as [Hg0|Hw]; [left; exact Hg0|].
        right. exists w. split; [left; reflexivity|exact Hw].
      * right. exists w'. split; [right; exact Hin|exact Hw'].
    + injection H as <- _. split; [exact Hws|].
      intros dir plan Hg. destruct (Hstep dir plan Hg) as [Hg0|Hw]; [left; exact Hg0|].
      right. exists w. split; [left; reflexivity|exact Hw].
Qed.

(** When the loop ends over workspaces with distinct directories, each
    of them has its own plan. *)
Lemma forEach_findPinnable_complete (ws : list Workspace) :
  forall c c',
    forEach ws findPinnableInWorkspace' c = (c', Normal tt) ->
    NoDup (map cwd ws) ->
    (forall dir, ~ In dir (map cwd ws) ->
       JsMap.get dir (pinnableByWorkspaceCwd c')
       = JsMap.get dir (pinnableByWorkspaceCwd c)) /\
    forall w, In w ws ->
      exists plan,
        JsMap.get (cwd w) (pinnableByWorkspaceCwd c') = Some plan /\
        NoDup (map fst plan) /\
        forall k p, In (k, p) plan -> plannedFrom o proj (manifest w) k p.
Proof.
  induction ws as [|w ws IH]; intros c c' H Hnd.
  - injection H as <-. split; [reflexivity|]. intros w [].
  - rewrite forEach_cons in H.
    destruct (findPinnableInWorkspace' w c) as [c1 out1] eqn:E.
    apply findPinnableInWorkspace_plan in E.
    destruct E as (Hws & plan1 & Hset & Hnd1 & Hall).
    destruct out1 as [u|e]; [|discriminate].
    simpl in Hnd. apply NoDup_cons_iff in Hnd. destruct Hnd as [Hnotin Hnd].
    destruct (IH c1 c' H Hnd) as [Hframe Hrest]. split.
    + intros dir Hdir. rewrite Hframe by (intros F; apply Hdir; right; exact F).
      rewrite Hset. apply JsMap_get_set_other. intros F. apply Hdir. left. exact F.
    + intros w' [<-|Hin]; [|apply Hrest; exact Hin].
      exists plan1. rewrite Hframe by exact Hnotin. rewrite Hset.
      split; [apply JsMap_get_set_same|]. split; assumption.
Qed.

(** X13. Whatever the planning phase leaves in the plan, and however it
    ends: a pin planned under a directory belongs to a workspace of that
    directory, it is the only pin of its identity there, its package is
    a stored package, and the manifest of the workspace has an entry of
    that identity whose declared range is not the package's version, in
    [dependencies] if [--dev] is not set, or in [devDependencies] if
    [--dev] is set or [--ignore-dev] is not. *)
Theorem X13_planned_pins_come_from_the_manifest (c c' : Command)
  (out : completion unit) (dir : string) (plan : JsMap.t Package) :
  findPinnableDependencies' c = (c', out) ->
  JsMap.get dir (pinnableByWorkspaceCwd c') = Some plan ->
  workspaces c' = workspaces c /\
  exists w,
    In w (workspaces c) /\ cwd w = dir /\ NoDup (map fst plan) /\
    forall k p, In (k, p) plan -> plannedFrom o proj (manifest w) k p.
Proof.
  unfold findPinnableDependencies, bind, modify, gets. cbv beta iota. simpl.
  intros H Hg. apply forEach_findPinnable_sound in H. simpl in H.
  destruct H as [Hws Hall]. split; [exact Hws|].
  destruct (Hall dir plan Hg) as [F|Hw]; [discriminate|exact Hw].
Qed.

End Planning.

Lemma X13_witness :
  workspaces plannedCommand = workspaces readyCommand /\
  exists w,
    In w (workspaces readyCommand) /\ cwd w = "/A" /\
    NoDup (map fst [("lib", pkg "L3" "3.0.0")]) /\
    forall k p, In (k, p) [("lib", pkg "L3" "3.0.0")] ->
      plannedFrom noOptions singleProject (manifest w) k p.
Proof.
  apply (@X13_planned_pins_come_from_the_manifest Mini.validRange Mini.semverSatisfies
           Mini.semverGt Mini.isVirtualLocator Mini.devirtualizeLocator noOptions
           singleProject readyCommand plannedCommand (Normal tt) "/A"
           [("lib", pkg "L3" "3.0.0")]).
  - reflexivity.
  - reflexivity.
Defined.

(** ** Planning, then pinning *)

Lemma pinWorkspaces_cons (exportManifest : Manifest -> Manifest)
  (o : Options) (done rest : list Workspace) (w : Workspace)
  (c : Command) :
  pinWorkspaces exportManifest o done (w :: rest) c =
  match pinWorkspace exportManifest o (cwd w) (JsMap.get (cwd w) (pinnableByWorkspaceCwd c))
          (mkPinState (log c) (manifest w) (disk c)) with
  | (s, Normal _) =>
      pinWorkspaces exportManifest o (done ++ [mkWorkspace (cwd w) (relativeCwd w) (ps_manifest s)])%list
        rest
        (mkCommand (ps_log s) (locatorsByIdent c)
           (done ++ mkWorkspace (cwd w) (relativeCwd w) (ps_manifest s) :: rest)%list
           (pinnableByWorkspaceCwd c) (reportablePinsByWorkspaceCwd c) (ps_disk s))
  | (s, Throw e) =>
      (mkCommand (ps_log s) (locatorsByIdent c)
         (done ++ mkWorkspace (cwd w) (relativeCwd w) (ps_manifest s) :: rest)%list
         (pinnableByWorkspaceCwd c) (reportablePinsByWorkspaceCwd c) (ps_disk s),
       Throw e)
  end.
Proof.
  simpl.
  destruct (pinWorkspace exportManifest o (cwd w) (JsMap.get (cwd w) (pinnableByWorkspaceCwd c))
              (mkPinState (log c) (manifest w) (disk c))) as [s [u|e]]; reflexivity.
Qed.

(** The pinning loop over workspaces that each have a plan of their own
    manifest's identities. *)
Lemma pinWorkspaces_applies (exportManifest : Manifest -> Manifest)
  (o : Options) (todo : list Workspace) :
  forall done c,
    (forall w, In w todo ->
       exists plan,
         JsMap.get (cwd w) (pinnableByWorkspaceCwd c) = Some plan /\
         NoDup (map fst plan) /\
         forall k p, In (k, p) plan -> curEntry (manifest w) k <> None) ->
    exists c' todo',
      pinWorkspaces exportManifest o done todo c = (c', Normal tt) /\
      pinnableByWorkspaceCwd c' = pinnableByWorkspaceCwd c /\
      (todo <> [] -> workspaces c' = (done ++ todo')%list) /\
      Forall2 (pinnedAs (pinnableByWorkspaceCwd c)) todo todo'.
Proof.
  induction todo as [|w rest IH]; intros done c Hplans.
  - exists c, []. split; [reflexivity|]. split; [reflexivity|].
    split; [intros F; contradiction|constructor].
  - destruct (Hplans w (or_introl eq_refl)) as (plan & Hget & Hnd & Hlisted).
    destruct (@foldM_pinEntry_applies (manifestPath (cwd w)) plan 0%nat
                (mkPinState (log c) (manifest w) (disk c)) Hnd Hlisted)
      as (s' & n' & E & Happ & _).
    destruct (@pinWorkspace_after exportManifest o (cwd w) plan _ _ _ E) as (s1 & E1 & Hm1 & _).
    rewrite pinWorkspaces_cons, Hget, E1.
    match goal with
    | |- context [pinWorkspaces exportManifest o ?d rest ?c1] =>
        destruct (IH d c1) as (c' & todo' & E' & Hp & Hws & Hall)
    end.
    { intros w' Hin. simpl. apply Hplans. right. exact Hin. }
    simpl in Hp, Hall.
    exists c', (mkWorkspace (cwd w) (relativeCwd w) (ps_manifest s1) :: todo').
    split; [exact E'|]. split; [exact Hp|]. split.
    + intros _. destruct rest as [|w2 rest].
      * inversion Hall. subst todo'. simpl in E'. injection E' as <-. reflexivity.
      * rewrite Hws by discriminate. rewrite <- app_assoc. reflexivity.
    + constructor; [|exact Hall].
      split; [reflexivity|]. split; [reflexivity|].
      exists plan. split; [exact Hget|]. simpl. rewrite Hm1. exact Happ.
Qed.

Section PlanThenPin.

Variable validRange : string -> bool.
Variable semverSatisfies : string -> string -> bool.
Variable semverGt : string -> string -> option bool.
Variable isVirtualLocator : Package -> bool.
Variable devirtualizeLocator : Package -> LocatorHash.
Variable exportManifest : Manifest -> Manifest.
Variable o : Options.
Variable proj : Project.

Local Abbreviation findPinnableDependencies' :=
  (findPinnableDependencies validRange semverSatisfies semverGt isVirtualLocator
     devirtualizeLocator o proj).

(** X14. When the planning phase has ended without a throw over
    workspaces with distinct directories, the pinning phase that follows
    does not throw either.  It leaves the plan as it is, and every
    workspace with the directory it had and a manifest in which each
    identity planned for that directory has the planned version as the
    range of the entry the pin is written to. *)
Theorem X14_planned_pins_are_applied (c c1 : Command) :
  NoDup (map cwd (workspaces c)) ->
  findPinnableDependencies' c = (c1, Normal tt) ->
  exists c2,
    pinDependencies exportManifest o c1 = (c2, Normal tt) /\
    pinnableByWorkspaceCwd c2 = pinnableByWorkspaceCwd c1 /\
    Forall2 (pinnedAs (pinnableByWorkspaceCwd c1)) (workspaces c) (workspaces c2).
Proof.
  intros Hnd H.
  unfold findPinnableDependencies, bind, modify, gets in H. cbv beta iota in H.
  simpl in H.
  pose proof H as H0. apply forEach_findPinnable_sound in H0.
  destruct H0 as [Hws _]. simpl in Hws.
  apply forEach_findPinnable_complete in H; [|exact Hnd].
  destruct H as [_ Hplans].
  unfold pinDependencies, bind, modify, gets. cbv beta iota. simpl.
  match goal with
  | |- context [pinWorkspaces exportManifest o [] ?ws ?c0] =>
      destruct (@pinWorkspaces_applies exportManifest o ws [] c0) as (c2 & ws' & E & Hp & Hw & Hall)
  end.
  { simpl. rewrite Hws. intros w Hin.
    destruct (Hplans w Hin) as (plan & Hget & Hnd' & Hall).
    exists plan. split; [exact Hget|]. split; [exact Hnd'|].
    intros k p Hin'. destruct (Hall k p Hin') as (d & r & Hd & _).
    apply curEntry_listed with (d := d).
    destruct Hd as [[_ Hd]|[_ Hd]]; [left|right]; exact Hd. }
  simpl in Hp, Hall. rewrite Hws in Hall.
  exists c2. split; [exact E|]. split; [exact Hp|].
  destruct (workspaces c1) as [|w0 ws0] eqn:Ews.
  - simpl in E. injection E as <-. simpl. rewrite Ews. rewrite <- Hws. constructor.
  - rewrite Hw by discriminate. exact Hall.
Qed.

End PlanThenPin.

Lemma X14_witness :
  exists c2,
    pinDependencies Mini.exportManifest noOptions plannedCommand = (c2, Normal tt) /\
    pinnableByWorkspaceCwd c2 = pinnableByWorkspaceCwd plannedCommand /\
    Forall2 (pinnedAs (pinnableByWorkspaceCwd plannedCommand))
      (workspaces readyCommand) (workspaces c2).
Proof.
  apply (@X14_planned_pins_are_applied Mini.validRange Mini.semverSatisfies
           Mini.semverGt Mini.isVirtualLocator Mini.devirtualizeLocator
           Mini.exportManifest noOptions
           singleProject readyCommand plannedCommand).
  - simpl. constructor; [intros []|constructor].
  - reflexivity.
Defined.

(** ** Candidates of one locator *)

Lemma candidatePairs_In (cs : list Package) (a b : Package) :
  In (a, b) (candidatePairs cs) -> In a cs /\ In b cs.
Proof.
  intros H. apply candidatePairs_spec in H. destruct H as (i & j & _ & Hi & Hj).
  split; eapply nth_error_In; eassumption.
Qed.

Lemma numDupes_zero_iff (cs : list Package) :
  numDupes cs = 0%nat <->
  forall a b, In a cs -> In b cs -> locatorHash a = locatorHash b.
Proof.
  unfold numDupes. rewrite length_zero_iff_nil. split.
  - intros Hnil a b Ha Hb.
    assert (forall x y, In (x, y) (candidatePairs cs) -> locatorHash x = locatorHash y)
      as Hpairs.
    { intros x y Hin.
      destruct (String.eqb_spec (locatorHash x) (locatorHash y)) as [E|Hne];
        [exact E|].
      assert (In (x, y)
                (filter (fun ab => negb (areLocatorsEqual (fst ab) (snd ab)))
                   (candidatePairs cs))) as Hf.
      { apply filter_In. split; [exact Hin|]. unfold areLocatorsEqual. simpl.
        destruct (String.eqb_spec (locatorHash x) (locatorHash y));
          [contradiction|reflexivity]. }
      rewrite Hnil in Hf. destruct Hf. }
    apply In_nth_error in Ha, Hb. destruct Ha as [i Hi], Hb as [j Hj].
    destruct (Nat.lt_trichotomy i j) as [Hlt|[Heq|Hgt]].
    + apply Hpairs. apply candidatePairs_spec. exists i, j. auto.
    + subst j. congruence.
    + symmetry. apply Hpairs. apply candidatePairs_spec. exists j, i. auto.
  - intros Hall.
    destruct (filter (fun ab => negb (areLocatorsEqual (fst ab) (snd ab)))
                (candidatePairs cs)) as [|[x y] rest] eqn:E; [reflexivity|].
    assert (In (x, y)
              (filter (fun ab => negb (areLocatorsEqual (fst ab) (snd ab)))
                 (candidatePairs cs))) as Hf by (rewrite E; left; reflexivity).
    apply filter_In in Hf. destruct Hf as [Hin Hneg].
    apply candidatePairs_In in Hin. destruct Hin as [Hx Hy].
    unfold areLocatorsEqual in Hneg. simpl in Hneg.
    rewrite (Hall x y Hx Hy), String.eqb_refl in Hneg. discriminate.
Qed.

Section OneLocator.

Variable semverSatisfies : string -> string -> bool.
Variable semverGt : string -> string -> option bool.
Variable isVirtualLocator : Package -> bool.
Variable devirtualizeLocator : Package -> LocatorHash.
Variable proj : Project.

Local Abbreviation candidates' :=
  (candidates semverSatisfies semverGt isVirtualLocator devirtualizeLocator proj).
Local Abbreviation pinTo' :=
  (pinTo semverSatisfies semverGt isVirtualLocator devirtualizeLocator proj).

(** X15. For an identity with several locators, the selection leaves
    the report as it is when all candidates have one locator, as a
    virtual package and its source have, however many candidates there
    are; and as soon as two candidates have different locators it hands
    the duplicate warning to [reportWarningOnce], with a positive number
    of pairs. *)
Theorem X15_one_locator_is_no_duplicate (index : JsMap.t JsSet.t) (e : bool)
  (k : IdentHash) (r ref workspaceCwd : string) (hashes : JsSet.t)
  (cs : list Package) (st : DepState) :
  JsMap.get k index = Some hashes ->
  (1 < JsSet.size hashes)%nat ->
  candidates' e r hashes = Normal cs ->
  ((forall a b, In a cs -> In b cs -> locatorHash a = locatorHash b) ->
   fst (pinTo' index e k r ref workspaceCwd st) = st) /\
  (forall a b, In a cs -> In b cs -> locatorHash a <> locatorHash b ->
     (0 < numDupes cs)%nat /\
     fst (pinTo' index e k r ref workspaceCwd st) =
     setDsLog (reportWarningOnce
                 (duplicateWarning ref (length cs) (numDupes cs) workspaceCwd)) st).
Proof.
  intros Hk Hsize Hcs.
  rewrite (@pinTo_several semverSatisfies semverGt isVirtualLocator devirtualizeLocator
             proj index e k r ref workspaceCwd hashes cs st Hk Hsize Hcs).
  cbv [fst]. split.
  - intros Hall. apply numDupes_zero_iff in Hall. rewrite Hall.
    rewrite andb_false_r. reflexivity.
  - intros a b Ha Hb Hne.
    assert (numDupes cs <> 0%nat) as Hpos.
    { intros F. apply Hne. apply (proj1 (numDupes_zero_iff cs) F); assumption. }
    assert (1 < length cs)%nat as Hlen.
    { destruct cs as [|x [|y cs']].
      - destruct Ha.
      - destruct Ha as [<-|[]], Hb as [<-|[]]. contradiction.
      - simpl. apply -> Nat.succ_lt_mono. apply Nat.lt_0_succ. }
    split; [apply Nat.neq_0_lt_0; exact Hpos|].
    apply Nat.ltb_lt in Hlen. rewrite Hlen.
    assert ((0 <? numDupes cs)%nat = true) as Hd
      by (apply Nat.ltb_lt, Nat.neq_0_lt_0; exact Hpos).
    rewrite Hd. reflexivity.
Qed.

End OneLocator.

Lemma X15_witness :
  ((forall a b, In a [pkg "L1" "1.0.0"; pkg "L1" "1.0.0"] ->
                In b [pkg "L1" "1.0.0"; pkg "L1" "1.0.0"] ->
                locatorHash a = locatorHash b) ->
   fst (pinTo Mini.semverSatisfies Mini.semverGt Mini.isVirtualLocator
          Mini.devirtualizeLocator sharedProject sharedIndex false "lib" "^1.0.0"
          "lib:^1.0.0" "/A" emptyDepState) = emptyDepState) /\
  (forall a b, In a [pkg "L1" "1.0.0"; pkg "L1" "1.0.0"] ->
               In b [pkg "L1" "1.0.0"; pkg "L1" "1.0.0"] ->
               locatorHash a <> locatorHash b ->
     (0 < numDupes [pkg "L1" "1.0.0"; pkg "L1" "1.0.0"])%nat /\
     fst (pinTo Mini.semverSatisfies Mini.semverGt Mini.isVirtualLocator
            Mini.devirtualizeLocator sharedProject sharedIndex false "lib" "^1.0.0"
            "lib:^1.0.0" "/A" emptyDepState) =
     setDsLog (reportWarningOnce
                 (duplicateWarning "lib:^1.0.0"
                    (length [pkg "L1" "1.0.0"; pkg "L1" "1.0.0"])
                    (numDupes [pkg "L1" "1.0.0"; pkg "L1" "1.0.0"]) "/A"))
       emptyDepState).
Proof.
  apply (@X15_one_locator_is_no_duplicate Mini.semverSatisfies Mini.semverGt
           Mini.isVirtualLocator Mini.devirtualizeLocator sharedProject sharedIndex
           false "lib" "^1.0.0" "lib:^1.0.0" "/A" ["virtual:ctx#L1"; "L1"]
           [pkg "L1" "1.0.0"; pkg "L1" "1.0.0"] emptyDepState).
  - reflexivity.
  - simpl. lia.
  - reflexivity.
Defined.

(** ** A failed plan *)

Section FailedPlan.

Variable validRange : string -> bool.
Variable semverSatisfies : string -> string -> bool.
Variable semverGt : string -> string -> option bool.
Variable isVirtualLocator : Package -> bool.
Variable devirtualizeLocator : Package -> LocatorHash.
Variable exportManifest : Manifest -> Manifest.
Variable o : Options.
Variable proj : Project.

Local Abbreviation findPinnableDependencies' :=
  (findPinnableDependencies validRange semverSatisfies semverGt isVirtualLocator
     devirtualizeLocator o proj).
Local Abbreviation execute' :=
  (execute validRange semverSatisfies semverGt isVirtualLocator devirtualizeLocator
     exportManifest o proj).

(** X16. The three steps before the pinning step never write a file,
    however they end; and when one of them throws, the run ends with
    that throw in the state it left: the pinning step does not run, and
    every manifest file is what it was. *)
Theorem X16_failed_plan_writes_nothing (c c1 : Command) (e : string) :
  bind (gatherWorkspaces o proj) (fun _ =>
    bind (createLocatorsByIdentMap proj) (fun _ => findPinnableDependencies')) c
  = (c1, Throw e) ->
  execute' c = (c1, Throw e) /\ disk c1 = disk c.
Proof.
  intros H.
  assert (disk c1 = disk c) as Hdisk.
  { change c1 with (fst (c1, @Throw unit e)). rewrite <- H.
    apply keepsDisk_bind; [apply gatherWorkspaces_keepsDisk|].
    intros _. apply keepsDisk_bind; [apply createLocatorsByIdentMap_keepsDisk|].
    intros _. apply findPinnableDependencies_keepsDisk. }
  split; [|exact Hdisk].
  unfold execute. unfold bind in *.
  destruct (gatherWorkspaces o proj c) as [c2 [u|e2]]; [|exact H].
  destruct (createLocatorsByIdentMap proj c2) as [c3 [u3|e3]]; [|exact H].
  destruct (findPinnableDependencies' c3) as [c4 [u4|e4]]; [discriminate|exact H].
Qed.

End FailedPlan.

Lemma X16_witness :
  Mini.execute noOptions missingProject (newCommand missingDisk) =
  (mkCommand
     (mkReport [Warning "Missing locator: lib:^2.0.0, in workspace /A"] [])
     [("other", ["O"])]
     (project_workspaces missingProject)
     [("/A", [])]
     [("/A", [])]
     missingDisk,
   Throw "TypeError: pinTo is undefined") /\
  missingDisk = disk (newCommand missingDisk).
Proof.
  apply (@X16_failed_plan_writes_nothing Mini.validRange Mini.semverSatisfies
           Mini.semverGt Mini.isVirtualLocator Mini.devirtualizeLocator
           Mini.exportManifest noOptions
           missingProject (newCommand missingDisk)).
  reflexivity.
Defined.

(* ================================================================== *)
(** ** What a dry run reports *)
(* ================================================================== *)

Lemma logExtends_In (r r' : Report) (e : LogEntry) :
  logExtends r r' -> In e (entries r) -> In e (entries r').
Proof.
  intros [added H] Hin. rewrite H. apply in_or_app. left. exact Hin.
Qed.

(** A pin that changes the range is reported. *)
Lemma pinEntry_line (path : string) (n : nat) (k : IdentHash) (p : Package)
  (s : PinState) (d : Descriptor) :
  curEntry (ps_manifest s) k = Some d ->
  range d <> version p ->
  In (Info (pinLine d (version p) path))
    (entries (ps_log (fst (pinEntry path n (k, p) s)))).
Proof.
  intros Hcur Hne.
  assert (jsstr_eqb (range d) (version p) = false) as E.
  { destruct (jsstr_eqb (range d) (version p)) eqn:E; [|reflexivity].
    apply jsstr_eqb_eq in E. contradiction. }
  unfold curEntry in Hcur. unfold pinEntry. cbv [fst snd].
  destruct (JsMap.get k (dependencies (ps_manifest s))) as [d0|] eqn:Ed.
  - injection Hcur as ->. rewrite E. simpl.
    apply in_or_app. right. left. reflexivity.
  - rewrite Hcur, E. simpl. apply in_or_app. right. left. reflexivity.
Qed.

(** The loop over a plan with one pin per identity reports every pin
    that changes a range, and counts it. *)
Lemma foldM_pinEntry_lines (path : string) (plan : JsMap.t Package) :
  forall n s s' n',
    NoDup (map fst plan) ->
    foldM (pinEntry path) n plan s = (s', Normal n') ->
    forall k p d,
      In (k, p) plan -> curEntry (ps_manifest s) k = Some d ->
      range d <> version p ->
      In (Info (pinLine d (version p) path)) (entries (ps_log s')) /\ (n < n')%nat.
Proof.
  induction plan as [|[k0 p0] plan IH]; intros n s s' n' Hnd H k p d Hin Hcur Hne;
    [destruct Hin|].
  apply NoDup_cons_iff in Hnd. destruct Hnd as [Hnotin Hnd]. simpl in Hnotin.
  rewrite foldM_cons in H.
  destruct (curEntry (ps_manifest s) k0) as [d0|] eqn:Ec.
  - destruct (pinEntry_step path n k0 p0 s Ec) as (s1 & E & _ & Hothers & _).
    pose proof (pinEntry_line path n k0 p0 s Ec) as Hline.
    unfold IdentHash in *. rewrite E in H, Hline. simpl in Hline.
    destruct Hin as [Heq|Hin].
    + injection Heq as -> ->. rewrite Hcur in Ec. injection Ec as <-.
      assert (jsstr_eqb (range d) (version p) = false) as Eb.
      { destruct (jsstr_eqb (range d) (version p)) eqn:Eb; [|reflexivity].
        apply jsstr_eqb_eq in Eb. contradiction. }
      rewrite Eb in H. apply foldM_pinEntry_counter in H.
      destruct H as (Hle & _ & _ & HL). split.
      * eapply logExtends_In; [exact HL|]. apply Hline. exact Hne.
      * apply Nat.lt_le_trans with (m := (n + 1)%nat); [|exact Hle].
        rewrite Nat.add_1_r. apply Nat.lt_succ_diag_r.
    + assert (k <> k0) as Hk.
      { intros ->. apply Hnotin. apply in_map_iff. exists (k0, p). auto. }
      destruct (IH _ _ _ _ Hnd H k p d Hin) as [Hl Hlt]; [|exact Hne|].
      * rewrite Hothers by exact Hk. exact Hcur.
      * split; [exact Hl|].
        destruct (jsstr_eqb (range d0) (version p0)); [exact Hlt|].
        apply Nat.le_lt_trans with (m := (n + 1)%nat); [|exact Hlt].
        rewrite Nat.add_1_r. apply Nat.le_succ_diag_r.
  - pose proof (pinEntry_absent path n k0 p0 s Ec) as E.
    unfold IdentHash in *. rewrite E in H. discriminate.
Qed.

(** The pinning loop over workspaces that each have a plan of their own
    manifest's identities reports every pin that changes a range. *)
Lemma pinWorkspaces_reports (exportManifest : Manifest -> Manifest) (o : Options)
  (todo : list Workspace) :
  forall done c,
    (forall w, In w todo ->
       exists plan,
         JsMap.get (cwd w) (pinnableByWorkspaceCwd c) = Some plan /\
         NoDup (map fst plan) /\
         forall k p, In (k, p) plan -> curEntry (manifest w) k <> None) ->
    logExtends (log c) (log (fst (pinWorkspaces exportManifest o done todo c))) /\
    pinsReported (dryRun o) (pinnableByWorkspaceCwd c) todo
      (log (fst (pinWorkspaces exportManifest o done todo c))).
Proof.
  induction todo as [|w rest IH]; intros done c Hplans.
  - split; [apply logExtends_refl|]. intros w plan k p d [].
  - destruct (Hplans w (or_introl eq_refl)) as (plan & Hget & Hnd & Hlisted).
    destruct (@foldM_pinEntry_applies (manifestPath (cwd w)) plan 0%nat
                (mkPinState (log c) (manifest w) (disk c)) Hnd Hlisted)
      as (s' & n' & E & _ & _).
    destruct (@pinWorkspace_after exportManifest o (cwd w) plan _ _ _ E)
      as (s1 & E1 & _ & _ & Hlog).
    rewrite pinWorkspaces_cons, Hget, E1.
    match goal with
    | |- context [pinWorkspaces exportManifest o ?d rest ?c1] =>
        destruct (IH d c1) as [HLrest Hrest]
    end.
    { intros w' Hin. simpl. apply Hplans. right. exact Hin. }
    simpl in HLrest, Hrest.
    pose proof E as HL0. apply foldM_pinEntry_counter in HL0.
    destruct HL0 as (_ & _ & _ & HL0).
    simpl in HL0.
    assert (logExtends (ps_log s') (ps_log s1)) as HL1.
    { rewrite Hlog. destruct (0 <? n')%nat; [apply logExtends_emit|apply logExtends_refl]. }
    split.
    + eapply logExtends_trans; [exact HL0|].
      eapply logExtends_trans; [exact HL1|exact HLrest].
    + intros w0 plan0 k p d [<-|Hin] Hget0 Hin0 Hcur Hne.
      * rewrite Hget in Hget0. injection Hget0 as <-.
        destruct (@foldM_pinEntry_lines _ _ _ _ _ _ Hnd E k p d Hin0 Hcur Hne)
          as [Hline Hpos].
        split.
        -- eapply logExtends_In; [exact HLrest|].
           eapply logExtends_In; [exact HL1|]. exact Hline.
        -- exists n'. split; [exact Hpos|].
           eapply logExtends_In; [exact HLrest|]. rewrite Hlog.
           apply Nat.ltb_lt in Hpos. rewrite Hpos.
           unfold reportInfo, emit. simpl. apply in_or_app. right. left. reflexivity.
      * apply (Hrest w0 plan0 k p d Hin Hget0 Hin0 Hcur Hne).
Qed.

(** The pinning loop leaves the report map alone. *)
Lemma pinWorkspaces_keeps_report_map (exportManifest : Manifest -> Manifest)
  (o : Options) (todo : list Workspace) :
  forall done c,
    reportablePinsByWorkspaceCwd (fst (pinWorkspaces exportManifest o done todo c))
    = reportablePinsByWorkspaceCwd c.
Proof.
  induction todo as [|w rest IH]; intros done c; [reflexivity|].
  rewrite pinWorkspaces_cons.
  destruct (pinWorkspace exportManifest o (cwd w)
              (JsMap.get (cwd w) (pinnableByWorkspaceCwd c))
              (mkPinState (log c) (manifest w) (disk c))) as [s [u|e]];
    [|reflexivity].
  rewrite IH. reflexivity.
Qed.

Section DryRunReports.

Variable validRange : string -> bool.
Variable semverSatisfies : string -> string -> bool.
Variable semverGt : string -> string -> option bool.
Variable isVirtualLocator : Package -> bool.
Variable devirtualizeLocator : Package -> LocatorHash.
Variable exportManifest : Manifest -> Manifest.
Variable proj : Project.

Local Abbreviation findPinnableDependencies' :=
  (findPinnableDependencies validRange semverSatisfies semverGt isVirtualLocator
     devirtualizeLocator).
Local Abbreviation execute' :=
  (execute validRange semverSatisfies semverGt isVirtualLocator devirtualizeLocator
     exportManifest).

(** After the planning phase over workspaces with distinct directories
    every workspace has a plan of identities that its manifest lists. *)
Lemma planned_workspaces (o : Options) (c c1 : Command) :
  NoDup (map cwd (workspaces c1)) ->
  findPinnableDependencies' o proj c = (c1, Normal tt) ->
  forall w, In w (workspaces c1) ->
    exists plan,
      JsMap.get (cwd w) (pinnableByWorkspaceCwd c1) = Some plan /\
      NoDup (map fst plan) /\
      forall k p, In (k, p) plan -> curEntry (manifest w) k <> None.
Proof.
  intros Hnd H.
  unfold findPinnableDependencies, bind, modify, gets in H. cbv beta iota in H.
  simpl in H.
  pose proof H as H0. apply forEach_findPinnable_sound in H0.
  destruct H0 as [Hws _]. simpl in Hws. rewrite Hws in Hnd.
  apply forEach_findPinnable_complete in H; [|exact Hnd].
  destruct H as [_ Hplans]. rewrite Hws. intros w Hin.
  destruct (Hplans w Hin) as (plan & Hget & Hnd' & Hall).
  exists plan. split; [exact Hget|]. split; [exact Hnd'|].
  intros k p Hin'. destruct (Hall k p Hin') as (d & r & Hd & _).
  apply curEntry_listed with (d := d).
  destruct Hd as [[_ Hd]|[_ Hd]]; [left|right]; exact Hd.
Qed.

(** C10. With [--dry] the command leaves every manifest file as it was,
    whatever the plan holds and however the run ends; and it computes and
    reports what a run without the flag computes and reports: the same
    index, the same plan and report map, the same manifests in memory,
    the same completion, and the same lines in the report but for the
    closing line of each workspace, which says [saved[DRY RUN]].  When
    the steps before the pinning step have ended without a throw over
    workspaces with distinct directories, the run ends without a throw
    with the plan and the report map they computed; the report then
    holds the lines it had, next the plan as the report map gives it,
    and for every planned pin that changes the range of the entry it is
    written to the line of that pin and the [saved[DRY RUN]] line of its
    workspace with a positive count; and in memory every workspace has
    the planned versions as ranges. *)
Theorem C10_dry_run_persists_nothing (o : Options) (c : Command) :
  dryRun o = true ->
  disk (fst (execute' o proj c)) = disk c /\
  sameMemory (fst (execute' o proj c)) (fst (execute' (setDryRun false o) proj c)) /\
  sameReport (log (fst (execute' o proj c)))
    (log (fst (execute' (setDryRun false o) proj c))) /\
  snd (execute' o proj c) = snd (execute' (setDryRun false o) proj c) /\
  (forall c1,
     bind (gatherWorkspaces o proj) (fun _ =>
       bind (createLocatorsByIdentMap proj) (fun _ =>
         findPinnableDependencies' o proj)) c = (c1, Normal tt) ->
     NoDup (map cwd (workspaces c1)) ->
     exists c2,
       execute' o proj c = (c2, Normal tt) /\
       disk c2 = disk c /\
       pinnableByWorkspaceCwd c2 = pinnableByWorkspaceCwd c1 /\
       reportablePinsByWorkspaceCwd c2 = reportablePinsByWorkspaceCwd c1 /\
       (exists after,
          entries (log c2) =
          (entries (log c1) ++ Json (reportablePinsByWorkspaceCwd c1) :: after)%list) /\
       pinsReported true (pinnableByWorkspaceCwd c1) (workspaces c1) (log c2) /\
       Forall2 (pinnedAs (pinnableByWorkspaceCwd c1)) (workspaces c1) (workspaces c2)).
Proof.
  intros Hdry.
  destruct (@dry_run_frame validRange semverSatisfies semverGt isVirtualLocator
              devirtualizeLocator exportManifest proj o c Hdry)
    as (Hdisk & Hmem & Hrep & Hcompl).
  split; [exact Hdisk|]. split; [exact Hmem|]. split; [exact Hrep|].
  split; [exact Hcompl|].
  intros c1 Hplan Hnd.
  assert (execute' o proj c = pinDependencies exportManifest o c1) as Hexec.
  { unfold execute. unfold bind in Hplan. unfold bind.
    destruct (gatherWorkspaces o proj c) as [ca [ua|ea]]; [|discriminate].
    destruct (createLocatorsByIdentMap proj ca) as [cb [ub|eb]]; [|discriminate].
    rewrite Hplan. reflexivity. }
  assert (forall w, In w (workspaces c1) ->
            exists plan,
              JsMap.get (cwd w) (pinnableByWorkspaceCwd c1) = Some plan /\
              NoDup (map fst plan) /\
              forall k p, In (k, p) plan -> curEntry (manifest w) k <> None) as Hplans.
  { unfold bind in Hplan.
    destruct (gatherWorkspaces o proj c) as [ca [ua|ea]]; [|discriminate].
    destruct (createLocatorsByIdentMap proj ca) as [cb [ub|eb]]; [|discriminate].
    destruct ub. eapply planned_workspaces; eassumption. }
  rewrite Hexec in Hdisk. rewrite Hexec. clear Hexec Hmem Hrep Hcompl.
  unfold pinDependencies, bind, modify, gets in *. cbv beta iota in *. simpl in *.
  match goal with
  | |- context [pinWorkspaces exportManifest o [] ?ws ?c0] =>
      destruct (@pinWorkspaces_applies exportManifest o ws [] c0)
        as (c2 & ws' & E & Hp & Hw & Hall);
      [exact Hplans|];
      destruct (@pinWorkspaces_reports exportManifest o ws [] c0 Hplans)
        as [HL Hlines]
  end.
  rewrite E in Hdisk, HL, Hlines. simpl in Hdisk, HL, Hlines, Hp, Hall.
  exists c2. split; [exact E|]. split; [exact Hdisk|]. split; [exact Hp|].
  split.
  { pose proof (@pinWorkspaces_keeps_report_map exportManifest o (workspaces c1) []
                  (setLog (reportJson (reportablePinsByWorkspaceCwd c1) (log c1)) c1))
      as Hr.
    rewrite E in Hr. exact Hr. }
  split.
  { destruct HL as [added Hadded]. simpl in Hadded.
    exists added. rewrite Hadded, <- app_assoc. reflexivity. }
  split.
  { rewrite Hdry in Hlines. exact Hlines. }
  destruct (workspaces c1) as [|w0 ws0] eqn:Ews.
  - simpl in E. injection E as <-. simpl. rewrite Ews. constructor.
  - rewrite Hw by discriminate. exact Hall.
Qed.

End DryRunReports.

Lemma C10_witness :
  (disk (fst (Mini.execute dryOptions singleProject (newCommand pinnableDisk)))
   = disk (newCommand pinnableDisk) /\
   sameMemory
     (fst (Mini.execute dryOptions singleProject (newCommand pinnableDisk)))
     (fst (Mini.execute (setDryRun false dryOptions) singleProject (newCommand pinnableDisk)))
   /\
   sameReport
     (log (fst (Mini.execute dryOptions singleProject (newCommand pinnableDisk))))
     (log (fst (Mini.execute (setDryRun false dryOptions) singleProject
                  (newCommand pinnableDisk))))
   /\
   snd (Mini.execute dryOptions singleProject (newCommand pinnableDisk))
   = snd (Mini.execute (setDryRun false dryOptions) singleProject (newCommand pinnableDisk)))
  /\
  exists c2,
    Mini.execute dryOptions singleProject (newCommand pinnableDisk) = (c2, Normal tt) /\
    disk c2 = pinnableDisk /\
    pinnableByWorkspaceCwd c2 = [("/A", [("lib", pkg "L3" "3.0.0")])] /\
    reportablePinsByWorkspaceCwd c2 = [("/A", [("lib:^2.0.0", Some "3.0.0")])] /\
    (exists after,
       entries (log c2) =
       ([] ++ Json [("/A", [("lib:^2.0.0", Some "3.0.0")])] :: after)%list) /\
    pinsReported true [("/A", [("lib", pkg "L3" "3.0.0")])]
      (project_workspaces singleProject) (log c2) /\
    Forall2 (pinnedAs [("/A", [("lib", pkg "L3" "3.0.0")])])
      (project_workspaces singleProject) (workspaces c2) /\
    In (Info (pinLine lib20 (Some "3.0.0") "/A/package.json")) (entries (log c2)) /\
    exists n, (0 < n)%nat /\
      In (Info (pinnedSummary true n "/A/package.json")) (entries (log c2)).
Proof.
  destruct (@C10_dry_run_persists_nothing Mini.validRange Mini.semverSatisfies
              Mini.semverGt Mini.isVirtualLocator Mini.devirtualizeLocator
              Mini.exportManifest singleProject dryOptions (newCommand pinnableDisk)
              eq_refl)
    as (H1 & H2 & H3 & H4 & H5).
  split; [split; [exact H1|split; [exact H2|split; [exact H3|exact H4]]]|].
  destruct (H5 plannedCommand) as (c2 & E & Hd & Hp & Hr & Hj & Hlines & Hpinned).
  - reflexivity.
  - simpl. constructor; [intros []|constructor].
  - exists c2. repeat (split; [assumption|]).
    apply (Hlines (mkWorkspace "/A" "." (manifestOf "a" [("lib", lib20)] []))
             [("lib", pkg "L3" "3.0.0")] "lib" (pkg "L3" "3.0.0") lib20).
    + left. reflexivity.
    + reflexivity.
    + left. reflexivity.
    + reflexivity.
    + discriminate.
Defined.
